(** * Persistence layer and feed pipeline of the podcast plugin

  A shallow embedding of
  - [FileSystemStore.readJson] / [writeJson] and the [SingleFileStore]
    class (load, performLoad, save, scheduleDebouncedSave, flush,
    invalidateCache, hasPendingChanges, clear, delete),
  - [FileSystemStore.fileExists], [deleteFile], [listFiles] and the
    [MultiFileStore] methods built on them,
  - [SettingsStore.validate], [loadWithMigration], [updateSetting] and the
    typed update methods,
  - [FeedService.detectFeedType], [fetchFeedXML], [getCachedFeed],
    [fetchFeed] and [updateFeed],
  - the range computation and rendering of [VirtualList], the time
    utilities, and the insertion of an entry into a daily note,
  followed by the properties proved about them.  For the dirty flag of
  [SingleFileStore] the operations of a store are run together with a
  record of the adapter writes in flight and of the text the last
  completed write carried.

  The runtime is the single-threaded event loop of the host: an [async]
  method runs synchronously up to its first [await] on an adapter call and
  is resumed by a later event.  Every such suspension point is a separate
  event of the model, so calls can interleave exactly where they can in
  the source. *)

From Stdlib Require Import ZArith List String Ascii Bool Lia DecimalString.
From Stdlib Require Import DecimalPos.
Import ListNotations.
Open Scope string_scope.
Open Scope Z_scope.

(* ================================================================== *)
(** * Part I: the embedding *)
(* ================================================================== *)

(** ** Errors *)

(** [new StorageError(message, path)]. *)
Inductive StorageError : Type :=
| mkStorageError (message : string) (path : string).

(** A settled promise: fulfilled with a value or rejected with an error. *)
Inductive Outcome (E A : Type) : Type :=
| Resolved (v : A)
| Rejected (e : E).
Arguments Resolved {E A} v.
Arguments Rejected {E A} e.

(** ** SingleFileStore *)

Module Store.
Set Implicit Arguments.
Section Model.

(** The document type [T] of the store and the hooks supplied by the
    concrete subclass.  The field type [T | null] is [option T]; the
    documents the stores hold are JSON objects, so the tests
    [this.cache !== null] and [this.cache] agree on them. *)
Variable T : Type.
Variable validate : T -> bool.
Variable getDefaultValue : T.

(** [JSON.parse] ([None] when it throws) and [JSON.stringify(data, null, 2)]. *)
Variable JSON_parse : string -> option T.
Variable JSON_stringify : T -> string.

(** [this.filePath]. *)
Variable filePath : string.

Definition CACHE_TTL_MS : Z := 2000.
Definition SAVE_DEBOUNCE_MS : Z := 1000.

(** Modelled from the spec: [safeJsonParse] of utils/errorUtils, whose
    source is missing.  Corrupt content is masked: the parsed value when
    the text parses, the fallback otherwise. *)
Definition safeJsonParse (content : string) (fallback : T) : T :=
  match JSON_parse content with
  | Some data => data
  | None => fallback
  end.

(** Calls made on [vault.adapter]. *)
Inductive IoCall : Type :=
| AdapterExists (path : string)
| AdapterRead (path : string)
| AdapterWrite (path : string) (content : string).

(** Where the one [performLoad] in flight is suspended. *)
Inductive LoadPhase : Type :=
| AwaitExists                               (* readJson: await adapter.exists(path) *)
| AwaitRead                                 (* readJson: await adapter.read(path) *)
| Settled (r : Outcome StorageError T).     (* performLoad settled, load's finally not yet run *)

(** The promise stored in [this.loadPromise]: its identity, the arguments
    captured when [performLoad(now)] was called, and its progress. *)
Record LoadTask : Type := mkLoadTask {
  lid : nat;
  timestamp : Z;
  fallback : T;
  phase : LoadPhase
}.

(** Who awaits an [adapter.write]: [flush] (the error propagates) or the
    debounce timer callback (the error is logged and swallowed). *)
Inductive WriteKind : Type := FromFlush | FromTimer.

Record WriteTask : Type := mkWriteTask {
  wid : nat;
  kind : WriteKind
}.

(** The fields of the class, followed by the state of the runtime around
    it: the clock, a supply of identifiers, the adapter writes that have
    not completed and the log of adapter calls (most recent first). *)
Record Store : Type := mkStore {
  cache : option T;
  cacheTimestamp : Z;
  isDirty : bool;
  saveDebounceTimer : option Z;      (* deadline of the live timeout, None = null *)
  loadPromise : option LoadTask;
  now : Z;
  nextId : nat;
  pendingWrites : list WriteTask;
  ioLog : list IoCall
}.

Definition initial (t0 : Z) : Store :=
  mkStore None 0 false None None t0 0%nat [] [].

(** What a caller, or the runtime, observes of a step. *)
Inductive Reply : Type :=
| RNone                                            (* nothing happened *)
| RValue (v : T)                                   (* load: the cached value *)
| RLoadPromise (id : nat)                          (* load: settles with load number id *)
| RLoadSettled (id : nat) (r : Outcome StorageError T)
| RDone                                            (* save or flush completed *)
| RThrows (e : StorageError)                       (* save rejected *)
| RWritePromise (id : nat)                         (* save/flush: settles with write number id *)
| RWriteSettled (id : nat) (r : Outcome StorageError unit)
| RBool (b : bool).

(** *** Field updates *)

Definition setCache (c : option T) (ts : Z) (s : Store) : Store :=
  mkStore c ts (isDirty s) (saveDebounceTimer s) (loadPromise s)
          (now s) (nextId s) (pendingWrites s) (ioLog s).

Definition setDirty (d : bool) (s : Store) : Store :=
  mkStore (cache s) (cacheTimestamp s) d (saveDebounceTimer s) (loadPromise s)
          (now s) (nextId s) (pendingWrites s) (ioLog s).

Definition setTimer (t : option Z) (s : Store) : Store :=
  mkStore (cache s) (cacheTimestamp s) (isDirty s) t (loadPromise s)
          (now s) (nextId s) (pendingWrites s) (ioLog s).

Definition setLoadPromise (p : option LoadTask) (s : Store) : Store :=
  mkStore (cache s) (cacheTimestamp s) (isDirty s) (saveDebounceTimer s) p
          (now s) (nextId s) (pendingWrites s) (ioLog s).

Definition setNow (t : Z) (s : Store) : Store :=
  mkStore (cache s) (cacheTimestamp s) (isDirty s) (saveDebounceTimer s) (loadPromise s)
          t (nextId s) (pendingWrites s) (ioLog s).

Definition logCall (c : IoCall) (s : Store) : Store :=
  mkStore (cache s) (cacheTimestamp s) (isDirty s) (saveDebounceTimer s) (loadPromise s)
          (now s) (nextId s) (pendingWrites s) (c :: ioLog s).

Definition setPhase (ph : LoadPhase) (t : LoadTask) : LoadTask :=
  mkLoadTask (lid t) (timestamp t) (fallback t) ph.

(** *** FileSystemStore.writeJson

    With [createBackup = false] the method runs synchronously up to
    [adapter.write(path, JSON.stringify(data, null, 2))]; the caller is
    resumed when that write completes. *)
Definition writeJson (k : WriteKind) (data : T) (s : Store) : Store * nat :=
  let id := nextId s in
  (mkStore (cache s) (cacheTimestamp s) (isDirty s) (saveDebounceTimer s) (loadPromise s)
           (now s) (S id) (mkWriteTask id k :: pendingWrites s)
           (AdapterWrite filePath (JSON_stringify data) :: ioLog s),
   id).

(** The call [this.performLoad(now)] made by [load]: [getDefaultValue()] is
    evaluated, [readJson] runs up to [await adapter.exists(path)], and the
    pending promise is stored in [this.loadPromise]. *)
Definition startLoad (s : Store) : Store * Reply :=
  let p := mkLoadTask (nextId s) (now s) getDefaultValue AwaitExists in
  (mkStore (cache s) (cacheTimestamp s) (isDirty s) (saveDebounceTimer s) (Some p)
           (now s) (S (nextId s)) (pendingWrites s)
           (AdapterExists filePath :: ioLog s),
   RLoadPromise (nextId s)).

(** *** SingleFileStore.load, up to its first suspension *)
Definition load (s : Store) : Store * Reply :=
  match loadPromise s with
  | Some p => (s, RLoadPromise (lid p))
  | None =>
    match cache s with
    | Some c =>
      if now s - cacheTimestamp s <? CACHE_TTL_MS then (s, RValue c)
      else startLoad s
    | None => startLoad s
    end
  end.

(** *** SingleFileStore.performLoad, after [readJson] has produced [data] *)
Definition performLoad_resume (p : LoadTask) (data : T) (s : Store) : Store :=
  if validate data then
    setLoadPromise (Some (setPhase (Settled (Resolved data)) p))
                   (setCache (Some data) (timestamp p) s)
  else
    setLoadPromise (Some (setPhase (Settled (Resolved getDefaultValue)) p)) s.

(** The [catch] of [readJson]. *)
Definition readJson_failed (p : LoadTask) (s : Store) : Store :=
  setLoadPromise
    (Some (setPhase
             (Settled (Rejected (mkStorageError ("Failed to read file " ++ filePath) filePath)))
             p))
    s.

(** [readJson] resumed with the answer of [adapter.exists]
    ([None]: the adapter call rejected).  When [readJson] returns or
    throws, [performLoad] continues in the same step: only promise
    hand-over lies between them.  The last hand-over, from [performLoad] to
    the [finally] of [load], is an event of its own ([loadSettles]), since
    [load] can be called while the slot still holds the settled promise. *)
Definition existsResolves (r : option bool) (s : Store) : Store :=
  match loadPromise s with
  | Some p =>
    match phase p with
    | AwaitExists =>
      match r with
      | Some true =>
        logCall (AdapterRead filePath) (setLoadPromise (Some (setPhase AwaitRead p)) s)
      | Some false => performLoad_resume p (fallback p) s
      | None => readJson_failed p s
      end
    | _ => s
    end
  | None => s
  end.

(** [readJson] resumed with the answer of [adapter.read]. *)
Definition readResolves (r : option string) (s : Store) : Store :=
  match loadPromise s with
  | Some p =>
    match phase p with
    | AwaitRead =>
      match r with
      | Some content => performLoad_resume p (safeJsonParse content (fallback p)) s
      | None => readJson_failed p s
      end
    | _ => s
    end
  | None => s
  end.

(** [load] resumed after [await this.loadPromise]: the [finally] block. *)
Definition loadSettles (s : Store) : Store * Reply :=
  match loadPromise s with
  | Some p =>
    match phase p with
    | Settled r => (setLoadPromise None s, RLoadSettled (lid p) r)
    | _ => (s, RNone)
    end
  | None => (s, RNone)
  end.

(** *** SingleFileStore.flush, up to its suspension *)
Definition flush (s : Store) : Store * Reply :=
  let s1 := setTimer None s in
  match isDirty s1, cache s1 with
  | true, Some c =>
    let (s2, id) := writeJson FromFlush c s1 in (s2, RWritePromise id)
  | _, _ => (s1, RDone)
  end.

(** *** SingleFileStore.scheduleDebouncedSave *)
Definition scheduleDebouncedSave (s : Store) : Store :=
  setTimer (Some (now s + SAVE_DEBOUNCE_MS)) s.

(** The callback handed to [setTimeout], up to its suspension. *)
Definition timerCallback (s : Store) : Store :=
  let s1 := setTimer None s in
  match isDirty s1, cache s1 with
  | true, Some c => fst (writeJson FromTimer c s1)
  | _, _ => s1
  end.

(** *** SingleFileStore.save, up to its suspension *)
Definition save (data : T) (immediate : bool) (s : Store) : Store * Reply :=
  if negb (validate data) then
    (s, RThrows (mkStorageError "Data validation failed" filePath))
  else
    let s1 := setDirty true (setCache (Some data) (now s) s) in
    if immediate then flush s1
    else (scheduleDebouncedSave s1, RDone).

(** *** SingleFileStore.invalidateCache, hasPendingChanges *)
Definition invalidateCache (s : Store) : Store := setCache None 0 s.

Definition hasPendingChanges (s : Store) : bool := isDirty s.

(** *** Completion of an [adapter.write] *)

Fixpoint findWrite (id : nat) (l : list WriteTask) : option WriteTask :=
  match l with
  | [] => None
  | w :: l' => if Nat.eqb (wid w) id then Some w else findWrite id l'
  end.

Fixpoint removeWrite (id : nat) (l : list WriteTask) : list WriteTask :=
  match l with
  | [] => []
  | w :: l' => if Nat.eqb (wid w) id then l' else w :: removeWrite id l'
  end.

Definition setPendingWrites (l : list WriteTask) (s : Store) : Store :=
  mkStore (cache s) (cacheTimestamp s) (isDirty s) (saveDebounceTimer s) (loadPromise s)
          (now s) (nextId s) l (ioLog s).

(** The continuation of [flush] and of the timer callback after
    [await this.writeJson(...)]: on success both clear [isDirty]; on
    failure [writeJson] throws a [StorageError], which [flush] lets
    through and the callback swallows. *)
Definition writeResolves (id : nat) (ok : bool) (s : Store) : Store * Reply :=
  match findWrite id (pendingWrites s) with
  | Some w =>
    let s1 := setPendingWrites (removeWrite id (pendingWrites s)) s in
    if ok then (setDirty false s1, RWriteSettled id (Resolved tt))
    else
      match kind w with
      | FromFlush =>
        (s1, RWriteSettled id
               (Rejected (mkStorageError ("Failed to write file " ++ filePath) filePath)))
      | FromTimer => (s1, RNone)
      end
  | None => (s, RNone)
  end.

(** *** The clock

    Time passes by [dt]; a timeout whose deadline is reached runs its
    callback. *)
Definition advance (dt : Z) (s : Store) : Store :=
  let s1 := setNow (now s + dt) s in
  match saveDebounceTimer s1 with
  | Some deadline => if deadline <=? now s1 then timerCallback s1 else s1
  | None => s1
  end.

(** *** Events of the event loop *)
Inductive Event : Type :=
| CallLoad
| CallSave (data : T) (immediate : bool)
| CallFlush
| CallInvalidateCache
| CallHasPendingChanges
| ExistsResolves (r : option bool)
| ReadResolves (r : option string)
| LoadSettles
| WriteResolves (id : nat) (ok : bool)
| Advance (dt : Z).

Definition step (e : Event) (s : Store) : Store * Reply :=
  match e with
  | CallLoad => load s
  | CallSave data immediate => save data immediate s
  | CallFlush => flush s
  | CallInvalidateCache => (invalidateCache s, RDone)
  | CallHasPendingChanges => (s, RBool (hasPendingChanges s))
  | ExistsResolves r => (existsResolves r s, RNone)
  | ReadResolves r => (readResolves r s, RNone)
  | LoadSettles => loadSettles s
  | WriteResolves id ok => writeResolves id ok s
  | Advance dt => (advance dt s, RNone)
  end.

(** Running a schedule: the final store and the replies, in order. *)
Fixpoint run (es : list Event) (s : Store) : Store * list Reply :=
  match es with
  | [] => (s, [])
  | e :: es' =>
    let (s1, r) := step e s in
    let (s2, rs) := run es' s1 in
    (s2, r :: rs)
  end.

Definition exec (es : list Event) (s : Store) : Store := fst (run es s).
Definition replies (es : list Event) (s : Store) : list Reply := snd (run es s).

(** *** Reading the adapter log *)

Definition isRead (c : IoCall) : bool :=
  match c with AdapterRead _ => true | _ => false end.
Definition isExists (c : IoCall) : bool :=
  match c with AdapterExists _ => true | _ => false end.
Definition isWrite (c : IoCall) : bool :=
  match c with AdapterWrite _ _ => true | _ => false end.

Definition diskReads (s : Store) : nat := List.length (filter isRead (ioLog s)).
Definition existsChecks (s : Store) : nat := List.length (filter isExists (ioLog s)).
Definition diskWrites (s : Store) : list IoCall := filter isWrite (ioLog s).

(** Adapter reads the load in flight may still issue: one while readJson
    waits for [adapter.exists], none afterwards. *)
Definition readsAhead (p : LoadTask) : nat :=
  match phase p with
  | AwaitExists => 1%nat
  | _ => 0%nat
  end.

(** A burst of debounced saves: each payload is saved with
    [immediate = false] and followed by the time that passes before the
    next call. *)
Definition savesWithinWindow (xs : list (T * Z)) : list Event :=
  flat_map (fun xg => [CallSave (fst xg) false; Advance (snd xg)]) xs.

End Model.

Arguments initial {T} t0.
Arguments AwaitExists {T}.
Arguments AwaitRead {T}.
Arguments RNone {T}.
Arguments RDone {T}.
Arguments CallLoad {T}.
Arguments CallFlush {T}.
Arguments CallInvalidateCache {T}.
Arguments CallHasPendingChanges {T}.
Arguments LoadSettles {T}.
Arguments ExistsResolves {T} r.
Arguments ReadResolves {T} r.
Arguments WriteResolves {T} id ok.
Arguments Advance {T} dt.
Arguments RLoadPromise {T} id.
Arguments RThrows {T} e.
Arguments RWritePromise {T} id.
Arguments RWriteSettled {T} id r.
Arguments RBool {T} b.
Unset Implicit Arguments.
End Store.

(** ** JSON documents *)

Module Json.

(** The double quote character; string literals below never contain it. *)
Definition dquote : ascii := ascii_of_nat 34.

(** Values produced by [JSON.parse].  An object is the list of its
    properties in the order in which the runtime enumerates them, which
    [JSON.stringify] and the spread syntax observe: see [set] and [ordered].
    Numbers are integers here: nothing below computes with them beyond a
    comparison with zero. *)
#[local] Unset Elimination Schemes.
Inductive json : Type :=
| JNull
| JBool (b : bool)
| JNum (n : Z)
| JStr (s : string)
| JArr (items : list json)
| JObj (fields : list (string * json)).
#[local] Set Elimination Schemes.

Definition Fields : Type := list (string * json).

(** [typeof]. *)
Inductive TypeOf : Type := TUndefined | TObject | TBoolean | TNumber | TString.

(** [typeof v], where [None] is [undefined]. *)
Definition typeOf (v : option json) : TypeOf :=
  match v with
  | None => TUndefined
  | Some JNull => TObject
  | Some (JBool _) => TBoolean
  | Some (JNum _) => TNumber
  | Some (JStr _) => TString
  | Some (JArr _) => TObject
  | Some (JObj _) => TObject
  end.

Definition isType (t : TypeOf) (v : option json) : bool :=
  match t, typeOf v with
  | TUndefined, TUndefined => true
  | TObject, TObject => true
  | TBoolean, TBoolean => true
  | TNumber, TNumber => true
  | TString, TString => true
  | _, _ => false
  end.

(** Truthiness of a value, where [None] is [undefined]. *)
Definition truthy (v : option json) : bool :=
  match v with
  | None => false
  | Some JNull => false
  | Some (JBool b) => b
  | Some (JNum n) => negb (n =? 0)
  | Some (JStr s) => negb (String.eqb s EmptyString)
  | Some (JArr _) => true
  | Some (JObj _) => true
  end.

(** Property lookup in an object: the first binding of the key. *)
Fixpoint get (k : string) (o : Fields) : option json :=
  match o with
  | [] => None
  | (k', v) :: o' => if String.eqb k' k then Some v else get k o'
  end.

(** The key is bound in the object. *)
Definition hasKey (k : string) (o : Fields) : bool :=
  match get k o with
  | Some _ => true
  | None => false
  end.

(** The array index a key denotes, if any: the keys that are the decimal
    numeral, without sign or leading zero, of an integer below 2^32 - 1
    ("0", "7", "42", but not "07", "-1" or "1.5").  The runtime lists the
    properties of an object with these keys first, in ascending numeric
    order, and the other keys after them in the order of their creation:
    this is the order [JSON.stringify], [Object.keys] and the spread syntax
    observe. *)
Definition arrayIndex (k : string) : option N :=
  match DecimalString.NilEmpty.uint_of_string k with
  | Some d =>
    let n := N.of_uint d in
    if String.eqb (DecimalString.NilZero.string_of_uint (N.to_uint n)) k
       && (n <? 4294967295)%N
    then Some n
    else None
  | None => None
  end.

Definition isName (k : string) : bool :=
  match arrayIndex k with
  | Some _ => false
  | None => true
  end.

(** Assignment among the keys kept in creation order: an existing key keeps
    its position, a new key is appended. *)
Fixpoint put (k : string) (v : json) (o : Fields) : Fields :=
  match o with
  | [] => [(k, v)]
  | (k', v') :: o' =>
    if String.eqb k' k then (k, v) :: o' else (k', v') :: put k v o'
  end.

(** Creation of a property whose key is the array index [n]: it goes after
    the smaller indices and before everything else. *)
Fixpoint insertIndex (n : N) (k : string) (v : json) (o : Fields) : Fields :=
  match o with
  | [] => [(k, v)]
  | (k', v') :: o' =>
    match arrayIndex k' with
    | Some n' =>
      if (n' <? n)%N then (k', v') :: insertIndex n k v o' else (k, v) :: o
    | None => (k, v) :: o
    end
  end.

(** Property assignment [o[k] = v], also the step of an object literal and
    of a spread: an existing key keeps its position; a new key that is an
    array index takes its place among the indices; any other new key is
    appended. *)
Definition set (k : string) (v : json) (o : Fields) : Fields :=
  match arrayIndex k with
  | Some n => if hasKey k o then put k v o else insertIndex n k v o
  | None => put k v o
  end.

(** No key is an array index. *)
Definition namesOnly (o : Fields) : bool :=
  forallb (fun kv => isName (fst kv)) o.

(** The array indices from [b] upwards in ascending order, then keys that
    are no array index. *)
Fixpoint orderedFrom (b : N) (o : Fields) : bool :=
  match o with
  | [] => true
  | (k, _) :: o' =>
    match arrayIndex k with
    | Some n => (b <=? n)%N && orderedFrom (N.succ n) o'
    | None => namesOnly o'
    end
  end.

(** Every key is an array index below [b]. *)
Definition indicesBelow (b : N) (o : Fields) : bool :=
  forallb (fun kv => match arrayIndex (fst kv) with
                     | Some n => (n <? b)%N
                     | None => false
                     end) o.

(** The property order of every object of the runtime: array indices
    first and ascending, then the other keys. *)
Definition ordered (o : Fields) : bool := orderedFrom 0 o.

(** The properties whose key is an array index, and the others. *)
Definition indexPart (o : Fields) : Fields :=
  filter (fun kv => negb (isName (fst kv))) o.

Definition namedPart (o : Fields) : Fields :=
  filter (fun kv => isName (fst kv)) o.

Definition indexKey (i : nat) : string :=
  DecimalString.NilZero.string_of_uint (Nat.to_uint i).

Fixpoint indexed (i : nat) (l : list json) : Fields :=
  match l with
  | [] => []
  | x :: l' => (indexKey i, x) :: indexed (S i) l'
  end.

Fixpoint chars (i : nat) (s : string) : Fields :=
  match s with
  | EmptyString => []
  | String c s' => (indexKey i, JStr (String c EmptyString)) :: chars (S i) s'
  end.

(** The own enumerable properties copied by [...v]: the fields of an
    object, the elements of an array, the characters of a string, and
    nothing for [undefined], [null], booleans and numbers. *)
Definition ownProps (v : option json) : Fields :=
  match v with
  | Some (JObj o) => o
  | Some (JArr l) => indexed 0 l
  | Some (JStr s) => chars 0 s
  | _ => []
  end.

(** [{ ...base, ...v }] continued from the properties already written:
    the own properties of [v] are assigned one by one, in the order in
    which [v] lists them, so an array index that [v] brings ends up among
    the indices of the result and not after the keys of [base]. *)
Definition spread (base : Fields) (v : option json) : Fields :=
  fold_left (fun o kv => set (fst kv) (snd kv) o) (ownProps v) base.

(** [v.k] for a key that is neither an index nor [length]; [None] is
    [undefined].  Reading a property of [null] throws and is handled by the
    callers. *)
Definition field (k : string) (v : json) : option json :=
  match v with
  | JObj o => get k o
  | _ => None
  end.

(** No key is bound twice, as in every object built by the runtime. *)
Fixpoint uniqueKeys (o : Fields) : bool :=
  match o with
  | [] => true
  | (k, _) :: o' => negb (hasKey k o') && uniqueKeys o'
  end.

(** The keys of [d], in order, are the first keys of [o]. *)
Fixpoint keysPrefix (d o : Fields) : bool :=
  match d, o with
  | [], _ => true
  | _ :: _, [] => false
  | (k, _) :: d', (k', _) :: o' => String.eqb k k' && keysPrefix d' o'
  end.

(** *** JSON.stringify *)

Fixpoint join (sep : string) (l : list string) : string :=
  match l with
  | [] => EmptyString
  | [x] => x
  | x :: l' => x ++ sep ++ join sep l'
  end.

Definition backslash : ascii := ascii_of_nat 92.

Definition hexDigit (n : nat) : ascii :=
  ascii_of_nat (if Nat.ltb n 10 then 48 + n else 87 + n).

(** The escape of one character inside a JSON string: the quote, the
    backslash and the control characters are escaped. *)
Definition escapeChar (c : ascii) : string :=
  let n := nat_of_ascii c in
  if Ascii.eqb c dquote then String backslash (String dquote EmptyString)
  else if Ascii.eqb c backslash then String backslash (String backslash EmptyString)
  else if Nat.eqb n 8 then String backslash "b"
  else if Nat.eqb n 9 then String backslash "t"
  else if Nat.eqb n 10 then String backslash "n"
  else if Nat.eqb n 12 then String backslash "f"
  else if Nat.eqb n 13 then String backslash "r"
  else if Nat.ltb n 32 then
    String backslash
      ("u00" ++ String (hexDigit (Nat.div n 16)) (String (hexDigit (Nat.modulo n 16)) EmptyString))
  else String c EmptyString.

Fixpoint escape (s : string) : string :=
  match s with
  | EmptyString => EmptyString
  | String c s' => escapeChar c ++ escape s'
  end.

Definition quote (s : string) : string :=
  String dquote (escape s ++ String dquote EmptyString).

Definition numberToString (n : Z) : string :=
  DecimalString.NilZero.string_of_int (Z.to_int n).

(** [JSON.stringify(v)]. *)
Fixpoint stringify (v : json) : string :=
  match v with
  | JNull => "null"
  | JBool true => "true"
  | JBool false => "false"
  | JNum n => numberToString n
  | JStr s => quote s
  | JArr l => "[" ++ join "," (map stringify l) ++ "]"
  | JObj o =>
    "{" ++ join "," (map (fun kv => quote (fst kv) ++ ":" ++ stringify (snd kv)) o) ++ "}"
  end.

Definition newline : string := String (ascii_of_nat 10) EmptyString.

(** [JSON.stringify(v, null, 2)], the text at nesting depth [ind]. *)
Fixpoint stringifyIndented (ind : string) (v : json) : string :=
  match v with
  | JArr [] => "[]"
  | JArr l =>
    "[" ++ newline
        ++ join ("," ++ newline)
             (map (fun x => ind ++ "  " ++ stringifyIndented (ind ++ "  ") x) l)
        ++ newline ++ ind ++ "]"
  | JObj [] => "{}"
  | JObj o =>
    "{" ++ newline
        ++ join ("," ++ newline)
             (map (fun kv => ind ++ "  " ++ quote (fst kv) ++ ": "
                                 ++ stringifyIndented (ind ++ "  ") (snd kv)) o)
        ++ newline ++ ind ++ "}"
  | _ => stringify v
  end.

Definition stringifyPretty (v : json) : string := stringifyIndented EmptyString v.

End Json.

(** ** SettingsStore *)

Module Settings.
Import Json.

Definition dpsKey : string := "defaultPlaybackSettings".

(** [v.k] where [v] may be [undefined]. *)
Definition fieldOf (k : string) (v : option json) : option json :=
  match v with
  | Some j => field k j
  | None => None
  end.

(** [v < 0] for a value already known to be a number. *)
Definition negative (v : option json) : bool :=
  match v with
  | Some (JNum n) => n <? 0
  | _ => false
  end.

(** SettingsStore.validate. *)
Definition validate (data : json) : bool :=
  if negb (truthy (Some data)) || negb (isType TObject (Some data)) then false
  else if negb (isType TString (field "dataFolderPath" data)) then false
  else if negb (truthy (field dpsKey data)) || negb (isType TObject (field dpsKey data))
  then false
  else
    let playbackSettings := field dpsKey data in
    if negb (isType TNumber (fieldOf "volume" playbackSettings))
       || negb (isType TNumber (fieldOf "playbackSpeed" playbackSettings))
       || negb (isType TNumber (fieldOf "skipIntroSeconds" playbackSettings))
    then false
    else if negb (isType TBoolean (field "autoDownload" data)) then false
    else if negb (isType TBoolean (field "enableNotifications" data)) then false
    else if negb (isType TNumber (field "maxCacheEpisodes" data))
            || negative (field "maxCacheEpisodes" data)
    then false
    else if negb (isType TNumber (field "feedUpdateInterval" data))
            || negative (field "feedUpdateInterval" data)
    then false
    else true.

(** The checks of [validate] on an object whose playback settings are an
    object. *)
Definition fieldChecks (fs p : Fields) : bool :=
  isType TString (get "dataFolderPath" fs)
  && (isType TNumber (get "volume" p)
      && isType TNumber (get "playbackSpeed" p)
      && isType TNumber (get "skipIntroSeconds" p))
  && isType TBoolean (get "autoDownload" fs)
  && isType TBoolean (get "enableNotifications" fs)
  && (isType TNumber (get "maxCacheEpisodes" fs)
      && negb (negative (get "maxCacheEpisodes" fs)))
  && (isType TNumber (get "feedUpdateInterval" fs)
      && negb (negative (get "feedUpdateInterval" fs))).

(** What [loadWithMigration] can fail with: the TypeError of reading a
    property of [null], or the StorageError of [save]. *)
Inductive MigrationError : Type :=
| TypeError
| Storage (e : StorageError).

Section Migration.

(** [DEFAULT_SETTINGS] comes from the model module, whose source is
    missing; it is a parameter here. *)
Variable DEFAULT_SETTINGS : json.

(** [pathManager.getFilePath('root', 'settings.json')]. *)
Variable filePath : string.

(** SettingsStore.getDefaultValue: [{ ...DEFAULT_SETTINGS }]. *)
Definition getDefaultValue : json := JObj (spread [] (Some DEFAULT_SETTINGS)).

(** The object literal built by [loadWithMigration]:
    [{ ...this.getDefaultValue(), ...settings,
       defaultPlaybackSettings: { ...DEFAULT_SETTINGS.defaultPlaybackSettings,
                                  ...settings.defaultPlaybackSettings } }]. *)
Definition migrate (settings : json) : Outcome MigrationError json :=
  match settings with
  | JNull => Rejected TypeError
  | _ =>
    let top := spread (spread [] (Some getDefaultValue)) (Some settings) in
    let playback :=
      JObj (spread (spread [] (field dpsKey DEFAULT_SETTINGS)) (field dpsKey settings)) in
    Resolved (JObj (set dpsKey playback top))
  end.

(** SettingsStore.loadWithMigration, resumed after [await this.load()] has
    produced [settings]; the save is the debounced one. *)
Definition loadWithMigration_resume (settings : json) (st : Store.Store json)
  : Store.Store json * Outcome MigrationError json :=
  match migrate settings with
  | Rejected e => (st, Rejected e)
  | Resolved migratedSettings =>
    if negb (String.eqb (stringify settings) (stringify migratedSettings)) then
      match Store.save validate stringifyPretty filePath migratedSettings false st with
      | (st', Store.RThrows e) => (st', Rejected (Storage e))
      | (st', _) => (st', Resolved migratedSettings)
      end
    else (st, Resolved migratedSettings)
  end.

(** Every property of [keys] is defined on [v]. *)
Definition definesAll (keys : Fields) (v : option json) : bool :=
  forallb (fun kv => match get (fst kv) (ownProps v) with
                     | Some _ => true
                     | None => false
                     end) keys.

(** The settings have every top-level field of the defaults and every
    field of the default playback settings. *)
Definition hasAllFields (settings : json) : bool :=
  definesAll (ownProps (Some DEFAULT_SETTINGS)) (Some settings)
  && definesAll (ownProps (field dpsKey DEFAULT_SETTINGS)) (field dpsKey settings).

(** An object of the runtime, at the top level and in the playback
    settings: no key is bound twice and the keys are in the order in which
    the runtime lists them. *)
Definition wellFormed (v : json) : bool :=
  (uniqueKeys (ownProps (Some v)) && ordered (ownProps (Some v)))
  && (uniqueKeys (ownProps (field dpsKey v)) && ordered (ownProps (field dpsKey v))).

(** No field of the value is named by an array index, at the top level and
    in the playback settings: so it is for the defaults, whose keys are
    the field names of the settings interface. *)
Definition plainKeys (v : json) : bool :=
  namesOnly (ownProps (Some v)) && namesOnly (ownProps (field dpsKey v)).

(** Among the keys that are no array index, the settings list the fields
    of the defaults first and in the order of the defaults, at the top
    level and in the playback settings; further fields may follow, and keys
    that are array indices come first in any object. *)
Definition inDefaultOrder (settings : json) : bool :=
  keysPrefix (ownProps (Some DEFAULT_SETTINGS)) (namedPart (ownProps (Some settings)))
  && keysPrefix (ownProps (field dpsKey DEFAULT_SETTINGS))
                (namedPart (ownProps (field dpsKey settings))).

End Migration.

(** Modelled from the spec: the default settings, with the fields of
    PluginSettings in the order of the data model and the default values
    the tests observe. *)
Definition DEFAULT_SETTINGS : json :=
  JObj [("dataFolderPath", JStr ".obsidian/plugins/podcast-player/data");
        (dpsKey, JObj [("volume", JNum 1);
                       ("playbackSpeed", JNum 1);
                       ("skipIntroSeconds", JNum 0);
                       ("skipOutroSeconds", JNum 0)]);
        ("autoDownload", JBool false);
        ("maxCacheEpisodes", JNum 50);
        ("feedUpdateInterval", JNum 3600000);
        ("enableNotifications", JBool true)].

End Settings.

(** ** FeedService *)

Module Feed.

(** *** Strings

    Strings are sequences of 8-bit characters; case folding and trimming
    act on the ASCII range, which contains every character of the markers
    searched for below. *)

Definition isWhitespace (c : ascii) : bool :=
  let n := nat_of_ascii c in
  (Nat.leb 9 n && Nat.leb n 13) || Nat.eqb n 32.

Fixpoint trimStart (s : string) : string :=
  match s with
  | EmptyString => EmptyString
  | String c s' => if isWhitespace c then trimStart s' else s
  end.

Fixpoint trimEnd (s : string) : string :=
  match s with
  | EmptyString => EmptyString
  | String c s' =>
    match trimEnd s' with
    | EmptyString => if isWhitespace c then EmptyString else String c EmptyString
    | t => String c t
    end
  end.

(** [s.trim()]. *)
Definition trim (s : string) : string := trimEnd (trimStart s).

Definition lowerChar (c : ascii) : ascii :=
  let n := nat_of_ascii c in
  if Nat.leb 65 n && Nat.leb n 90 then ascii_of_nat (n + 32) else c.

(** [s.toLowerCase()]. *)
Fixpoint toLowerCase (s : string) : string :=
  match s with
  | EmptyString => EmptyString
  | String c s' => String (lowerChar c) (toLowerCase s')
  end.

(** [hay.includes(needle)]. *)
Fixpoint includes (needle hay : string) : bool :=
  if String.prefix needle hay then true
  else
    match hay with
    | EmptyString => false
    | String _ hay' => includes needle hay'
    end.

(** *** Feed type detection *)

Inductive FeedType : Type := RSS | ATOM | UNKNOWN.

(** The attribute text the Atom test looks for, in lower case:
    xmlns= followed by the quoted namespace URI. *)
Definition atomNamespaceAttribute : string :=
  "xmlns=" ++ String Json.dquote ("http://www.w3.org/2005/atom" ++ String Json.dquote EmptyString).

Section Detection.

(** [RSSParser.validateXML] and [AtomParser.validateXML]; the source of
    the parsers is missing, so they are parameters. *)
Variable RSSParser_validateXML : string -> bool.
Variable AtomParser_validateXML : string -> bool.

(** FeedService.detectFeedType. *)
Definition detectFeedType (xml : string) : FeedType :=
  let trimmed := toLowerCase (trim xml) in
  if includes "<rss" trimmed then RSS
  else if includes "<feed" trimmed && includes atomNamespaceAttribute trimmed then ATOM
  else if RSSParser_validateXML xml then RSS
  else if AtomParser_validateXML xml then ATOM
  else UNKNOWN.

(** What substring sniffing alone says, and what schema validation alone
    says. *)
Definition sniffsRss (xml : string) : bool :=
  includes "<rss" (toLowerCase (trim xml)).

Definition sniffsAtom (xml : string) : bool :=
  includes "<feed" (toLowerCase (trim xml))
  && includes atomNamespaceAttribute (toLowerCase (trim xml)).

Definition typeByValidation (xml : string) : FeedType :=
  if RSSParser_validateXML xml then RSS
  else if AtomParser_validateXML xml then ATOM
  else UNKNOWN.

End Detection.

(** *** Errors and responses *)

(** Values that can be thrown: [new Error(message)],
    [new NetworkError(message, url, cause)] (a subclass of Error), and
    anything that is not an instance of Error. *)
#[local] Unset Elimination Schemes.
Inductive JsError : Type :=
| Error (message : string)
| NetworkError (message : string) (url : string) (cause : option JsError)
| NonError (what : string).
#[local] Set Elimination Schemes.

Definition instanceofError (e : JsError) : bool :=
  match e with
  | NonError _ => false
  | _ => true
  end.

Definition messageOf (e : JsError) : string :=
  match e with
  | Error m => m
  | NetworkError m _ _ => m
  | NonError _ => EmptyString
  end.

(** The response of [requestUrl] and of the node request: status, body and
    the two headers read from it. *)
Record Response : Type := mkResponse {
  status : Z;
  text : string;
  etagHeader : option string;
  lastModifiedHeader : option string
}.

(** The response of [fetch]: [ok], status, the outcome of [text()], and the
    results of [headers.get]. *)
Record FetchResponse : Type := mkFetchResponse {
  fetchOk : bool;
  fetchStatus : Z;
  fetchText : Outcome JsError string;
  fetchEtag : option string;
  fetchLastModified : option string
}.

(** The node request ends with a response whose [statusCode] may be
    missing, or fails (an [error] event, or the URL constructor throwing). *)
Record NodeResponse : Type := mkNodeResponse {
  statusCode : option Z;
  nodeData : string;
  nodeEtag : option string;
  nodeLastModified : option string
}.

(** What the three transports answer: [requestUrl] once per attempt. *)
Record Network : Type := mkNetwork {
  requestUrl : nat -> Outcome JsError Response;
  fetch : Outcome JsError FetchResponse;
  httpsRequest : Outcome JsError NodeResponse
}.

(** Requests that left the process. *)
Inductive NetCall : Type :=
| ViaRequestUrl (url : string) (headers : list (string * string))
| ViaFetch (url : string)
| ViaHttps (url : string) (userAgent : string).

Definition isTier1 (c : NetCall) : bool :=
  match c with
  | ViaRequestUrl _ _ => true
  | _ => false
  end.

Record FeedXml : Type := mkFeedXml {
  xml : string;
  responseEtag : option string;
  responseLastModified : option string
}.

(** Truthiness of an optional string argument. *)
Definition nonEmpty (s : option string) : bool :=
  match s with
  | Some t => negb (String.eqb t EmptyString)
  | None => false
  end.

(** [h || undefined]. *)
Definition orUndefined (h : option string) : option string :=
  if nonEmpty h then h else None.

Definition defaultUserAgent : string :=
  "Mozilla/5.0 (Windows NT 10.0; Win64; x64) AppleWebKit/537.36 (KHTML, like Gecko) Chrome/120.0.0.0 Safari/537.36".

(** The headers of the tier-1 request. *)
Definition requestHeaders (userAgent : string) (etag lastModified : option string)
  : list (string * string) :=
  ([("Accept", "application/rss+xml, application/atom+xml, application/xml, text/xml");
    ("Accept-Language", "en-US,en;q=0.9")]
   ++ (if negb (String.eqb userAgent EmptyString) && negb (String.eqb userAgent defaultUserAgent)
       then [("User-Agent", userAgent)] else [])
   ++ (match etag with
       | Some e => if nonEmpty etag then [("If-None-Match", e)] else []
       | None => []
       end)
   ++ (match lastModified with
       | Some m => if nonEmpty lastModified then [("If-Modified-Since", m)] else []
       | None => []
       end))%list.

Definition NOT_MODIFIED : string := "NOT_MODIFIED".

(** The function handed to [retryWithBackoff]: one [requestUrl] call and the
    inspection of its status. *)
Definition requestOnce (feedUrl : string) (answer : Outcome JsError Response)
  : Outcome JsError Response :=
  match answer with
  | Rejected e => Rejected e
  | Resolved response =>
    if status response =? 304 then Rejected (Error NOT_MODIFIED)
    else if 400 <=? status response then
      Rejected (NetworkError ("HTTP " ++ Json.numberToString (status response)
                                      ++ ": Failed to fetch feed") feedUrl None)
    else Resolved response
  end.

(** Modelled from the spec: the loop of [retryWithBackoff] of
    utils/errorUtils, whose source is missing.  Attempts are sequential; the
    first success is returned; when the last attempt fails, its error is
    thrown.  The result comes with the number of attempts made. *)
Fixpoint retryFrom (E A : Type) (remaining : nat) (i : nat)
  (attempt : nat -> Outcome E A) : Outcome E A * nat :=
  match attempt i with
  | Resolved v => (Resolved v, S i)
  | Rejected e =>
    match remaining with
    | O => (Rejected e, S i)
    | S r => retryFrom E A r (S i) attempt
    end
  end.

(** Modelled from the spec: [retryWithBackoff(fn, { maxRetries })] makes
    [maxRetries] attempts at most (3 attempts for the feed request). *)
Definition retryWithBackoff (E A : Type) (maxRetries : nat)
  (attempt : nat -> Outcome E A) : Outcome E A * nat :=
  retryFrom E A (Nat.pred maxRetries) 0 attempt.

(** The fetch fallback. *)
Definition viaFetch (answer : Outcome JsError FetchResponse) : Outcome JsError FeedXml :=
  match answer with
  | Rejected e => Rejected e
  | Resolved fetchResponse =>
    if negb (fetchOk fetchResponse) then
      Rejected (Error ("Fetch returned status " ++ Json.numberToString (fetchStatus fetchResponse)))
    else
      match fetchText fetchResponse with
      | Rejected e => Rejected e
      | Resolved body =>
        Resolved (mkFeedXml body (orUndefined (fetchEtag fetchResponse))
                            (orUndefined (fetchLastModified fetchResponse)))
      end
  end.

(** The node https fallback. *)
Definition viaHttps (answer : Outcome JsError NodeResponse) : Outcome JsError FeedXml :=
  match answer with
  | Rejected e => Rejected e
  | Resolved res =>
    match statusCode res with
    | Some code =>
      if negb (code =? 0) && (200 <=? code) && (code <? 300) then
        Resolved (mkFeedXml (nodeData res) (nodeEtag res) (nodeLastModified res))
      else
        Rejected (Error ("HTTPS Node request returned status " ++ Json.numberToString code))
    | None => Rejected (Error "HTTPS Node request returned status undefined")
    end
  end.

(** FeedService.fetchFeedXML: the outcome and the requests made, in order. *)
Definition fetchFeedXML (net : Network) (feedUrl : string) (timeout : Z)
  (userAgent : string) (etag lastModified : option string)
  : Outcome JsError FeedXml * list NetCall :=
  let headers := requestHeaders userAgent etag lastModified in
  let (first, attempts) :=
    retryWithBackoff JsError Response 3 (fun i => requestOnce feedUrl (requestUrl net i)) in
  let log1 := repeat (ViaRequestUrl feedUrl headers) attempts in
  match first with
  | Resolved response =>
    (Resolved (mkFeedXml (text response) (etagHeader response) (lastModifiedHeader response)),
     log1)
  | Rejected error =>
    if instanceofError error && String.eqb (messageOf error) NOT_MODIFIED then
      (Rejected error, log1)
    else
      let log2 := (log1 ++ [ViaFetch feedUrl])%list in
      match viaFetch (fetch net) with
      | Resolved r => (Resolved r, log2)
      | Rejected fetchErr =>
        let log3 :=
          (log2 ++ [ViaHttps feedUrl
                      (if String.eqb userAgent EmptyString then "Obsidian/1.0.0"
                       else userAgent)])%list in
        match viaHttps (httpsRequest net) with
        | Resolved r => (Resolved r, log3)
        | Rejected nodeErr =>
          (Rejected (NetworkError "Failed to fetch feed" feedUrl (Some nodeErr)), log3)
        end
      end
  end.

(** *** The feed cache *)

Record FeedCacheEntry : Type := mkFeedCacheEntry {
  data : string;
  cachedAt : Z;
  ttl : Z;
  etag : option string;
  lastModified : option string
}.

(** Modelled from the spec: FeedCacheStore of storage/CacheStore, whose
    source is missing.  Entries are keyed by URL; a read of a missing or
    expired entry is a miss. *)
Definition FeedCacheStore : Type := list (string * FeedCacheEntry).

(** Modelled from the spec: an entry expires when now > cachedAt + ttl. *)
Definition isExpired (now : Z) (e : FeedCacheEntry) : bool :=
  cachedAt e + ttl e <? now.

(** Modelled from the spec: the entry stored under a URL. *)
Fixpoint lookupEntry (url : string) (cs : FeedCacheStore) : option FeedCacheEntry :=
  match cs with
  | [] => None
  | (u, e) :: cs' => if String.eqb u url then Some e else lookupEntry url cs'
  end.

(** Modelled from the spec: [getCacheEntry(url)] answers the entry when
    there is one and it has not expired, and [null] otherwise. *)
Definition getCacheEntry (cs : FeedCacheStore) (now : Z) (url : string)
  : option FeedCacheEntry :=
  match lookupEntry url cs with
  | Some e => if isExpired now e then None else Some e
  | None => None
  end.

(** Modelled from the spec: [setCacheEntry(url, xml, ttl, metadata)] stores
    the text with the current time, the time to live and the metadata. *)
Definition setCacheEntry (cs : FeedCacheStore) (now : Z) (url : string) (body : string)
  (ttlMs : Z) (newEtag newLastModified : option string) : FeedCacheStore :=
  (url, mkFeedCacheEntry body now ttlMs newEtag newLastModified) :: cs.

(** Modelled from the spec: what a call of [setCacheEntry] does.  The
    store writes to the disk, so the call either stores the entry or
    throws; when it throws, the store is left in a state of its own
    choosing, [after]. *)
Inductive CacheWrite : Type :=
| Stored
| WriteThrows (e : JsError) (after : FeedCacheStore).

(** FeedService.cacheFeed: nothing without a cache store; otherwise
    [setCacheEntry], whose exception the [catch] logs and swallows. *)
Definition cacheFeed (cacheStore : option FeedCacheStore) (write : CacheWrite) (now : Z)
  (feedUrl body : string) (ttlMs : Z) (newEtag newLastModified : option string)
  : option FeedCacheStore :=
  match cacheStore with
  | None => None
  | Some cs =>
    match write with
    | Stored => Some (setCacheEntry cs now feedUrl body ttlMs newEtag newLastModified)
    | WriteThrows _ after => Some after
    end
  end.

(** *** fetchFeed *)

Record FeedFetchOptions : Type := mkOptions {
  useCache : option bool;
  cacheTTL : option Z;
  timeout : option Z;
  userAgent : option string;
  optEtag : option string;
  optLastModified : option string
}.

Definition orDefault (A : Type) (o : option A) (d : A) : A :=
  match o with
  | Some v => v
  | None => d
  end.

Section Service.

Variable RSSParser_validateXML : string -> bool.
Variable AtomParser_validateXML : string -> bool.

(** The result type [{ podcast, episodes }] and the two
    [parseFromString(xml, feedUrl)] methods, which may throw. *)
Variable Parsed : Type.
Variable rssParser_parseFromString : string -> string -> Outcome JsError Parsed.
Variable atomParser_parseFromString : string -> string -> Outcome JsError Parsed.

(** FeedService.getCachedFeed; exceptions of the parsers end in the
    [catch], which answers [null]. *)
Definition getCachedFeed (cacheStore : option FeedCacheStore) (now : Z) (feedUrl : string)
  : option Parsed :=
  match cacheStore with
  | None => None
  | Some cs =>
    match getCacheEntry cs now feedUrl with
    | None => None
    | Some cachedEntry =>
      match detectFeedType RSSParser_validateXML AtomParser_validateXML (data cachedEntry) with
      | RSS =>
        match rssParser_parseFromString (data cachedEntry) feedUrl with
        | Resolved r => Some r
        | Rejected _ => None
        end
      | ATOM =>
        match atomParser_parseFromString (data cachedEntry) feedUrl with
        | Resolved r => Some r
        | Rejected _ => None
        end
      | UNKNOWN => None
      end
    end
  end.

(** The parser chosen by the detected type of a document; with an unknown
    type RSS is tried first and Atom after it. *)
Definition parseDetected (body feedUrl : string) : Outcome JsError Parsed :=
  match detectFeedType RSSParser_validateXML AtomParser_validateXML body with
  | RSS => rssParser_parseFromString body feedUrl
  | ATOM => atomParser_parseFromString body feedUrl
  | UNKNOWN =>
    match rssParser_parseFromString body feedUrl with
    | Resolved r => Resolved r
    | Rejected _ => atomParser_parseFromString body feedUrl
    end
  end.

(** What [fetchFeed] leaves behind: its outcome, the requests made and the
    cache store. *)
Record FetchResult : Type := mkFetchResult {
  outcome : Outcome JsError Parsed;
  requests : list NetCall;
  cacheAfter : option FeedCacheStore
}.

(** FeedService.fetchFeed; [write] is what the cache store does if
    [cacheFeed] comes to call it. *)
Definition fetchFeed (cacheStore : option FeedCacheStore) (write : CacheWrite)
  (net : Network) (now : Z) (feedUrl : string) (options : FeedFetchOptions) : FetchResult :=
  let useCache' := orDefault bool (useCache options) true in
  let cacheTTL' := orDefault Z (cacheTTL options) 3600000 in
  let timeout' := orDefault Z (timeout options) 30000 in
  let userAgent' := orDefault string (userAgent options) defaultUserAgent in
  let cachedData :=
    match cacheStore with
    | Some _ => if useCache' then getCachedFeed cacheStore now feedUrl else None
    | None => None
    end in
  match cachedData with
  | Some cached => mkFetchResult (Resolved cached) [] cacheStore
  | None =>
    match fetchFeedXML net feedUrl timeout' userAgent'
                       (optEtag options) (optLastModified options) with
    | (Rejected e, log) => mkFetchResult (Rejected e) log cacheStore
    | (Resolved fx, log) =>
      match parseDetected (xml fx) feedUrl with
      | Rejected e => mkFetchResult (Rejected e) log cacheStore
      | Resolved result =>
        mkFetchResult (Resolved result) log
          (cacheFeed cacheStore write now feedUrl (xml fx) cacheTTL'
                     (responseEtag fx) (responseLastModified fx))
      end
    end
  end.

End Service.

End Feed.

(** ** Concrete instances used by the examples *)

Module Examples.
Import Json.

(** *** A settings store *)

Definition settingsPath : string := ".obsidian/plugins/podcast-player/data/settings.json".

Definition defaults : json := Settings.getDefaultValue Settings.DEFAULT_SETTINGS.

(** Settings with every field of the defaults, written in another order. *)
Definition reorderedSettings : json :=
  JObj [("autoDownload", JBool true);
        ("dataFolderPath", JStr "custom/path");
        (Settings.dpsKey, JObj [("volume", JNum 1);
                                ("playbackSpeed", JNum 2);
                                ("skipIntroSeconds", JNum 10);
                                ("skipOutroSeconds", JNum 5)]);
        ("maxCacheEpisodes", JNum 50);
        ("feedUpdateInterval", JNum 60);
        ("enableNotifications", JBool true)].

(** Settings written before skipOutroSeconds existed. *)
Definition partialSettings : json :=
  JObj [("dataFolderPath", JStr "custom/path");
        (Settings.dpsKey, JObj [("volume", JNum 1);
                                ("playbackSpeed", JNum 1);
                                ("skipIntroSeconds", JNum 0)]);
        ("autoDownload", JBool false);
        ("maxCacheEpisodes", JNum 50);
        ("feedUpdateInterval", JNum 60);
        ("enableNotifications", JBool true)].

(** Settings in the order of the defaults, with one field the defaults do
    not know. *)
Definition customSettings : json :=
  JObj [("dataFolderPath", JStr "custom/path");
        (Settings.dpsKey, JObj [("volume", JNum 1);
                                ("playbackSpeed", JNum 2);
                                ("skipIntroSeconds", JNum 10);
                                ("skipOutroSeconds", JNum 5)]);
        ("autoDownload", JBool true);
        ("maxCacheEpisodes", JNum 50);
        ("feedUpdateInterval", JNum 60);
        ("enableNotifications", JBool true);
        ("theme", JStr "dark")].

(** Settings of the right shape that [validate] refuses: the cache size is
    negative. *)
Definition refusedSettings : json :=
  JObj [("dataFolderPath", JStr "custom/path");
        (Settings.dpsKey, JObj [("volume", JNum 1);
                                ("playbackSpeed", JNum 2);
                                ("skipIntroSeconds", JNum 10);
                                ("skipOutroSeconds", JNum 5)]);
        ("autoDownload", JBool true);
        ("maxCacheEpisodes", JNum (-1));
        ("feedUpdateInterval", JNum 60);
        ("enableNotifications", JBool true)].

(** Settings in the order of the defaults that carry a property named by
    an array index, which the runtime lists first. *)
Definition numberedSettings : json :=
  JObj [("7", JStr "seven");
        ("dataFolderPath", JStr "custom/path");
        (Settings.dpsKey, JObj [("volume", JNum 1);
                                ("playbackSpeed", JNum 2);
                                ("skipIntroSeconds", JNum 10);
                                ("skipOutroSeconds", JNum 5)]);
        ("autoDownload", JBool true);
        ("maxCacheEpisodes", JNum 50);
        ("feedUpdateInterval", JNum 60);
        ("enableNotifications", JBool true)].

(** [JSON.parse] on the files of the examples: a document is recognised by
    its pretty-printed text, anything else does not parse. *)
Fixpoint parseKnown (docs : list json) (content : string) : option json :=
  match docs with
  | [] => None
  | d :: docs' =>
    if String.eqb (stringifyPretty d) content then Some d else parseKnown docs' content
  end.

Definition parse : string -> option json :=
  parseKnown [defaults; reorderedSettings; partialSettings; customSettings; JNull].

Definition SettingsStore : Type := Store.Store json.
Definition SettingsEvent : Type := Store.Event json.

Definition run (es : list SettingsEvent) (s : SettingsStore) : SettingsStore :=
  Store.exec Settings.validate defaults parse stringifyPretty settingsPath es s.

Definition answers (es : list SettingsEvent) (s : SettingsStore) : list (Store.Reply json) :=
  Store.replies Settings.validate defaults parse stringifyPretty settingsPath es s.

(** A store that has not loaded anything yet, and the same store with a
    load in flight. *)
Definition idle : SettingsStore := Store.initial 5000.

Definition loading : SettingsStore := run [Store.CallLoad] idle.

(** *** Feeds *)

Definition feedUrl : string := "https://example.com/feed.rss".

(** Stand-ins for the schema checks of the two parsers: the root element
    of the document is rss, respectively feed. *)
Definition validateRss (xml : string) : bool :=
  String.prefix "<rss" (Feed.trimStart xml).

Definition validateAtom (xml : string) : bool :=
  String.prefix "<feed" (Feed.trimStart xml).

(** Stand-ins for the parsers: the result names the format, and a document
    without the element that holds the items is rejected. *)
Definition parseRss (xml url : string) : Outcome Feed.JsError string :=
  if Feed.includes "<channel" xml then Resolved "rss feed"
  else Rejected (Feed.Error "Invalid RSS feed").

Definition parseAtom (xml url : string) : Outcome Feed.JsError string :=
  if Feed.includes "<entry" xml then Resolved "atom feed"
  else Rejected (Feed.Error "Invalid Atom feed").

(** An Atom document whose text quotes an rss tag inside CDATA. *)
Definition atomQuotingRss : string :=
  "<feed xmlns=" ++ String dquote ("http://www.w3.org/2005/Atom" ++ String dquote
    "><title>Show</title><entry><content><![CDATA[An <rss> tag]]></content></entry></feed>").

(** A plain RSS document. *)
Definition rssDocument : string :=
  "<rss version='2.0'><channel><title>Test Podcast</title></channel></rss>".

(** A channel without the rss element around it: neither marker occurs
    and neither schema check accepts it, yet the RSS parser reads it. *)
Definition bareChannel : string :=
  "<channel><title>Test Podcast</title></channel>".

Definition detect : string -> Feed.FeedType := Feed.detectFeedType validateRss validateAtom.

(** A machine without any connectivity. *)
Definition offline : Feed.Network :=
  Feed.mkNetwork (fun _ => Rejected (Feed.Error "net::ERR_INTERNET_DISCONNECTED"))
                 (Rejected (Feed.Error "Failed to fetch"))
                 (Rejected (Feed.Error "getaddrinfo ENOTFOUND example.com")).

(** A server that answers 304 to the conditional request, and would serve
    the document to the other two transports. *)
Definition unchanged : Feed.Network :=
  Feed.mkNetwork (fun _ => Resolved (Feed.mkResponse 304 EmptyString None None))
                 (Resolved (Feed.mkFetchResponse true 200 (Resolved rssDocument) None None))
                 (Resolved (Feed.mkNodeResponse (Some 200) rssDocument None None)).

(** A connection that breaks after the first answer: the server answers
    304 to the first conditional request, the two retries fail, and so do
    the other two transports. *)
Definition interrupted : Feed.Network :=
  Feed.mkNetwork
    (fun i => match i with
              | O => Resolved (Feed.mkResponse 304 EmptyString None None)
              | _ => Rejected (Feed.Error "net::ERR_CONNECTION_RESET")
              end)
    (Rejected (Feed.Error "Failed to fetch"))
    (Rejected (Feed.Error "getaddrinfo ENOTFOUND example.com")).

Definition noOptions : Feed.FeedFetchOptions :=
  Feed.mkOptions None None None None None None.

(** A cache holding one entry per document, written at time 1000 with the
    default time to live. *)
Definition cacheOf (body : string) : Feed.FeedCacheStore :=
  [(feedUrl, Feed.mkFeedCacheEntry body 1000 3600000 None None)].

(** [fetchFeed] on the feed of the examples, with a cache store whose
    writes succeed. *)
Definition fetchFeed (cs : option Feed.FeedCacheStore) (net : Feed.Network) (now : Z)
  (options : Feed.FeedFetchOptions) : Feed.FetchResult string :=
  Feed.fetchFeed validateRss validateAtom string parseRss parseAtom cs Feed.Stored net now
    feedUrl options.

End Examples.

(** ** SingleFileStore: clear and delete *)

Module StoreOps.
Section Ops.

Variable T : Type.
Variable validate : T -> bool.
Variable getDefaultValue : T.
Variable JSON_stringify : T -> string.
Variable filePath : string.

(** SingleFileStore.clear, with nothing else running in between:
    [save(defaultValue, true)] up to the adapter write, the completion of
    that write ([ok]: whether the adapter accepted it), and then
    [invalidateCache()], which is reached only when the save did not
    throw. *)
Definition clear (ok : bool) (s : Store.Store T)
  : Store.Store T * Outcome StorageError unit :=
  match Store.save validate JSON_stringify filePath getDefaultValue true s with
  | (s1, Store.RThrows e) => (s1, Rejected e)
  | (s1, Store.RWritePromise id) =>
    match Store.writeResolves filePath id ok s1 with
    | (s2, Store.RWriteSettled _ (Rejected e)) => (s2, Rejected e)
    | (s2, _) => (Store.invalidateCache s2, Resolved tt)
    end
  | (s1, _) => (Store.invalidateCache s1, Resolved tt)
  end.

(** What a caller observes of the steps of [delete]. *)
Inductive DeleteReply : Type :=
| DeleteAwaitsRemove                 (* deleteFile: await adapter.remove(path) *)
| DeleteDone
| DeleteThrows (e : StorageError).

(** SingleFileStore.delete, up to its first suspension: the pending timer
    is cancelled, the dirty flag is cleared and [fileExists] calls
    [adapter.exists]. *)
Definition delete (s : Store.Store T) : Store.Store T :=
  Store.logCall (Store.AdapterExists filePath)
                (Store.setDirty false (Store.setTimer None s)).

(** [delete] resumed with the answer of [adapter.exists]; [fileExists]
    turns a rejection ([None]) into [false]. *)
Definition delete_existsResolves (r : option bool) (s : Store.Store T)
  : Store.Store T * DeleteReply :=
  match r with
  | Some true => (s, DeleteAwaitsRemove)
  | _ => (Store.invalidateCache s, DeleteDone)
  end.

(** [delete] resumed with the completion of [adapter.remove]: a rejection
    becomes the StorageError of [deleteFile] and the cache is kept. *)
Definition delete_removeResolves (ok : bool) (s : Store.Store T)
  : Store.Store T * DeleteReply :=
  if ok then (Store.invalidateCache s, DeleteDone)
  else (s, DeleteThrows (mkStorageError ("Failed to delete file " ++ filePath) filePath)).

(** The cache holds validated data only, a settled load carries validated
    data or the default value, and every write in the adapter log carries
    the serialization of validated data. *)
Definition validWrite (c : Store.IoCall) : Prop :=
  match c with
  | Store.AdapterWrite p content =>
    p = filePath /\ exists x, validate x = true /\ content = JSON_stringify x
  | _ => True
  end.

Definition validOutcome (r : Outcome StorageError T) : Prop :=
  match r with
  | Resolved v => validate v = true \/ v = getDefaultValue
  | Rejected _ => True
  end.

Definition validReply (r : Store.Reply T) : Prop :=
  match r with
  | Store.RValue v => validate v = true
  | Store.RLoadSettled _ o => validOutcome o
  | _ => True
  end.

Definition onlyValidData (s : Store.Store T) : Prop :=
  match Store.cache s with
  | Some c => validate c = true
  | None => True
  end /\
  match Store.loadPromise s with
  | Some p =>
    match Store.phase p with
    | Store.Settled o => validOutcome o
    | _ => True
    end
  | None => True
  end /\
  Forall validWrite (Store.ioLog s).

(** The event is not a call of [save]. *)
Definition notSave (e : Store.Event T) : bool :=
  match e with
  | Store.CallSave _ _ => false
  | _ => true
  end.

End Ops.
End StoreOps.

(** ** SingleFileStore: every operation, and what has reached the disk *)

Module Durability.
Section Track.

Variable T : Type.
Variable validate : T -> bool.
Variable getDefaultValue : T.
Variable JSON_parse : string -> option T.
Variable JSON_stringify : T -> string.
Variable filePath : string.

(** Every operation on a store: the events of [load], [save], [flush],
    [invalidateCache] and [hasPendingChanges] with their completions, and
    [delete] with its two suspensions ([clear] is a [save] followed by
    [invalidateCache]). *)
Inductive Op : Type :=
| Base (e : Store.Event T)
| CallDelete
| DeleteExistsResolves (r : option bool)
| DeleteRemoveResolves (ok : bool).

(** The store and, around it, the calls of [delete] that are suspended,
    the adapter writes in flight with the text each one carries, and what
    has reached the disk: the text carried by the last adapter write that
    completed successfully, and nothing once [delete] has removed the
    file. *)
Record World : Type := mkWorld {
  store : Store.Store T;
  awaitingExists : nat;
  awaitingRemove : nat;
  inFlight : list (nat * string);
  written : option string
}.

Definition fresh (t0 : Z) : World := mkWorld (Store.initial t0) 0 0 [] None.

(** The adapter write a step has issued, if any: [writeJson] takes the
    next identifier and logs the call. *)
Definition issued (s s' : Store.Store T) : option (nat * string) :=
  if Nat.eqb (Store.nextId s') (S (Store.nextId s)) then
    match Store.ioLog s' with
    | Store.AdapterWrite _ content :: _ => Some (Store.nextId s, content)
    | _ => None
    end
  else None.

(** The text the write in flight number [id] carries. *)
Fixpoint contentOf (id : nat) (l : list (nat * string)) : option string :=
  match l with
  | [] => None
  | (i, c) :: l' => if Nat.eqb i id then Some c else contentOf id l'
  end.

(** The writes in flight once number [id] has completed. *)
Fixpoint forget (id : nat) (l : list (nat * string)) : list (nat * string) :=
  match l with
  | [] => []
  | (i, c) :: l' => if Nat.eqb i id then l' else (i, c) :: forget id l'
  end.

(** One event of the store, observed: the store takes its step; a write
    that is issued joins the writes in flight, a write that completes
    leaves them, and when it completes successfully its text is what has
    reached the disk. *)
Definition stepBase (e : Store.Event T) (w : World) : World :=
  let s' := fst (Store.step validate getDefaultValue JSON_parse JSON_stringify filePath
                            e (store w)) in
  let flying :=
    match issued (store w) s' with
    | Some iw => iw :: inFlight w
    | None => inFlight w
    end in
  match e with
  | Store.WriteResolves id ok =>
    match contentOf id flying with
    | Some c =>
      mkWorld s' (awaitingExists w) (awaitingRemove w) (forget id flying)
              (if ok then Some c else written w)
    | None => mkWorld s' (awaitingExists w) (awaitingRemove w) flying (written w)
    end
  | _ => mkWorld s' (awaitingExists w) (awaitingRemove w) flying (written w)
  end.

(** One operation.  [delete] runs up to [await this.fileExists(...)];
    the answer of [adapter.exists] resumes one suspended call, which goes
    on to [deleteFile] or finishes with [invalidateCache]; the completion
    of [adapter.remove] resumes a call suspended there.  An answer nobody
    waits for changes nothing. *)
Definition stepOp (o : Op) (w : World) : World :=
  match o with
  | Base e => stepBase e w
  | CallDelete =>
    mkWorld (StoreOps.delete T filePath (store w)) (S (awaitingExists w)) (awaitingRemove w)
            (inFlight w) (written w)
  | DeleteExistsResolves r =>
    match awaitingExists w with
    | O => w
    | S n =>
      match StoreOps.delete_existsResolves T r (store w) with
      | (s', StoreOps.DeleteAwaitsRemove) =>
        mkWorld s' n (S (awaitingRemove w)) (inFlight w) (written w)
      | (s', _) => mkWorld s' n (awaitingRemove w) (inFlight w) (written w)
      end
    end
  | DeleteRemoveResolves ok =>
    match awaitingRemove w with
    | O => w
    | S n =>
      mkWorld (fst (StoreOps.delete_removeResolves T filePath ok (store w)))
              (awaitingExists w) n (inFlight w) (if ok then None else written w)
    end
  end.

(** Running a schedule of operations. *)
Fixpoint runOps (ops : list Op) (w : World) : World :=
  match ops with
  | [] => w
  | o :: ops' => runOps ops' (stepOp o w)
  end.

(** The operation leaves a save in peace: it is not [delete], it is not
    the answer of the adapter to a load while the dirty flag is set, and
    it is not a [save] made while an adapter write is still in flight. *)
Definition undisturbing (o : Op) (w : World) : bool :=
  match o with
  | Base (Store.CallSave _ _) =>
    match Store.pendingWrites (store w) with
    | [] => true
    | _ :: _ => false
    end
  | Base (Store.ExistsResolves _) => negb (Store.isDirty (store w))
  | Base (Store.ReadResolves _) => negb (Store.isDirty (store w))
  | Base _ => true
  | CallDelete => false
  | DeleteExistsResolves _ => true
  | DeleteRemoveResolves _ => true
  end.

(** Every operation of the schedule leaves a save in peace, in the world
    in which it takes place. *)
Fixpoint undisturbed (ops : list Op) (w : World) : bool :=
  match ops with
  | [] => true
  | o :: ops' => undisturbing o w && undisturbed ops' (stepOp o w)
  end.

(** The data last saved, after one more operation: a [save] that passes
    [validate] replaces it, one that throws does not. *)
Definition noteSave (saved : option T) (o : Op) : option T :=
  match o with
  | Base (Store.CallSave x _) => if validate x then Some x else saved
  | _ => saved
  end.

(** The data of the last [save] of a schedule that did not throw. *)
Definition lastSaved (ops : list Op) : option T := fold_left noteSave ops None.

(** What holds of a world while saves are left in peace, [saved] being the
    data last saved: no [delete] is suspended; the writes in flight are
    those the store waits for, and each carries the text of the data last
    saved; while the dirty flag is set the cache holds that data, unless
    it was invalidated; and when the flag is clear, the text of that data
    has reached the disk. *)
Definition settled (saved : option T) (w : World) : Prop :=
  awaitingExists w = 0%nat /\ awaitingRemove w = 0%nat /\
  map fst (inFlight w) = map (@Store.wid) (Store.pendingWrites (store w)) /\
  (forall id c, In (id, c) (inFlight w) ->
     exists x, saved = Some x /\ c = JSON_stringify x) /\
  (Store.isDirty (store w) = true ->
   Store.cache (store w) = None \/ Store.cache (store w) = saved) /\
  (Store.isDirty (store w) = false ->
   forall x, saved = Some x -> written w = Some (JSON_stringify x)).

End Track.

Arguments Base {T} e.
Arguments CallDelete {T}.
Arguments DeleteExistsResolves {T} r.
Arguments DeleteRemoveResolves {T} ok.
Arguments mkWorld {T} store awaitingExists awaitingRemove inFlight written.
Arguments store {T} w.
Arguments awaitingExists {T} w.
Arguments awaitingRemove {T} w.
Arguments inFlight {T} w.
Arguments written {T} w.
Arguments fresh {T} t0.
Arguments issued {T} s s'.
Arguments undisturbing {T} o w.

End Durability.

(** ** FileSystemStore and MultiFileStore, one call at a time *)

Module Files.

(** *** Strings *)

(** [s.split(sep)] for a separator of one character: never empty. *)
Fixpoint split (sep : ascii) (s : string) : list string :=
  match s with
  | EmptyString => [EmptyString]
  | String c s' =>
    if Ascii.eqb c sep then EmptyString :: split sep s'
    else
      match split sep s' with
      | h :: t => String c h :: t
      | [] => [String c EmptyString]
      end
  end.

(** [s.endsWith(suffix)]. *)
Fixpoint endsWith (suffix s : string) : bool :=
  if String.eqb s suffix then true
  else
    match s with
    | EmptyString => false
    | String _ s' => endsWith suffix s'
    end.

Fixpoint drop (n : nat) (s : string) : string :=
  match n, s with
  | O, _ => s
  | S n', String _ s' => drop n' s'
  | S _, EmptyString => EmptyString
  end.

(** [s.replace(needle, replacement)] for a non-empty string pattern: the
    first occurrence only. *)
Fixpoint replaceFirst (needle replacement s : string) : string :=
  if String.prefix needle s then replacement ++ drop (String.length needle) s
  else
    match s with
    | EmptyString => EmptyString
    | String c s' => String c (replaceFirst needle replacement s')
    end.

Definition slash : ascii := ascii_of_nat 47.

(** *** The adapter

    What [vault.adapter] answers for a path: [exists] ([None] when the call
    rejects), whether [remove] succeeds, and the files [list] reports
    ([None] when the call rejects). *)
Record Adapter : Type := mkAdapter {
  existsAt : string -> option bool;
  removeAt : string -> bool;
  listAt : string -> option (list string)
}.

Inductive AdapterCall : Type :=
| Exists (path : string)
| Remove (path : string)
| List (path : string).

(** FileSystemStore.fileExists: a failure is logged and answered [false]. *)
Definition fileExists (a : Adapter) (path : string) : bool * list AdapterCall :=
  (match existsAt a path with
   | Some b => b
   | None => false
   end, [Exists path]).

(** FileSystemStore.deleteFile. *)
Definition deleteFile (a : Adapter) (path : string)
  : Outcome StorageError unit * list AdapterCall :=
  (if removeAt a path then Resolved tt
   else Rejected (mkStorageError ("Failed to delete file " ++ path) path),
   [Remove path]).

(** FileSystemStore.listFiles. *)
Definition listFiles (a : Adapter) (dirPath : string)
  : Outcome StorageError (list string) * list AdapterCall :=
  match existsAt a dirPath with
  | None =>
    (Rejected (mkStorageError ("Failed to list files in " ++ dirPath) dirPath),
     [Exists dirPath])
  | Some false => (Resolved [], [Exists dirPath])
  | Some true =>
    match listAt a dirPath with
    | Some files => (Resolved files, [Exists dirPath; List dirPath])
    | None =>
      (Rejected (mkStorageError ("Failed to list files in " ++ dirPath) dirPath),
       [Exists dirPath; List dirPath])
    end
  end.

Section MultiFileStore.

(** [this.dirPath], and [normalizePath] of the host. *)
Variable dirPath : string.
Variable normalizePath : string -> string.

(** MultiFileStore.getItemFilePath. *)
Definition getItemFilePath (id : string) : string :=
  normalizePath (dirPath ++ "/" ++ id ++ ".json").

(** The identifier [listItemIds] derives from a file:
    [(f.split('/').pop() || '').replace('.json', '')]. *)
Definition itemIdOf (f : string) : string :=
  replaceFirst ".json" EmptyString (List.last (split slash f) EmptyString).

(** MultiFileStore.listItemIds. *)
Definition listItemIds (a : Adapter)
  : Outcome StorageError (list string) * list AdapterCall :=
  match listFiles a dirPath with
  | (Resolved files, calls) =>
    (Resolved (map itemIdOf (filter (endsWith ".json") files)), calls)
  | (Rejected e, calls) => (Rejected e, calls)
  end.

(** MultiFileStore.deleteItem. *)
Definition deleteItem (a : Adapter) (id : string)
  : Outcome StorageError unit * list AdapterCall :=
  let filePath := getItemFilePath id in
  let (present, calls) := fileExists a filePath in
  if present then
    let (r, calls') := deleteFile a filePath in (r, (calls ++ calls')%list)
  else (Resolved tt, calls).

(** The loop of [clear]: the files are deleted in order and the first
    failure ends the loop. *)
Fixpoint deleteAll (a : Adapter) (files : list string)
  : Outcome StorageError unit * list AdapterCall :=
  match files with
  | [] => (Resolved tt, [])
  | f :: files' =>
    match deleteFile a f with
    | (Resolved _, calls) =>
      let (r, calls') := deleteAll a files' in (r, (calls ++ calls')%list)
    | (Rejected e, calls) => (Rejected e, calls)
    end
  end.

(** MultiFileStore.clear. *)
Definition clear (a : Adapter) : Outcome StorageError unit * list AdapterCall :=
  match listFiles a dirPath with
  | (Resolved files, calls) =>
    let (r, calls') := deleteAll a files in (r, (calls ++ calls')%list)
  | (Rejected e, calls) => (Rejected e, calls)
  end.

(** An identifier that survives the trip through a file name: no slash and
    no occurrence of the extension inside it. *)
Definition plainId (id : string) : bool :=
  negb (Feed.includes "/" id) && negb (Feed.includes ".json" id).

End MultiFileStore.

End Files.

(** ** The host's path normalisation, as the tests provide it *)

Module Obsidian.

(** [path.replace(/\\/g, '/')]. *)
Fixpoint replaceBackslashes (path : string) : string :=
  match path with
  | EmptyString => EmptyString
  | String c s' =>
    String (if Ascii.eqb c Json.backslash then Files.slash else c) (replaceBackslashes s')
  end.

(** [path.replace(/\/+/g, '/')]: every run of slashes becomes one slash. *)
Fixpoint collapseSlashes (path : string) : string :=
  match path with
  | EmptyString => EmptyString
  | String c s' =>
    if Ascii.eqb c Files.slash then
      match collapseSlashes s' with
      | EmptyString => String c EmptyString
      | String c' r => if Ascii.eqb c' Files.slash then String c' r else String c (String c' r)
      end
    else String c (collapseSlashes s')
  end.

(** [normalizePath] of the mock of the host module. *)
Definition normalizePath (path : string) : string :=
  collapseSlashes (replaceBackslashes path).

End Obsidian.

(** ** SettingsStore: the update methods *)

Module SettingsOps.
Import Json.

Section Ops.

Variable filePath : string.

(** [normalizePath] of the host. *)
Variable normalizePath : string -> string.

(** SettingsStore.updateSetting, resumed after [await this.load()].

    [load] hands out the object held in [this.cache] itself, not a copy:
    from the cache, or after a read whose data passed [validate] and became
    the cache.  [fs] are the properties of the object received and [isCache]
    says whether it is the object [this.cache] holds at this point (it is
    not after a failed validation, which answers a fresh default value, or
    when the cache was replaced in between).  The assignment
    [settings[key] = value] changes that object in place, an existing
    property keeping its position and a new one coming last, so through
    [this.cache] the store holds the new value before [save] has validated
    anything. *)
Definition updateSetting_resume (key : string) (value : json) (fs : Fields) (isCache : bool)
  (st : Store.Store json) : Store.Store json * Store.Reply json :=
  let settings := JObj (set key value fs) in
  let st1 := if isCache then Store.setCache (Some settings) (Store.cacheTimestamp st) st
             else st in
  Store.save Settings.validate stringifyPretty filePath settings false st1.

(** SettingsStore.updateDataFolderPath. *)
Definition updateDataFolderPath_resume (path : string) :=
  updateSetting_resume "dataFolderPath" (JStr (normalizePath path)).

(** SettingsStore.updateAutoDownload. *)
Definition updateAutoDownload_resume (enabled : bool) :=
  updateSetting_resume "autoDownload" (JBool enabled).

(** SettingsStore.updateMaxCacheEpisodes: [Math.max(0, count)]. *)
Definition updateMaxCacheEpisodes_resume (count : Z) :=
  updateSetting_resume "maxCacheEpisodes" (JNum (Z.max 0 count)).

(** SettingsStore.updateFeedUpdateInterval: [Math.max(0, interval)]. *)
Definition updateFeedUpdateInterval_resume (interval : Z) :=
  updateSetting_resume "feedUpdateInterval" (JNum (Z.max 0 interval)).

(** SettingsStore.updateNotifications. *)
Definition updateNotifications_resume (enabled : bool) :=
  updateSetting_resume "enableNotifications" (JBool enabled).

(** The update went through: the call completed, the cache holds the
    settings with the new value, which are valid and differ from the old
    ones in that property only, and a debounced save is pending. *)
Definition accepted (key : string) (value : json) (fs : Fields) (st : Store.Store json)
  (r : Store.Store json * Store.Reply json) : Prop :=
  snd r = Store.RDone /\
  Store.cache (fst r) = Some (JObj (set key value fs)) /\
  Settings.validate (JObj (set key value fs)) = true /\
  get key (set key value fs) = Some value /\
  (forall k, k <> key -> get k (set key value fs) = get k fs) /\
  Store.hasPendingChanges (fst r) = true /\
  Store.saveDebounceTimer (fst r) = Some (Store.now st + Store.SAVE_DEBOUNCE_MS) /\
  Store.ioLog (fst r) = Store.ioLog st.

End Ops.

End SettingsOps.

(** ** FeedService.updateFeed *)

Module FeedUpdate.
Import Feed.

Section Update.

Variable RSSParser_validateXML : string -> bool.
Variable AtomParser_validateXML : string -> bool.

(** The types Podcast and Episode of the model module, seen through the
    fields [updateFeed] reads: [podcast.feedUrl], the optional
    [podcast.episodes], and [e.id]. *)
Variable Podcast : Type.
Variable Episode : Type.
Variable feedUrlOf : Podcast -> string.
Variable episodesOf : Podcast -> option (list Episode).
Variable idOf : Episode -> string.

(** [{ podcast, episodes }], the result of the parsers and of [fetchFeed]. *)
Record Parsed : Type := mkParsed {
  parsedPodcast : Podcast;
  parsedEpisodes : list Episode
}.

Variable rssParser_parseFromString : string -> string -> Outcome JsError Parsed.
Variable atomParser_parseFromString : string -> string -> Outcome JsError Parsed.

(** [{ podcast, episodes, newEpisodes }]. *)
Record FeedUpdate : Type := mkFeedUpdate {
  podcast : Podcast;
  episodes : list Episode;
  newEpisodes : list Episode
}.

(** [existingEpisodeIds.has(id)]. *)
Definition has (existingEpisodeIds : list string) (id : string) : bool :=
  existsb (String.eqb id) existingEpisodeIds.

(** [new Set(podcast.episodes?.map(e => e.id) || [])]. *)
Definition existingEpisodeIds (p : Podcast) : list string :=
  match episodesOf p with
  | Some es => map idOf es
  | None => []
  end.

(** The options [updateFeed] passes to [fetchFeed]: [{ useCache: false }]. *)
Definition freshFetch : FeedFetchOptions :=
  mkOptions (Some false) None None None None None.

(** FeedService.updateFeed: its outcome, the requests made and the cache
    store afterwards; [write] is what the cache store does if [cacheFeed]
    comes to call it. *)
Definition updateFeed (cacheStore : option FeedCacheStore) (write : CacheWrite)
  (net : Network) (now : Z) (p : Podcast)
  : Outcome JsError FeedUpdate * list NetCall * option FeedCacheStore :=
  let r := fetchFeed RSSParser_validateXML AtomParser_validateXML Parsed
             rssParser_parseFromString atomParser_parseFromString
             cacheStore write net now (feedUrlOf p) freshFetch in
  (match outcome Parsed r with
   | Rejected e => Rejected e
   | Resolved parsed =>
     Resolved
       (mkFeedUpdate (parsedPodcast parsed) (parsedEpisodes parsed)
          (filter (fun e => negb (has (existingEpisodeIds p) (idOf e)))
                  (parsedEpisodes parsed)))
   end,
   requests Parsed r,
   cacheAfter Parsed r).

End Update.

(** The request carries neither of the conditional headers. *)
Definition unconditional (c : NetCall) : bool :=
  match c with
  | ViaRequestUrl _ headers =>
    negb (existsb (fun h => String.eqb (fst h) "If-None-Match"
                            || String.eqb (fst h) "If-Modified-Since") headers)
  | _ => true
  end.

End FeedUpdate.

(** ** VirtualList

    Of the DOM the model keeps what the class itself keeps: the map
    [renderedElements], in insertion order.  The scroll position and the
    height of the scroll container are read from the DOM at each call and
    are arguments here; pixel quantities and the configuration are
    integers, and [itemHeight] is not zero. *)

Module VirtualList.
Section Component.

(** The type of the items. *)
Variable T : Type.

Record VirtualListState : Type := mkState {
  scrollTop : Z;
  viewportHeight : Z;
  startIndex : Z;
  endIndex : Z
}.

(** The fields of the class: the configuration ([items], [itemHeight],
    [overscan]; [getKey] is the default one, the index), the state, the
    rendered elements (with the default [getKey] the key of an element is
    the index it was rendered for; the item it shows is [items[i]], possibly
    [undefined]), the destroyed flag, and the calls of
    [onVisibleRangeChange], most recent first. *)
Record VirtualList : Type := mkVirtualList {
  items : list T;
  itemHeight : Z;
  overscan : Z;
  state : VirtualListState;
  renderedElements : list (Z * option T);
  isDestroyed : bool;
  rangeChanges : list (Z * Z)
}.

Definition length_ (vl : VirtualList) : Z := Z.of_nat (List.length (items vl)).

(** [items[i]]. *)
Definition itemAt (l : list T) (i : Z) : option T :=
  if i <? 0 then None else nth_error l (Z.to_nat i).

Fixpoint indicesFrom (i : Z) (n : nat) : list Z :=
  match n with
  | O => []
  | S n' => i :: indicesFrom (i + 1) n'
  end.

(** The indices visited by
    [for (let i = startIndex; i <= endIndex && i < items.length; i++)]. *)
Definition loopIndices (first last len : Z) : list Z :=
  indicesFrom first (Z.to_nat (Z.min last (len - 1) - first + 1)).

(** [renderedElements.has(key)]. *)
Definition hasKey (key : Z) (m : list (Z * option T)) : bool :=
  existsb (fun e => fst e =? key) m.

(** VirtualList.renderVisibleItems: elements outside the range are
    removed, elements already there are kept as they are, and the missing
    ones are rendered and added after them. *)
Definition renderVisibleItems (vl : VirtualList) : VirtualList :=
  let visited := loopIndices (startIndex (state vl)) (endIndex (state vl)) (length_ vl) in
  let elementsToInsert :=
    map (fun i => (i, itemAt (items vl) i))
        (filter (fun i => negb (hasKey i (renderedElements vl))) visited) in
  let remaining :=
    filter (fun e => existsb (Z.eqb (fst e)) visited) (renderedElements vl) in
  mkVirtualList (items vl) (itemHeight vl) (overscan vl) (state vl)
                (remaining ++ elementsToInsert)%list (isDestroyed vl) (rangeChanges vl).

(** The range [updateViewport] computes: [Math.floor(scrollTop / itemHeight)],
    [Math.ceil(viewportHeight / itemHeight)], and the clamped bounds. *)
Definition visibleStartIndex (top : Z) (vl : VirtualList) : Z := top / itemHeight vl.

Definition visibleCount (height : Z) (vl : VirtualList) : Z :=
  - ((- height) / itemHeight vl).

Definition computedStart (top : Z) (vl : VirtualList) : Z :=
  Z.max 0 (visibleStartIndex top vl - overscan vl).

Definition computedEnd (top height : Z) (vl : VirtualList) : Z :=
  Z.min (length_ vl - 1) (visibleStartIndex top vl + visibleCount height vl + overscan vl).

(** VirtualList.updateViewport, with the scroll position [top] and the
    height [height] of the scroll container. *)
Definition updateViewport (top height : Z) (vl : VirtualList) : VirtualList :=
  let startIndex' := computedStart top vl in
  let endIndex' := computedEnd top height vl in
  if negb (startIndex' =? startIndex (state vl)) || negb (endIndex' =? endIndex (state vl))
  then
    let vl1 :=
      renderVisibleItems
        (mkVirtualList (items vl) (itemHeight vl) (overscan vl)
                       (mkState top height startIndex' endIndex')
                       (renderedElements vl) (isDestroyed vl) (rangeChanges vl)) in
    mkVirtualList (items vl1) (itemHeight vl1) (overscan vl1) (state vl1)
                  (renderedElements vl1) (isDestroyed vl1)
                  ((startIndex', endIndex') :: rangeChanges vl1)
  else vl.

(** The constructor followed by [initialize]: the state starts at zero, no
    element is rendered, and [updateViewport] runs once. *)
Definition create (items0 : list T) (itemHeight0 overscan0 : Z) (top height : Z)
  : VirtualList :=
  updateViewport top height
    (mkVirtualList items0 itemHeight0 overscan0 (mkState 0 0 0 0) [] false []).

(** VirtualList.handleScroll. *)
Definition handleScroll (top height : Z) (vl : VirtualList) : VirtualList :=
  if isDestroyed vl then vl else updateViewport top height vl.

(** VirtualList.updateItems. *)
Definition updateItems (items' : list T) (top height : Z) (vl : VirtualList)
  : VirtualList :=
  if isDestroyed vl then vl
  else
    updateViewport top height
      (mkVirtualList items' (itemHeight vl) (overscan vl) (state vl) []
                     (isDestroyed vl) (rangeChanges vl)).

(** VirtualList.refresh. *)
Definition refresh (top height : Z) (vl : VirtualList) : VirtualList :=
  if isDestroyed vl then vl
  else
    updateViewport top height
      (mkVirtualList (items vl) (itemHeight vl) (overscan vl)
                     (mkState (scrollTop (state vl)) (viewportHeight (state vl))
                              (-1) (endIndex (state vl)))
                     [] (isDestroyed vl) (rangeChanges vl)).

(** VirtualList.getVisibleCount. *)
Definition getVisibleCount (vl : VirtualList) : Z :=
  endIndex (state vl) - startIndex (state vl) + 1.

(** VirtualList.scrollToIndex: the position handed to [scrollTo], if any. *)
Definition scrollToIndex (index : Z) (vl : VirtualList) : option Z :=
  if isDestroyed vl then None
  else Some (Z.max 0 (Z.min index (length_ vl - 1)) * itemHeight vl).

(** VirtualList.destroy. *)
Definition destroy (vl : VirtualList) : VirtualList :=
  mkVirtualList (items vl) (itemHeight vl) (overscan vl) (state vl) [] true (rangeChanges vl).

(** The indices that have an element. *)
Definition renderedIndices (vl : VirtualList) : list Z := map fst (renderedElements vl).

(** Item [i] occupies the pixels from [i * itemHeight] up to
    [(i + 1) * itemHeight]; it is in view when that interval meets the
    viewport, which starts at [top] and is [height] high. *)
Definition inView (top height : Z) (vl : VirtualList) (i : Z) : Prop :=
  0 <= i < length_ vl /\
  i * itemHeight vl < top + height /\
  top < (i + 1) * itemHeight vl.

End Component.
End VirtualList.

(** ** Time utilities

    Times are whole numbers of seconds or milliseconds; strings are
    sequences of characters below 256. *)

Module TimeUtils.

(** [String(n).padStart(width, fill)]. *)
Definition padStart (width : nat) (fill : ascii) (s : string) : string :=
  string_of_list_ascii (repeat fill (width - String.length s)) ++ s.

(** [Number.MAX_SAFE_INTEGER], 2^53 - 1.  The source computes with
    doubles.  On whole numbers up to this bound in absolute value its
    division followed by [Math.floor], its remainder, products and sums,
    [String] and [parseInt] are exact and are the integer operations used
    below; beyond the bound the source rounds, and the definitions of
    [formatTime] and [parseTimeString] do not describe it.  The round trip
    below is therefore stated up to this bound. *)
Definition MAX_SAFE_INTEGER : Z := 9007199254740991.

(** timeUtils.formatTime, for a whole number of seconds up to
    [MAX_SAFE_INTEGER] in absolute value. *)
Definition formatTime (seconds : Z) (alwaysShowHours : bool) : string :=
  if seconds <? 0 then "0:00"
  else
    let hours := seconds / 3600 in
    let minutes := (seconds mod 3600) / 60 in
    let secs := seconds mod 60 in
    let paddedMinutes :=
      if 0 <? hours then padStart 2 "0" (Json.numberToString minutes)
      else Json.numberToString minutes in
    let paddedSeconds := padStart 2 "0" (Json.numberToString secs) in
    if (0 <? hours) || alwaysShowHours
    then Json.numberToString hours ++ ":" ++ paddedMinutes ++ ":" ++ paddedSeconds
    else paddedMinutes ++ ":" ++ paddedSeconds.

(** timeUtils.formatTimestamp. *)
Definition formatTimestamp (seconds : Z) : string :=
  "[" ++ formatTime seconds false ++ "]".

(** The white space [parseInt] skips, among the characters below 256. *)
Definition isStrWhiteSpaceChar (c : ascii) : bool :=
  let n := nat_of_ascii c in
  (Nat.leb 9 n && Nat.leb n 13) || Nat.eqb n 32 || Nat.eqb n 160.

Fixpoint skipWhiteSpace (s : string) : string :=
  match s with
  | EmptyString => EmptyString
  | String c s' => if isStrWhiteSpaceChar c then skipWhiteSpace s' else s
  end.

Definition digitValue (c : ascii) : option Z :=
  let n := nat_of_ascii c in
  if Nat.leb 48 n && Nat.leb n 57 then Some (Z.of_nat n - 48) else None.

Definition isDigit (c : ascii) : bool :=
  match digitValue c with
  | Some _ => true
  | None => false
  end.

(** The string consists of decimal digits. *)
Fixpoint digits (s : string) : bool :=
  match s with
  | EmptyString => true
  | String c s' => isDigit c && digits s'
  end.

(** The longest prefix of decimal digits, read as a number; [None] (NaN)
    when there is no digit.  [seen] tells whether a digit was read. *)
Fixpoint parseDigits (acc : Z) (seen : bool) (s : string) : option Z :=
  match s with
  | EmptyString => if seen then Some acc else None
  | String c s' =>
    match digitValue c with
    | Some d => parseDigits (acc * 10 + d) true s'
    | None => if seen then Some acc else None
    end
  end.

(** [parseInt(s, 10)]: leading white space, an optional sign, then digits;
    whatever follows the digits is ignored.  [None] is NaN. *)
Definition parseInt10 (s : string) : option Z :=
  match skipWhiteSpace s with
  | String c r =>
    if Ascii.eqb c "-" then option_map Z.opp (parseDigits 0 false r)
    else if Ascii.eqb c "+" then parseDigits 0 false r
    else parseDigits 0 false (String c r)
  | EmptyString => None
  end.

(** timeUtils.parseTimeString; [None] is [null].  The numerals of the
    string and the result are taken to be at most [MAX_SAFE_INTEGER], where
    [parseInt] and the sum are exact. *)
Definition parseTimeString (timeString : string) : option Z :=
  let parts := map parseInt10 (Files.split ":" timeString) in
  if Nat.ltb (List.length parts) 2 || Nat.ltb 3 (List.length parts)
     || existsb (fun p => match p with None => true | Some _ => false end) parts
  then None
  else
    match parts with
    | [Some minutes; Some seconds] => Some (minutes * 60 + seconds)
    | [Some hours; Some minutes; Some seconds] =>
      Some (hours * 3600 + minutes * 60 + seconds)
    | _ => None
    end.

(** The phrase [`${n} ${unit}${n > 1 ? 's' : ''} ago`]. *)
Definition ago (n : Z) (unit : string) : string :=
  Json.numberToString n ++ " " ++ unit ++ (if 1 <? n then "s" else EmptyString) ++ " ago".

(** timeUtils.formatRelativeTime, with the current time [now] and the time
    of the date, both in milliseconds. *)
Definition formatRelativeTime (now date : Z) : string :=
  let diffMs := now - date in
  let diffSeconds := diffMs / 1000 in
  let diffMinutes := diffSeconds / 60 in
  let diffHours := diffMinutes / 60 in
  let diffDays := diffHours / 24 in
  let diffWeeks := diffDays / 7 in
  let diffMonths := diffDays / 30 in
  let diffYears := diffDays / 365 in
  if diffSeconds <? 60 then "just now"
  else if diffMinutes <? 60 then ago diffMinutes "minute"
  else if diffHours <? 24 then ago diffHours "hour"
  else if diffDays <? 7 then ago diffDays "day"
  else if diffWeeks <? 4 then ago diffWeeks "week"
  else if diffMonths <? 12 then ago diffMonths "month"
  else ago diffYears "year".

(** One day, in milliseconds. *)
Definition DAY_MS : Z := 86400000.

End TimeUtils.

(** ** Daily notes: inserting an entry under the header

    The same steps appear in DailyNoteService.insertAfterHeader and, inline,
    in AddNoteModal.  Strings are sequences of bytes. *)

Module DailyNote.

Definition newline : ascii := ascii_of_nat 10.

(** The line break, as a string. *)
Definition LF : string := String newline EmptyString.

(** The default header: two hashes, the headphone sign (four bytes) and
    the words Listening Log. *)
Definition DEFAULT_HEADER : string :=
  "## " ++ String (ascii_of_nat 240) (String (ascii_of_nat 159) (String (ascii_of_nat 142)
             (String (ascii_of_nat 167) " Listening Log"))).

(** [lines.findIndex(p)]; [None] is -1. *)
Fixpoint findIndex (p : string -> bool) (lines : list string) : option nat :=
  match lines with
  | [] => None
  | line :: lines' => if p line then Some 0%nat else option_map S (findIndex p lines')
  end.

Section Insert.

(** [String.prototype.trim]. *)
Variable trim : string -> string.

(** [(settings.dailyNoteHeader || DEFAULT_HEADER).trim()]. *)
Definition headerToFind (dailyNoteHeader : option string) : string :=
  trim (match dailyNoteHeader with
        | Some h => if String.eqb h EmptyString then DEFAULT_HEADER else h
        | None => DEFAULT_HEADER
        end).

(** [(settings.dailyNoteInsertPosition || 'bottom') === 'top']. *)
Definition insertsAtTop (dailyNoteInsertPosition : option string) : bool :=
  match dailyNoteInsertPosition with
  | Some p => String.eqb p "top"
  | None => false
  end.

(** DailyNoteService.insertAfterHeader. *)
Definition insertAfterHeader (dailyNoteHeader dailyNoteInsertPosition : option string)
  (content logEntry : string) : string :=
  let header := headerToFind dailyNoteHeader in
  if Feed.includes header content then
    let lines := Files.split newline content in
    match findIndex (fun line => String.eqb (trim line) header) lines with
    | Some headerIndex =>
      Json.join LF (firstn (S headerIndex) lines ++ [EmptyString; logEntry]
                    ++ skipn (S headerIndex) lines)%list
    | None => content ++ LF ++ LF ++ header ++ LF ++ LF ++ logEntry
    end
  else if insertsAtTop dailyNoteInsertPosition then
    header ++ LF ++ LF ++ logEntry ++ LF ++ LF ++ content
  else
    content ++ (if Files.endsWith LF content then EmptyString else LF) ++ LF
            ++ header ++ LF ++ LF ++ logEntry.

End Insert.

End DailyNote.

(** ** AddNoteModal: the playback position *)

Module AddNoteModal.

(** AddNoteModal.formatTime, for a whole number of seconds up to
    [TimeUtils.MAX_SAFE_INTEGER] in absolute value, where the doubles of
    the source compute exactly; [%] is the remainder that takes the sign of
    the dividend. *)
Definition formatTime (seconds : Z) : string :=
  let hours := seconds / 3600 in
  let minutes := Z.rem seconds 3600 / 60 in
  let secs := Z.rem seconds 60 in
  if 0 <? hours then
    Json.numberToString hours ++ ":"
      ++ TimeUtils.padStart 2 "0" (Json.numberToString minutes) ++ ":"
      ++ TimeUtils.padStart 2 "0" (Json.numberToString secs)
  else
    Json.numberToString minutes ++ ":" ++ TimeUtils.padStart 2 "0" (Json.numberToString secs).

End AddNoteModal.

(** ** Concrete stores and directories used by the examples *)

Module Scenarios.
Import Json.

(** A settings store with a debounced save of the defaults pending. *)
Definition saved : Examples.SettingsStore :=
  Examples.run [Store.CallSave Examples.defaults false] Examples.idle.

(** A directory of playlists and the files in it. *)
Definition playlistsDir : string := "data/playlists".

Definition playlistIds : list string := ["morning"; "road-trip"].

Definition playlistFiles : list string :=
  ["data/playlists/morning.json"; "data/playlists/road-trip.json"].

Definition isPlaylistFile (path : string) : bool :=
  existsb (String.eqb path) playlistFiles.

(** An adapter over that directory: the directory and its files exist, the
    files can be removed, and listing any other path fails. *)
Definition vault : Files.Adapter :=
  Files.mkAdapter
    (fun path => Some (String.eqb path playlistsDir || isPlaylistFile path))
    isPlaylistFile
    (fun path => if String.eqb path playlistsDir then Some playlistFiles else None).


(** The properties of the default settings. *)
Definition defaultFields : Fields := ownProps (Some Examples.defaults).

(** A server that serves the RSS document, with a validator, to the first
    request. *)
Definition online : Feed.Network :=
  Feed.mkNetwork
    (fun _ => Resolved (Feed.mkResponse 200 Examples.rssDocument (Some "W/abc") None))
    (Rejected (Feed.Error "Failed to fetch"))
    (Rejected (Feed.Error "getaddrinfo ENOTFOUND example.com")).

(** A podcast as [updateFeed] reads it, its episodes given by their ids. *)
Record Show : Type := mkShow {
  showUrl : string;
  showEpisodes : option (list string)
}.

(** A stand-in for the RSS parser: every document with a channel holds the
    same three episodes. *)
Definition parseShow (xml url : string) : Outcome Feed.JsError (FeedUpdate.Parsed Show string) :=
  if Feed.includes "<channel" xml
  then Resolved (FeedUpdate.mkParsed Show string (mkShow url None) ["ep-3"; "ep-2"; "ep-1"])
  else Rejected (Feed.Error "Invalid RSS feed").

(** A subscription that knows the first two episodes. *)
Definition subscribed : Show := mkShow Examples.feedUrl (Some ["ep-2"; "ep-1"]).

(** [updateFeed] on shows, with a cache store whose writes succeed. *)
Definition updateShow (cs : option Feed.FeedCacheStore) (net : Feed.Network) (now : Z)
  (p : Show) :=
  FeedUpdate.updateFeed Examples.validateRss Examples.validateAtom Show string
    showUrl showEpisodes (fun id => id) parseShow parseShow cs Feed.Stored net now p.


(** A list of a hundred episodes, 60 pixels each, created the way
    [createVirtualEpisodeList] does (overscan 5), in a container 600
    pixels high. *)
Definition episodeList : VirtualList.VirtualList nat :=
  VirtualList.create nat (seq 0 100) 60 5 0 600.


(** A daily note with the default header and one entry under it. *)
Definition dailyNote : string :=
  "# Monday" ++ DailyNote.LF ++ DailyNote.DEFAULT_HEADER ++ DailyNote.LF ++ "- first entry".

End Scenarios.

(* ================================================================== *)
(** * Part II: properties *)
(* ================================================================== *)

(** ** Proof automation *)

Ltac break_match :=
  match goal with
  | |- context [match ?x with _ => _ end] =>
    lazymatch x with
    | context [match _ with _ => _ end] => fail
    | _ => destruct x eqn:?
    end
  end.

(** Evaluation that leaves integer arithmetic and string concatenation
    folded. *)
Ltac store_simpl :=
  cbn -[Z.add Z.sub Z.leb Z.ltb Z.eqb String.append Nat.eqb] in *.

Ltac unfold_ops :=
  cbv beta iota zeta delta
    [Store.step Store.load Store.startLoad Store.save Store.flush Store.advance
     Store.timerCallback Store.scheduleDebouncedSave Store.invalidateCache
     Store.hasPendingChanges Store.existsResolves Store.readResolves
     Store.loadSettles Store.writeResolves Store.performLoad_resume
     Store.readJson_failed Store.writeJson Store.setCache Store.setDirty
     Store.setTimer Store.setLoadPromise Store.setNow Store.logCall
     Store.setPendingWrites Store.setPhase Store.diskReads
     Store.existsChecks Store.diskWrites Store.readsAhead
     Store.cache Store.cacheTimestamp Store.isDirty Store.saveDebounceTimer
     Store.loadPromise Store.now Store.nextId Store.pendingWrites Store.ioLog
     Store.lid Store.timestamp Store.fallback Store.phase Store.wid Store.kind
     Store.isRead Store.isExists Store.isWrite
     fst snd negb andb] in *.

(** ** SingleFileStore *)

Section StoreProperties.

Variable T : Type.
Variable validate : T -> bool.
Variable getDefaultValue : T.
Variable JSON_parse : string -> option T.
Variable JSON_stringify : T -> string.
Variable filePath : string.

Import Store.

Local Abbreviation Store := (Store.Store T).
Local Abbreviation Event := (Store.Event T).
Local Abbreviation load := (Store.load getDefaultValue filePath).
Local Abbreviation save := (Store.save validate JSON_stringify filePath).
Local Abbreviation flush := (Store.flush JSON_stringify filePath).
Local Abbreviation advance := (Store.advance JSON_stringify filePath).
Local Abbreviation timerCallback := (Store.timerCallback JSON_stringify filePath).
Local Abbreviation writeResolves := (Store.writeResolves filePath).
Local Abbreviation existsResolves := (Store.existsResolves validate getDefaultValue filePath).
Local Abbreviation readResolves := (Store.readResolves validate getDefaultValue JSON_parse filePath).
Local Abbreviation step := (Store.step validate getDefaultValue JSON_parse JSON_stringify filePath).
Local Abbreviation run := (Store.run validate getDefaultValue JSON_parse JSON_stringify filePath).
Local Abbreviation exec := (Store.exec validate getDefaultValue JSON_parse JSON_stringify filePath).
Local Abbreviation replies := (Store.replies validate getDefaultValue JSON_parse JSON_stringify filePath).

Lemma exec_nil (s : Store) : exec [] s = s.
Proof. reflexivity. Qed.

Lemma exec_cons (e : Event) (es : list Event) (s : Store) :
  exec (e :: es) s = exec es (fst (step e s)).
Proof.
  unfold Store.exec. simpl.
  destruct (step e s) as [s1 r]. simpl.
  destruct (run es s1). reflexivity.
Qed.

Lemma replies_cons (e : Event) (es : list Event) (s : Store) :
  replies (e :: es) s = snd (step e s) :: replies es (fst (step e s)).
Proof.
  unfold Store.replies. simpl.
  destruct (step e s) as [s1 r]. simpl.
  destruct (run es s1). reflexivity.
Qed.

Lemma exec_app (es1 es2 : list Event) (s : Store) :
  exec (es1 ++ es2) s = exec es2 (exec es1 s).
Proof.
  revert s. induction es1 as [|e es1 IH]; intros s.
  - reflexivity.
  - simpl. rewrite !exec_cons. apply IH.
Qed.

(** *** C4: save validates before anything else *)

(** C4.  For every store and every payload [x] with [validate x = false],
    [save x immediate] throws the StorageError "Data validation failed"
    for either value of [immediate], issues no adapter call at all, and
    leaves the whole store (cache, cache timestamp, dirty flag, timer)
    exactly as it was. *)
Theorem save_rejects_invalid_payload (s : Store) (x : T) (immediate : bool) :
  validate x = false ->
  save x immediate s = (s, RThrows (mkStorageError "Data validation failed" filePath)) /\
  ioLog (fst (save x immediate s)) = ioLog s /\
  cache (fst (save x immediate s)) = cache s /\
  cacheTimestamp (fst (save x immediate s)) = cacheTimestamp s /\
  isDirty (fst (save x immediate s)) = isDirty s.
Proof.
  intros Hv. unfold Store.save. rewrite Hv. simpl. repeat split; reflexivity.
Qed.

(** *** C3: a fresh cache answers load without touching the disk *)

Lemma load_cached (s : Store) (c : T) :
  loadPromise s = None ->
  cache s = Some c ->
  now s - cacheTimestamp s < CACHE_TTL_MS ->
  load s = (s, RValue c).
Proof.
  intros Hp Hc Hage. unfold Store.load. rewrite Hp, Hc.
  apply Z.ltb_lt in Hage. rewrite Hage. reflexivity.
Qed.

Lemma save_then_wait (s : Store) (x : T) (immediate : bool) (d : Z) :
  validate x = true ->
  let s' := exec [CallSave x immediate; Advance d] s in
  cache s' = Some x /\ cacheTimestamp s' = now s /\ now s' = now s + d /\
  isDirty s' = true /\ loadPromise s' = loadPromise s.
Proof.
  intros Hv. rewrite !exec_cons, exec_nil.
  destruct s; unfold_ops. rewrite Hv.
  destruct immediate; unfold_ops; repeat (break_match; unfold_ops);
    repeat split; reflexivity.
Qed.

(** C3.  With no load in flight: (1) a [load] that finds the cache
    populated and younger than 2000 ms answers with the cached value and
    leaves the store, hence the adapter log, untouched: zero disk reads;
    (2) after a successful [save x], debounced or immediate, a [load]
    issued less than 2000 ms later answers [x] from the cache while the
    store is still dirty, that is before any write has completed. *)
Theorem cached_load_hits_no_disk (s : Store) :
  loadPromise s = None ->
  (forall c, cache s = Some c -> now s - cacheTimestamp s < CACHE_TTL_MS ->
     load s = (s, RValue c)) /\
  (forall x immediate d, validate x = true -> d < CACHE_TTL_MS ->
     let s' := exec [CallSave x immediate; Advance d] s in
     load s' = (s', RValue x) /\ hasPendingChanges s' = true).
Proof.
  intros Hp. split.
  - intros c Hc Hage. now apply load_cached.
  - intros x immediate d Hv Hd s'.
    destruct (save_then_wait s x immediate d Hv) as (Hc & Hts & Hnow & Hdirty & Hlp).
    fold s' in Hc, Hts, Hnow, Hdirty, Hlp.
    split; [|exact Hdirty].
    apply load_cached; [congruence | exact Hc |].
    rewrite Hts, Hnow. lia.
Qed.

(** *** C1: one disk read serves every concurrent load *)

Lemma inflight_step (e : Event) (s : Store) (p : LoadTask T) :
  loadPromise s = Some p ->
  e <> LoadSettles ->
  exists p',
    loadPromise (fst (step e s)) = Some p' /\ lid p' = lid p /\
    existsChecks (fst (step e s)) = existsChecks s /\
    (diskReads (fst (step e s)) + readsAhead p' <= diskReads s + readsAhead p)%nat /\
    (e = CallLoad -> step e s = (s, RLoadPromise (lid p))).
Proof.
  intros Hp He. destruct s as [c ts dirty timer lp t n pw log].
  simpl in Hp. subst lp. destruct p as [i stamp fb ph].
    destruct e; try congruence; unfold_ops;
    repeat (break_match; unfold_ops; try discriminate);
    eexists; repeat split; unfold_ops; try reflexivity; try congruence;
    simpl; lia.
Qed.

Lemma inflight_schedule (es : list Event) (s : Store) (p : LoadTask T) :
  loadPromise s = Some p ->
  ~ In LoadSettles es ->
  (exists p',
     loadPromise (exec es s) = Some p' /\ lid p' = lid p /\
     (diskReads (exec es s) + readsAhead p' <= diskReads s + readsAhead p)%nat) /\
  existsChecks (exec es s) = existsChecks s /\
  (forall i, nth_error es i = Some CallLoad ->
     nth_error (replies es s) i = Some (RLoadPromise (lid p))).
Proof.
  revert s p. induction es as [|e es IH]; intros s p Hp Hnot.
  - rewrite exec_nil. split; [exists p; auto|]. split; [reflexivity|].
    intros [|i]; discriminate.
  - assert (He : e <> LoadSettles) by (intros ->; apply Hnot; now left).
    assert (Hes : ~ In LoadSettles es) by (intros H; apply Hnot; now right).
    destruct (inflight_step e s p Hp He) as (p1 & Hp1 & Hid1 & Hex1 & Hrd1 & Hcall).
    destruct (IH _ p1 Hp1 Hes) as ((p2 & Hp2 & Hid2 & Hrd2) & Hex2 & Hrep).
    rewrite exec_cons, replies_cons. split; [|split].
    + exists p2. repeat split; [exact Hp2 | congruence | lia].
    + congruence.
    + intros [|i] Hi; simpl in *.
      * injection Hi as ->. rewrite (Hcall eq_refl). reflexivity.
      * rewrite (Hrep i Hi). now rewrite Hid1.
Qed.

Lemma load_starts_read (s : Store) :
  loadPromise s = None ->
  (cache s = None \/ CACHE_TTL_MS <= now s - cacheTimestamp s) ->
  snd (load s) = RLoadPromise (nextId s) /\
  ioLog (fst (load s)) = AdapterExists filePath :: ioLog s /\
  loadPromise (fst (load s)) =
    Some (mkLoadTask (nextId s) (now s) getDefaultValue AwaitExists).
Proof.
  intros Hp Hstale. unfold Store.load, Store.startLoad. rewrite Hp.
  destruct (cache s) as [c|] eqn:Hc.
  - destruct Hstale as [Hn|Hold]; [discriminate|].
    apply Z.ltb_ge in Hold. rewrite Hold. simpl. auto.
  - simpl. auto.
Qed.

(** From the call that starts a read up to the [finally] of that call,
    whatever else happens: one existence check, at most one read, and every
    [load] call answered with the promise of the first. *)
Lemma one_read_per_episode (s : Store) (es : list Event) :
  loadPromise s = None ->
  (cache s = None \/ CACHE_TTL_MS <= now s - cacheTimestamp s) ->
  ~ In LoadSettles es ->
  existsChecks (exec (CallLoad :: es) s) = S (existsChecks s) /\
  (diskReads (exec (CallLoad :: es) s) <= S (diskReads s))%nat /\
  (forall i, nth_error (CallLoad :: es) i = Some CallLoad ->
     nth_error (replies (CallLoad :: es) s) i = Some (RLoadPromise (nextId s))).
Proof.
  intros Hp Hstale Hes.
  destruct (load_starts_read s Hp Hstale) as (Hreply & Hlog & Hslot).
  rewrite exec_cons, replies_cons. cbn [Store.step].
  destruct (inflight_schedule es _ _ Hslot Hes) as ((p' & _ & _ & Hrd) & Hex & Hrep).
  cbn [lid readsAhead phase] in Hrd, Hrep.
  assert (Hex0 : existsChecks (fst (load s)) = S (existsChecks s)).
  { unfold Store.existsChecks. now rewrite Hlog. }
  assert (Hrd0 : diskReads (fst (load s)) = diskReads s).
  { unfold Store.diskReads. now rewrite Hlog. }
  split; [congruence|]. split; [lia|].
  intros [|i] Hi; cbn [nth_error] in *.
  - now rewrite Hreply.
  - now apply Hrep.
Qed.

(** C1.  While [this.loadPromise] holds a load in flight:
    (1) a [load] call returns that same promise and changes nothing, so it
        issues no adapter call;
    (2) along every schedule that does not yet run the [finally] of the
        load that started the read (other calls of [load], [save],
        [flush], [invalidateCache], timer ticks, write completions and the
        progress of the read itself) the promise in the slot stays the
        same, every [load] call is answered with it, no further
        [adapter.exists] is issued and at most one [adapter.read] is;
    (3) once the read has settled, the [finally] step hands the settled
        result to the callers and empties the slot, after which a [load]
        that finds no fresh cache starts a new read. *)
Theorem load_deduplication (s : Store) (p : LoadTask T) :
  loadPromise s = Some p ->
  load s = (s, RLoadPromise (lid p)) /\
  (forall es, ~ In LoadSettles es ->
     (exists p', loadPromise (exec es s) = Some p' /\ lid p' = lid p) /\
     existsChecks (exec es s) = existsChecks s /\
     (diskReads (exec es s) <= diskReads s + 1)%nat /\
     (forall i, nth_error es i = Some CallLoad ->
        nth_error (replies es s) i = Some (RLoadPromise (lid p)))) /\
  (forall r, phase p = Settled r ->
     let s' := fst (step LoadSettles s) in
     snd (step LoadSettles s) = RLoadSettled (lid p) r /\
     loadPromise s' = None /\
     ioLog s' = ioLog s /\
     ((cache s' = None \/ CACHE_TTL_MS <= now s' - cacheTimestamp s') ->
        snd (load s') = RLoadPromise (nextId s') /\
        ioLog (fst (load s')) = AdapterExists filePath :: ioLog s')).
Proof.
  intros Hp. split; [|split].
  - unfold Store.load. now rewrite Hp.
  - intros es Hnot.
    destruct (inflight_schedule es s p Hp Hnot) as ((p' & Hp' & Hid & Hrd) & Hex & Hrep).
    split; [exists p'; auto|]. split; [exact Hex|]. split; [|exact Hrep].
    unfold Store.readsAhead in Hrd. destruct (phase p'), (phase p); lia.
  - intros r Hr s'. subst s'.
    assert (Hstep : step LoadSettles s = (setLoadPromise None s, RLoadSettled (lid p) r)).
    { unfold Store.step, Store.loadSettles. now rewrite Hp, Hr. }
    rewrite Hstep. cbn [fst snd].
    split; [reflexivity|]. split; [reflexivity|]. split; [reflexivity|].
    intros Hstale.
    pose proof (load_starts_read (setLoadPromise None s) eq_refl Hstale) as (H1 & H2 & _).
    auto.
Qed.

(** *** C5: missing or corrupt storage is masked by the default value *)

Lemma loadSettles_settled (s : Store) (p : LoadTask T) (r : Outcome StorageError T) :
  loadPromise s = Some p ->
  phase p = Settled r ->
  step LoadSettles s = (setLoadPromise None s, RLoadSettled (lid p) r).
Proof.
  intros Hp Hr. unfold Store.step, Store.loadSettles. now rewrite Hp, Hr.
Qed.

(** The outcome of [performLoad] once [readJson] has produced [data]: the
    data itself when it validates, the default value otherwise; the cache
    is written in the first case only, and no adapter call is made. *)
Lemma performLoad_resume_spec (s : Store) (p : LoadTask T) (data : T) :
  let s' := performLoad_resume validate getDefaultValue p data s in
  loadPromise s' =
    Some (setPhase
            (Settled (Resolved (if validate data then data else getDefaultValue))) p) /\
  ioLog s' = ioLog s /\
  (validate data = false ->
     cache s' = cache s /\ cacheTimestamp s' = cacheTimestamp s).
Proof.
  unfold Store.performLoad_resume. destruct (validate data); cbn;
    repeat split; try reflexivity; discriminate.
Qed.

(** C5.  Take a [load] that goes to disk (no load in flight, no fresh
    cache).  If the file is missing, or its content does not parse, or the
    parsed data fails [validate], the load settles with a fulfilled promise
    carrying [getDefaultValue] (never a rejection), and the adapter log gains
    the existence check and the read but no write: the default is not
    persisted.  Whenever the value obtained from readJson fails validation
    the cache and its timestamp are left as they were, so the default is not
    cached. *)
Theorem load_masks_missing_or_corrupt_file (s : Store) :
  loadPromise s = None ->
  (cache s = None \/ CACHE_TTL_MS <= now s - cacheTimestamp s) ->
  let id := nextId s in
  (let es := [CallLoad; ExistsResolves (Some false); LoadSettles] in
   replies es s = [RLoadPromise id; RNone; RLoadSettled id (Resolved getDefaultValue)] /\
   diskWrites (exec es s) = diskWrites s /\
   (validate getDefaultValue = false ->
      cache (exec es s) = cache s /\ cacheTimestamp (exec es s) = cacheTimestamp s)) /\
  (forall content, JSON_parse content = None ->
   let es := [CallLoad; ExistsResolves (Some true); ReadResolves (Some content); LoadSettles] in
   replies es s =
     [RLoadPromise id; RNone; RNone; RLoadSettled id (Resolved getDefaultValue)] /\
   diskWrites (exec es s) = diskWrites s /\
   (validate getDefaultValue = false ->
      cache (exec es s) = cache s /\ cacheTimestamp (exec es s) = cacheTimestamp s)) /\
  (forall content data, JSON_parse content = Some data -> validate data = false ->
   let es := [CallLoad; ExistsResolves (Some true); ReadResolves (Some content); LoadSettles] in
   replies es s =
     [RLoadPromise id; RNone; RNone; RLoadSettled id (Resolved getDefaultValue)] /\
   diskWrites (exec es s) = diskWrites s /\
   cache (exec es s) = cache s /\ cacheTimestamp (exec es s) = cacheTimestamp s).
Proof.
  intros Hp Hstale id.
  assert (Hload : load s =
            (mkStore (cache s) (cacheTimestamp s) (isDirty s) (saveDebounceTimer s)
                     (Some (mkLoadTask (nextId s) (now s) getDefaultValue AwaitExists))
                     (now s) (S (nextId s)) (pendingWrites s)
                     (AdapterExists filePath :: ioLog s),
             RLoadPromise (nextId s))).
  { unfold Store.load, Store.startLoad. rewrite Hp. destruct (cache s) as [c|].
    - destruct Hstale as [Hn|Hold]; [discriminate|].
      apply Z.ltb_ge in Hold. now rewrite Hold.
    - reflexivity. }
  destruct s as [c ts dirty timer lp t n pw log]. cbn in Hp. subst lp. clear Hstale.
  split; [|split].
  - intros es. subst es. rewrite !replies_cons, !exec_cons, exec_nil.
    unfold Store.replies, Store.run. cbn [Store.step]. rewrite Hload.
    unfold_ops. destruct (validate getDefaultValue) eqn:Hd; unfold_ops;
      repeat split; try reflexivity; discriminate.
  - intros content Hparse es. subst es.
    rewrite !replies_cons, !exec_cons, exec_nil.
    unfold Store.replies, Store.run. cbn [Store.step]. rewrite Hload.
    unfold Store.readResolves, Store.safeJsonParse. unfold_ops. rewrite Hparse.
    destruct (validate getDefaultValue) eqn:Hd; unfold_ops;
      repeat split; try reflexivity; discriminate.
  - intros content data Hparse Hinvalid es. subst es.
    rewrite !replies_cons, !exec_cons, exec_nil.
    unfold Store.replies, Store.run. cbn [Store.step]. rewrite Hload.
    unfold Store.readResolves, Store.safeJsonParse. unfold_ops. rewrite Hparse, Hinvalid.
    unfold_ops. repeat split; reflexivity.
Qed.

(** *** C2: debounce coalescing *)

Lemma save_debounced (s : Store) (x : T) :
  validate x = true ->
  save x false s =
    (setTimer (Some (now s + SAVE_DEBOUNCE_MS))
              (setDirty true (setCache (Some x) (now s) s)),
     RDone).
Proof.
  intros Hv. unfold Store.save, Store.scheduleDebouncedSave. rewrite Hv. reflexivity.
Qed.

(** A debounced save followed by less than a window of silence reaches no
    adapter. *)
Lemma save_then_short_wait (s : Store) (x : T) (g : Z) :
  validate x = true ->
  g < SAVE_DEBOUNCE_MS ->
  ioLog (exec [CallSave x false; Advance g] s) = ioLog s.
Proof.
  intros Hv Hg. rewrite !exec_cons, exec_nil. cbn [Store.step].
  rewrite (save_debounced s x Hv). destruct s. unfold_ops.
  assert (Hlate : (now0 + SAVE_DEBOUNCE_MS <=? now0 + g) = false)
    by (apply Z.leb_gt; lia).
  rewrite Hlate. reflexivity.
Qed.

Lemma savesWithinWindow_quiet (xs : list (T * Z)) (s : Store) :
  Forall (fun xg => validate (fst xg) = true /\ snd xg < SAVE_DEBOUNCE_MS) xs ->
  ioLog (exec (savesWithinWindow xs) s) = ioLog s.
Proof.
  intros Hxs. revert s. induction Hxs as [|[x g] xs [Hv Hg] _ IH]; intros s.
  - reflexivity.
  - change (savesWithinWindow ((x, g) :: xs))
      with (([CallSave x false; Advance g] ++ savesWithinWindow xs)%list).
    rewrite exec_app, IH. now apply save_then_short_wait.
Qed.

(** C2 (as amended).  Let N >= 1 payloads that pass [validate] be saved
    with [immediate = false], each call less than 1000 ms after the previous
    one, starting from any store, and let nothing else happen to the store
    from the first call until the timer fires: the schedule holds the calls
    of [save] and the passing of time, no other call and no completion of
    an adapter call.  While the burst lasts no adapter call is made and
    after the last call the timer is armed 1000 ms ahead; once 1000 ms or
    more have passed after the last call, the adapter log has gained
    exactly one call, the write of the last payload [xN], and the timer slot
    is empty again.  Every debounced save replaces whatever timer was
    pending by one that is due a full window after the call. *)
Theorem debounce_coalescing (s : Store) (xs : list (T * Z)) (xN : T) (d : Z) :
  Forall (fun xg => validate (fst xg) = true /\ snd xg < SAVE_DEBOUNCE_MS) xs ->
  validate xN = true ->
  SAVE_DEBOUNCE_MS <= d ->
  let s1 := exec (savesWithinWindow xs ++ [CallSave xN false])%list s in
  let s2 := exec [Advance d] s1 in
  ioLog s1 = ioLog s /\
  saveDebounceTimer s1 = Some (now s1 + SAVE_DEBOUNCE_MS) /\
  ioLog s2 = AdapterWrite filePath (JSON_stringify xN) :: ioLog s /\
  diskWrites s2 = AdapterWrite filePath (JSON_stringify xN) :: diskWrites s /\
  saveDebounceTimer s2 = None /\
  (forall (s0 : Store) (x : T), validate x = true ->
     saveDebounceTimer (fst (save x false s0)) = Some (now s0 + SAVE_DEBOUNCE_MS)).
Proof.
  intros Hxs HvN Hd s1 s2.
  assert (Hrestart : forall (s0 : Store) (x : T), validate x = true ->
            saveDebounceTimer (fst (save x false s0)) = Some (now s0 + SAVE_DEBOUNCE_MS)).
  { intros s0 x Hx. rewrite (save_debounced s0 x Hx). reflexivity. }
  pose proof (savesWithinWindow_quiet xs s Hxs) as Hquiet.
  subst s2 s1. rewrite exec_app, !exec_cons, !exec_nil. cbn [Store.step].
  rewrite (save_debounced _ xN HvN).
  destruct (exec (savesWithinWindow xs) s) as [c ts dirty timer lp t n pw log].
  unfold_ops.
  assert (Hdue : (t + SAVE_DEBOUNCE_MS <=? t + d) = true) by (apply Z.leb_le; lia).
  rewrite Hdue. unfold_ops. cbn in Hquiet. subst log.
  repeat split; try reflexivity. exact Hrestart.
Qed.

End StoreProperties.

(** ** SingleFileStore: the dirty flag and what has reached the disk *)

Section DurabilityProperties.

Variable T : Type.
Variable validate : T -> bool.
Variable getDefaultValue : T.
Variable JSON_parse : string -> option T.
Variable JSON_stringify : T -> string.
Variable filePath : string.

Import Store Durability.

Local Abbreviation Store := (Store.Store T).
Local Abbreviation save := (Store.save validate JSON_stringify filePath).
Local Abbreviation flush := (Store.flush JSON_stringify filePath).
Local Abbreviation advance := (Store.advance JSON_stringify filePath).
Local Abbreviation step := (Store.step validate getDefaultValue JSON_parse JSON_stringify filePath).
Local Abbreviation World := (Durability.World T).
Local Abbreviation Op := (Durability.Op T).
Local Abbreviation stepOp :=
  (Durability.stepOp T validate getDefaultValue JSON_parse JSON_stringify filePath).
Local Abbreviation runOps :=
  (Durability.runOps T validate getDefaultValue JSON_parse JSON_stringify filePath).
Local Abbreviation undisturbed :=
  (Durability.undisturbed T validate getDefaultValue JSON_parse JSON_stringify filePath).
Local Abbreviation settled := (Durability.settled T JSON_stringify).
Local Abbreviation noteSave := (Durability.noteSave T validate).
Local Abbreviation lastSaved := (Durability.lastSaved T validate).

Lemma contentOf_findWrite (id : nat) (fl : list (nat * string)) (pw : list (WriteTask)) :
  map fst fl = map (@wid) pw ->
  (contentOf id fl = None <-> findWrite id pw = None).
Proof.
  revert pw. induction fl as [|[i c] fl IH]; intros [|w pw] H; try discriminate.
  - split; reflexivity.
  - cbn in H. injection H as Hi H. subst i. cbn.
    destruct (Nat.eqb (wid w) id); [split; discriminate|]. now apply IH.
Qed.

Lemma forget_removeWrite (id : nat) (fl : list (nat * string)) (pw : list (WriteTask)) :
  map fst fl = map (@wid) pw ->
  map fst (forget id fl) = map (@wid) (removeWrite id pw).
Proof.
  revert pw. induction fl as [|[i c] fl IH]; intros [|w pw] H; try discriminate.
  - reflexivity.
  - cbn in H. injection H as Hi H. subst i. cbn.
    destruct (Nat.eqb (wid w) id); [exact H|]. cbn. f_equal. now apply IH.
Qed.

Lemma forget_In (id : nat) (x : nat * string) (fl : list (nat * string)) :
  In x (forget id fl) -> In x fl.
Proof.
  induction fl as [|[i c] fl IH]; [intros []|]. cbn.
  destruct (Nat.eqb i id); [now right|]. intros [H|H]; [now left | right; now apply IH].
Qed.

Lemma contentOf_In (id : nat) (c : string) (fl : list (nat * string)) :
  contentOf id fl = Some c -> In (id, c) fl.
Proof.
  induction fl as [|[i c0] fl IH]; [discriminate|]. cbn.
  destruct (Nat.eqb i id) eqn:E.
  - intros [= ->]. apply Nat.eqb_eq in E. subst i. now left.
  - intros H. right. now apply IH.
Qed.

Lemma eqb_succ (n : nat) : Nat.eqb n (S n) = false.
Proof. apply Nat.eqb_neq. lia. Qed.

Ltac settle :=
  repeat (rewrite ?eqb_succ, ?Nat.eqb_refl; break_match; unfold_ops);
  rewrite ?eqb_succ, ?Nat.eqb_refl;
  cbn [store awaitingExists awaitingRemove inFlight written Durability.noteSave];
  unfold_ops.

(** The six parts of the invariant after a step, from those before it. *)
Ltac leaf Hfl Hset Hwr :=
  split; [reflexivity|]; split; [reflexivity|]; split;
  [first [assumption | reflexivity | cbn [map]; f_equal; assumption]|];
  split;
  [intros i0 c0 Hin;
   first [ contradiction
         | exact (Hfl i0 c0 Hin)
         | destruct Hin as [Hin|Hin];
           [injection Hin as <- <-;
            first [ eexists; split; reflexivity
                  | destruct (Hset eq_refl) as [Hnone|Hsome];
                    [discriminate Hnone | rewrite <- Hsome; eexists; split; reflexivity] ]
           |first [contradiction | exact (Hfl i0 c0 Hin)]]]
  |];
  split;
  [first [ assumption
         | intros; discriminate
         | intros _; now right
         | intros _; now left ]
  |first [assumption | intros; discriminate]].

Lemma settled_step (saved : option T) (o : Op) (w : World) :
  settled saved w -> undisturbing o w = true ->
  settled (noteSave saved o) (stepOp o w).
Proof.
  destruct w as [s ae ar fl wr]. unfold Durability.settled.
  cbn [store awaitingExists awaitingRemove inFlight written].
  intros (Hae & Har & Hids & Hfl & Hset & Hwr) Hok. subst ae ar.
  destruct s as [c ts dirty timer lp t n pw log].
  destruct o as [e| |r|ok]; cbn [undisturbing] in Hok; try discriminate.
  - destruct e as [|data immediate| | | |r|r| |wid0 ok|dt];
      unfold Durability.stepOp, Durability.stepBase, issued;
      cbn [store awaitingExists awaitingRemove inFlight written Durability.noteSave] in *;
      unfold_ops.
    + settle; leaf Hfl Hset Hwr.
    + destruct pw as [|w0 pw]; [|discriminate].
      destruct fl as [|f0 fl]; [|discriminate].
      settle; leaf Hfl Hset Hwr.
    + settle; leaf Hfl Hset Hwr.
    + settle; leaf Hfl Hset Hwr.
    + settle; leaf Hfl Hset Hwr.
    + apply negb_true_iff in Hok. subst dirty. settle; leaf Hfl Hset Hwr.
    + apply negb_true_iff in Hok. subst dirty. settle; leaf Hfl Hset Hwr.
    + settle; leaf Hfl Hset Hwr.
    + pose proof (contentOf_findWrite wid0 fl pw Hids) as Hsame.
      pose proof (forget_removeWrite wid0 fl pw Hids) as Hrest.
      destruct (findWrite wid0 pw) as [w0|] eqn:Hf.
      * destruct (contentOf wid0 fl) as [content|] eqn:Hc;
          [|destruct Hsame as [Hsame _]; discriminate (Hsame eq_refl)].
        destruct (Hfl wid0 content (contentOf_In wid0 content fl Hc)) as (x0 & Hx0 & Hcontent).
        assert (Hfl' : forall i0 c0, In (i0, c0) (forget wid0 fl) ->
                  exists x, saved = Some x /\ c0 = JSON_stringify x).
        { intros i0 c0 Hin. exact (Hfl i0 c0 (forget_In wid0 (i0, c0) fl Hin)). }
        destruct ok; [|destruct w0 as [wi [|]]]; unfold_ops; rewrite ?eqb_succ, Hc;
          cbn [store awaitingExists awaitingRemove inFlight written]; unfold_ops;
          (split; [reflexivity|]); (split; [reflexivity|]);
          (split; [exact Hrest|]); (split; [exact Hfl'|]);
          [split; [discriminate | intros _ x Hx; congruence]
          |split; [exact Hset | exact Hwr]
          |split; [exact Hset | exact Hwr]].
      * assert (Hc : contentOf wid0 fl = None) by (now apply Hsame).
        unfold_ops. rewrite ?eqb_succ, Hc.
        cbn [store awaitingExists awaitingRemove inFlight written]. unfold_ops.
        leaf Hfl Hset Hwr.
    + settle; leaf Hfl Hset Hwr.
  - cbn [Durability.stepOp awaitingExists Durability.noteSave store]. leaf Hfl Hset Hwr.
  - cbn [Durability.stepOp awaitingRemove Durability.noteSave store]. leaf Hfl Hset Hwr.
Qed.

Lemma settled_fresh (t0 : Z) : settled None (fresh t0).
Proof.
  unfold Durability.settled, fresh. cbn.
  split; [reflexivity|]. split; [reflexivity|]. split; [reflexivity|].
  split; [intros id c []|]. split; [discriminate|]. intros _ x Hx. discriminate.
Qed.

(** Along a schedule that leaves saves in peace the invariant is kept. *)
Lemma settled_schedule (ops : list Op) (saved : option T) (w : World) :
  settled saved w -> undisturbed ops w = true ->
  settled (fold_left noteSave ops saved) (runOps ops w).
Proof.
  revert saved w. induction ops as [|o ops IH]; intros saved w Hw Hops.
  - exact Hw.
  - cbn [Durability.undisturbed] in Hops. apply andb_true_iff in Hops as [Ho Hops].
    cbn [Durability.runOps fold_left]. apply IH; [|exact Hops].
    now apply settled_step.
Qed.


End DurabilityProperties.

(** ** FeedService *)

Section FeedProperties.

Import Feed.

Variable RSSParser_validateXML : string -> bool.
Variable AtomParser_validateXML : string -> bool.
Variable Parsed : Type.
Variable rssParser_parseFromString : string -> string -> Outcome JsError Parsed.
Variable atomParser_parseFromString : string -> string -> Outcome JsError Parsed.

Local Abbreviation detectFeedType :=
  (Feed.detectFeedType RSSParser_validateXML AtomParser_validateXML).
Local Abbreviation typeByValidation :=
  (Feed.typeByValidation RSSParser_validateXML AtomParser_validateXML).
Local Abbreviation getCachedFeed :=
  (Feed.getCachedFeed RSSParser_validateXML AtomParser_validateXML Parsed
     rssParser_parseFromString atomParser_parseFromString).
Local Abbreviation parseDetected :=
  (Feed.parseDetected RSSParser_validateXML AtomParser_validateXML Parsed
     rssParser_parseFromString atomParser_parseFromString).
Local Abbreviation fetchFeed :=
  (Feed.fetchFeed RSSParser_validateXML AtomParser_validateXML Parsed
     rssParser_parseFromString atomParser_parseFromString).

(** *** C7: feed type detection *)

(** C7 (as amended).  [detectFeedType] is a cascade in which substring
    sniffing always comes first: a text that contains the rss marker is RSS
    whatever else it contains and whatever the schema checks say; otherwise
    a text with the feed marker and the Atom namespace attribute is ATOM;
    only when neither sniffing test matches do the schema checks decide:
    RSS if the RSS check accepts, else ATOM if the Atom check accepts, else
    UNKNOWN. *)
Theorem detectFeedType_cascade (xml : string) :
  (sniffsRss xml = true -> detectFeedType xml = RSS) /\
  (sniffsRss xml = false -> sniffsAtom xml = true -> detectFeedType xml = ATOM) /\
  (sniffsRss xml = false -> sniffsAtom xml = false ->
     detectFeedType xml = typeByValidation xml).
Proof.
  unfold Feed.detectFeedType, Feed.typeByValidation, sniffsRss, sniffsAtom.
  repeat split.
  - intros ->. reflexivity.
  - intros -> ->. reflexivity.
  - intros -> ->. reflexivity.
Qed.

(** *** C8: the error policy of fetchFeedXML *)

Lemma retry_all_not_modified (feedUrl : string) (answers : nat -> Outcome JsError Response) :
  (forall i, exists r, answers i = Resolved r /\ status r = 304) ->
  retryWithBackoff JsError Response 3 (fun i => requestOnce feedUrl (answers i))
  = (Rejected (Error NOT_MODIFIED), 3%nat).
Proof.
  intros Hall.
  assert (Hone : forall i, requestOnce feedUrl (answers i) = Rejected (Error NOT_MODIFIED)).
  { intros i. destruct (Hall i) as (r & Hr & Hs). unfold requestOnce.
    rewrite Hr, Hs. reflexivity. }
  unfold retryWithBackoff. cbn [Nat.pred retryFrom]. rewrite !Hone. reflexivity.
Qed.

(** The error policy of [fetchFeedXML], the subject of C8.  The 304 is
    thrown inside the function that [retryWithBackoff] retries, so a 304 is
    retried like a failure and what [fetchFeedXML] sees is the outcome of
    the last attempt.  In [fetchFeedXML]:
    (1) when the retried tier-1 request ends with the Error whose message
        is NOT_MODIFIED, that very error is what [fetchFeedXML] throws, and
        every request made went through requestUrl: neither fetch nor the
        node client was tried;
    (2) in particular, when the server answers 304 to every attempt, the
        outcome is [Error NOT_MODIFIED], not a NetworkError, after three
        requestUrl calls;
    (3) when tier 1 ends with any other error and both fallbacks fail,
        [fetchFeedXML] throws NetworkError "Failed to fetch feed" carrying the
        feed URL and, as cause, the error of the node client, the last tier;
    (4) more generally than (2), when the first two attempts fail (with a
        304 or otherwise) and the third is answered 304, the outcome is
        [Error NOT_MODIFIED] after three requestUrl calls;
    (5) a 304 to the first attempt does not end the request: a second
        requestUrl call is made. *)
Theorem fetchFeedXML_error_policy (net : Network) (feedUrl : string) (timeout : Z)
    (userAgent : string) (etag lastModified : option string) :
  let result := fetchFeedXML net feedUrl timeout userAgent etag lastModified in
  let tier1 :=
    fst (retryWithBackoff JsError Response 3
           (fun i => requestOnce feedUrl (requestUrl net i))) in
  (forall e, tier1 = Rejected e ->
     instanceofError e = true -> messageOf e = NOT_MODIFIED ->
     fst result = Rejected e /\ forallb isTier1 (snd result) = true) /\
  ((forall i, exists r, requestUrl net i = Resolved r /\ status r = 304) ->
     fst result = Rejected (Error NOT_MODIFIED) /\
     snd result =
       repeat (ViaRequestUrl feedUrl (requestHeaders userAgent etag lastModified)) 3) /\
  (forall e1 e2 e3, tier1 = Rejected e1 ->
     (instanceofError e1 && String.eqb (messageOf e1) NOT_MODIFIED) = false ->
     viaFetch (fetch net) = Rejected e2 ->
     viaHttps (httpsRequest net) = Rejected e3 ->
     fst result = Rejected (NetworkError "Failed to fetch feed" feedUrl (Some e3)) /\
     existsb (fun c => negb (isTier1 c)) (snd result) = true) /\
  ((exists e, requestOnce feedUrl (requestUrl net 0) = Rejected e) ->
   (exists e, requestOnce feedUrl (requestUrl net 1) = Rejected e) ->
   (exists r, requestUrl net 2 = Resolved r /\ status r = 304) ->
     fst result = Rejected (Error NOT_MODIFIED) /\
     snd result =
       repeat (ViaRequestUrl feedUrl (requestHeaders userAgent etag lastModified)) 3) /\
  ((exists r, requestUrl net 0 = Resolved r /\ status r = 304) ->
     (2 <= List.length (filter isTier1 (snd result)))%nat).
Proof.
  intros result tier1. subst result tier1. unfold fetchFeedXML.
  split; [|split; [|split; [|split]]].
  - intros e He Hinst Hmsg.
    destruct (retryWithBackoff _ _ _ _) as [first attempts]. cbn [fst] in He. subst first.
    rewrite Hinst, Hmsg, String.eqb_refl. cbn [andb fst snd]. split; [reflexivity|].
    induction attempts as [|k IH]; [reflexivity | exact IH].
  - intros Hall. rewrite (retry_all_not_modified feedUrl (requestUrl net) Hall).
    cbn. split; reflexivity.
  - intros e1 e2 e3 He1 Hnot He2 He3.
    destruct (retryWithBackoff _ _ _ _) as [first attempts]. cbn [fst] in He1. subst first.
    rewrite Hnot, He2, He3. cbn [fst snd]. split; [reflexivity|].
    rewrite !existsb_app. cbn. now rewrite !orb_true_r.
  - intros [e0 H0] [e1 H1] (r & Hr & Hs).
    assert (H2 : requestOnce feedUrl (requestUrl net 2) = Rejected (Error NOT_MODIFIED))
      by (unfold requestOnce; rewrite Hr, Hs; reflexivity).
    unfold retryWithBackoff. cbn [Nat.pred retryFrom]. rewrite H0, H1, H2.
    split; reflexivity.
  - intros (r & Hr & Hs).
    assert (H0 : requestOnce feedUrl (requestUrl net 0) = Rejected (Error NOT_MODIFIED))
      by (unfold requestOnce; rewrite Hr, Hs; reflexivity).
    unfold retryWithBackoff. cbn [Nat.pred retryFrom]. rewrite H0.
    destruct (requestOnce feedUrl (requestUrl net 1)) as [v|e1];
      [|destruct (requestOnce feedUrl (requestUrl net 2)) as [v|e2]];
      repeat (break_match; cbn [snd repeat filter isTier1 app List.length]);
      rewrite ?filter_app; cbn [snd repeat filter isTier1 app List.length];
      rewrite ?length_app; cbn [List.length]; lia.
Qed.

(** *** C6: serving a feed from the cache *)

(** A retried call is attempted at least once. *)
Lemma retryFrom_attempts (E A : Type) (remaining i : nat) (attempt : nat -> Outcome E A) :
  snd (retryFrom E A remaining i attempt) <> 0%nat.
Proof.
  revert i. induction remaining as [|k IH]; intros i; cbn [retryFrom];
    destruct (attempt i); cbn [snd]; try discriminate.
  apply IH.
Qed.

(** C6 (as amended).  With [useCache] on (the default) and a cache store
    holding a non-expired entry for the URL, and whatever the cache store
    would do with a write:
    (1) if the cached text is detected as RSS or as Atom and the parser of
        that format accepts it, [fetchFeed] returns exactly that parse,
        makes no request and leaves the cache as it is;
    (2) if instead the type is UNKNOWN or the parser throws, the entry is
        passed over: the call behaves as with [useCache] off and at least
        one request is made. *)
Theorem fetchFeed_cache_hit (cs : FeedCacheStore) (write : CacheWrite) (net : Network)
    (now : Z) (feedUrl : string) (options : FeedFetchOptions) (entry : FeedCacheEntry) :
  orDefault bool (useCache options) true = true ->
  getCacheEntry cs now feedUrl = Some entry ->
  (forall r, detectFeedType (data entry) <> UNKNOWN ->
     parseDetected (data entry) feedUrl = Resolved r ->
     fetchFeed (Some cs) write net now feedUrl options
     = mkFetchResult Parsed (Resolved r) [] (Some cs)) /\
  ((detectFeedType (data entry) = UNKNOWN \/
    exists e, parseDetected (data entry) feedUrl = Rejected e) ->
     fetchFeed (Some cs) write net now feedUrl options =
       fetchFeed (Some cs) write net now feedUrl
         (mkOptions (Some false) (cacheTTL options) (Feed.timeout options)
                    (Feed.userAgent options) (optEtag options) (optLastModified options)) /\
     requests Parsed (fetchFeed (Some cs) write net now feedUrl options) <> []).
Proof.
  intros Huse Hentry. split.
  - intros r Hknown Hparse. unfold Feed.fetchFeed, Feed.getCachedFeed.
    rewrite Huse, Hentry. unfold Feed.parseDetected in Hparse.
    destruct (detectFeedType (data entry)); try congruence; now rewrite Hparse.
  - intros Hmiss.
    assert (Hnone : getCachedFeed (Some cs) now feedUrl = None).
    { unfold Feed.getCachedFeed. rewrite Hentry.
      destruct Hmiss as [Hunk|[e He]].
      - now rewrite Hunk.
      - unfold Feed.parseDetected in He.
        destruct (detectFeedType (data entry)); try reflexivity; now rewrite He. }
    unfold Feed.fetchFeed. rewrite Huse, Hnone. cbn [useCache orDefault cacheTTL
      Feed.timeout Feed.userAgent optEtag optLastModified].
    split; [reflexivity|].
    unfold fetchFeedXML, retryWithBackoff. cbn [Nat.pred].
    destruct (retryFrom _ _ _ _ _) as [first attempts] eqn:Hretry.
    assert (Hpos : attempts <> 0%nat).
    { change attempts with (snd (first, attempts)). rewrite <- Hretry.
      apply retryFrom_attempts. }
    destruct attempts as [|k]; [congruence|].
    cbn [repeat app].
    repeat (break_match; cbn [requests app]); discriminate.
Qed.

End FeedProperties.

(** ** JSON objects *)

Section JsonProperties.

Import Json.

Local Abbreviation assign := (fun (o : Fields) (kv : string * json) => set (fst kv) (snd kv) o).
Local Abbreviation extend := (fun (o : Fields) (kv : string * json) => put (fst kv) (snd kv) o).

Lemma get_put (k k' : string) (v : json) (o : Fields) :
  get k (put k' v o) = if String.eqb k' k then Some v else get k o.
Proof.
  induction o as [|[k0 v0] o IH]; cbn.
  - destruct (String.eqb k' k); reflexivity.
  - destruct (String.eqb k0 k') eqn:E0; cbn.
    + apply String.eqb_eq in E0. subst k0. destruct (String.eqb k' k); reflexivity.
    + destruct (String.eqb k0 k) eqn:E1.
      * apply String.eqb_eq in E1. subst k0. now rewrite String.eqb_sym, E0.
      * exact IH.
Qed.

(** A key that is an array index is the numeral of that index. *)
Lemma arrayIndex_key (k : string) (n : N) :
  arrayIndex k = Some n ->
  k = DecimalString.NilZero.string_of_uint (N.to_uint n).
Proof.
  unfold arrayIndex. destruct (DecimalString.NilEmpty.uint_of_string k) as [d|]; [|discriminate].
  cbv zeta. destruct (_ && _) eqn:E; [|discriminate].
  intros [= <-]. apply andb_true_iff in E as [E _]. apply String.eqb_eq in E. now symmetry.
Qed.

Lemma arrayIndex_inj (k k' : string) (n : N) :
  arrayIndex k = Some n -> arrayIndex k' = Some n -> k = k'.
Proof.
  intros H H'. rewrite (arrayIndex_key k n H), (arrayIndex_key k' n H'). reflexivity.
Qed.

Lemma get_insertIndex (k k' : string) (n : N) (v : json) (o : Fields) :
  arrayIndex k' = Some n ->
  get k (insertIndex n k' v o) = if String.eqb k' k then Some v else get k o.
Proof.
  intros Hn. induction o as [|[k0 v0] o IH]; cbn [insertIndex].
  - cbn. destruct (String.eqb k' k); reflexivity.
  - destruct (arrayIndex k0) as [n0|] eqn:E0; [destruct (n0 <? n)%N eqn:Hlt|].
    + cbn [get]. rewrite IH. destruct (String.eqb k0 k) eqn:E1; [|reflexivity].
      apply String.eqb_eq in E1. subst k0.
      destruct (String.eqb k' k) eqn:E2; [|reflexivity].
      apply String.eqb_eq in E2. subst k'. rewrite Hn in E0. injection E0 as <-.
      rewrite N.ltb_irrefl in Hlt. discriminate.
    + cbn [get]. destruct (String.eqb k' k); reflexivity.
    + cbn [get]. destruct (String.eqb k' k); reflexivity.
Qed.

(** Reading after an assignment: the value assigned under the key
    assigned, the former value under every other key. *)
Lemma get_set (k k' : string) (v : json) (o : Fields) :
  get k (set k' v o) = if String.eqb k' k then Some v else get k o.
Proof.
  unfold set. destruct (arrayIndex k') as [n|] eqn:E; [destruct (hasKey k' o)|].
  - apply get_put.
  - now apply get_insertIndex.
  - apply get_put.
Qed.

Lemma hasKey_false (k : string) (o : Fields) :
  hasKey k o = false -> get k o = None.
Proof. unfold hasKey. destruct (get k o); [discriminate | reflexivity]. Qed.

Lemma hasKey_cons (k k0 : string) (v0 : json) (o : Fields) :
  hasKey k ((k0, v0) :: o) = String.eqb k0 k || hasKey k o.
Proof. unfold hasKey. cbn. destruct (String.eqb k0 k); reflexivity. Qed.

Lemma hasKey_app (k : string) (a b : Fields) :
  hasKey k (a ++ b)%list = hasKey k a || hasKey k b.
Proof.
  induction a as [|[k0 v0] a IH]; [reflexivity|].
  change (((k0, v0) :: a) ++ b)%list with ((k0, v0) :: (a ++ b))%list.
  rewrite !hasKey_cons, IH. now rewrite orb_assoc.
Qed.

(** A property read from a spread: the value of the source when the
    source defines the key, the value already present otherwise. *)
Lemma get_fold_set (k : string) (src base : Fields) :
  uniqueKeys src = true ->
  get k (fold_left assign src base) =
    match get k src with
    | Some v => Some v
    | None => get k base
    end.
Proof.
  revert base. induction src as [|[k1 v1] r IH]; intros base Hu.
  - reflexivity.
  - cbn in Hu. apply andb_true_iff in Hu as [Hfresh Hr].
    apply negb_true_iff in Hfresh.
    cbn [fold_left fst snd get]. rewrite (IH _ Hr), get_set.
    destruct (String.eqb k1 k) eqn:E.
    + apply String.eqb_eq in E. subst k1. now rewrite (hasKey_false _ _ Hfresh).
    + reflexivity.
Qed.

(** *** Keys kept in creation order *)

Lemma put_fresh (k : string) (v : json) (o : Fields) :
  hasKey k o = false -> put k v o = (o ++ [(k, v)])%list.
Proof.
  induction o as [|[k0 v0] o IH]; intros H; [reflexivity|].
  rewrite hasKey_cons in H. apply orb_false_iff in H as [H0 H1].
  cbn. rewrite H0, (IH H1). reflexivity.
Qed.

Lemma put_same (k : string) (v : json) (o : Fields) :
  get k o = Some v -> put k v o = o.
Proof.
  induction o as [|[k0 v0] o IH]; cbn; [discriminate|].
  destruct (String.eqb k0 k) eqn:E.
  - intros [= ->]. apply String.eqb_eq in E. now subst k0.
  - intros H. now rewrite (IH H).
Qed.

Lemma put_app_miss (k : string) (v : json) (a b : Fields) :
  hasKey k a = false -> put k v (a ++ b)%list = (a ++ put k v b)%list.
Proof.
  induction a as [|[k0 v0] a IH]; intros H; [reflexivity|].
  rewrite hasKey_cons in H. apply orb_false_iff in H as [H0 H1].
  cbn. rewrite H0, (IH H1). reflexivity.
Qed.

Lemma fold_put_fresh (extra o : Fields) :
  uniqueKeys extra = true ->
  (forall k, hasKey k extra = true -> hasKey k o = false) ->
  fold_left extend extra o = (o ++ extra)%list.
Proof.
  revert o. induction extra as [|[k v] r IH]; intros o Hu Hdisj.
  - now rewrite app_nil_r.
  - cbn in Hu. apply andb_true_iff in Hu as [Hfresh Hr].
    apply negb_true_iff in Hfresh.
    cbn [fold_left fst snd]. rewrite put_fresh.
    + rewrite (IH _ Hr).
      * now rewrite <- app_assoc.
      * intros k' Hk'. rewrite hasKey_app, hasKey_cons. cbn.
        rewrite (Hdisj k') by (rewrite hasKey_cons, Hk'; apply orb_true_r).
        destruct (String.eqb k k') eqn:E; [|reflexivity].
        apply String.eqb_eq in E. subst k'. congruence.
    + apply Hdisj. rewrite hasKey_cons, String.eqb_refl. reflexivity.
Qed.

Lemma fold_put_skip (r : Fields) (k1 : string) (v1 : json) (d : Fields) :
  hasKey k1 r = false ->
  fold_left extend r ((k1, v1) :: d) = (k1, v1) :: fold_left extend r d.
Proof.
  revert d v1. induction r as [|[k v] r IH]; intros d v1 H; [reflexivity|].
  rewrite hasKey_cons in H. apply orb_false_iff in H as [H0 H1].
  cbn [fold_left fst snd put]. rewrite String.eqb_sym, H0. now apply IH.
Qed.

Lemma fold_put_same_keys (s1 d : Fields) :
  map fst s1 = map fst d ->
  uniqueKeys s1 = true ->
  fold_left extend s1 d = s1.
Proof.
  revert d. induction s1 as [|[k v] r IH]; intros [|[k' w] d] Hk Hu; try discriminate.
  - reflexivity.
  - cbn in Hk. injection Hk as <- Hk.
    cbn in Hu. apply andb_true_iff in Hu as [Hfresh Hr].
    apply negb_true_iff in Hfresh.
    cbn [fold_left fst snd put]. rewrite String.eqb_refl.
    rewrite (fold_put_skip r k v d Hfresh), (IH d Hk Hr). reflexivity.
Qed.

Lemma keysPrefix_split (d o : Fields) :
  keysPrefix d o = true ->
  exists s1 extra, o = (s1 ++ extra)%list /\ map fst s1 = map fst d.
Proof.
  revert o. induction d as [|[k w] d IH]; intros o H.
  - now exists [], o.
  - destruct o as [|[k' v] o]; [discriminate|].
    cbn in H. apply andb_true_iff in H as [Hk Hrest].
    apply String.eqb_eq in Hk. subst k'.
    destruct (IH o Hrest) as (s1 & extra & -> & Hkeys).
    exists ((k, v) :: s1), extra. cbn. now rewrite Hkeys.
Qed.

Lemma uniqueKeys_app (a b : Fields) :
  uniqueKeys (a ++ b)%list = true ->
  uniqueKeys a = true /\ uniqueKeys b = true /\
  (forall k, hasKey k b = true -> hasKey k a = false).
Proof.
  induction a as [|[k v] a IH]; intros H.
  - cbn in H. repeat split; auto.
  - cbn in H. apply andb_true_iff in H as [Hfresh Hrest].
    apply negb_true_iff in Hfresh. rewrite hasKey_app in Hfresh.
    apply orb_false_iff in Hfresh as [Ha Hb].
    destruct (IH Hrest) as (Hua & Hub & Hdisj).
    repeat split.
    + cbn. now rewrite Ha, Hua.
    + exact Hub.
    + intros k0 Hk0. rewrite hasKey_cons, (Hdisj k0 Hk0), orb_false_r.
      destruct (String.eqb k k0) eqn:E; [|reflexivity].
      apply String.eqb_eq in E. subst k0. congruence.
Qed.

Lemma uniqueKeys_app_intro (a b : Fields) :
  uniqueKeys a = true ->
  uniqueKeys b = true ->
  (forall k, hasKey k a = true -> hasKey k b = false) ->
  uniqueKeys (a ++ b)%list = true.
Proof.
  induction a as [|[k v] a IH]; intros Ha Hb Hdisj; [exact Hb|].
  cbn in Ha. apply andb_true_iff in Ha as [Hfresh Ha].
  apply negb_true_iff in Hfresh.
  change (((k, v) :: a) ++ b)%list with ((k, v) :: (a ++ b))%list.
  cbn [uniqueKeys]. rewrite hasKey_app, Hfresh.
  rewrite (Hdisj k) by (rewrite hasKey_cons, String.eqb_refl; reflexivity).
  cbn. apply IH; [exact Ha | exact Hb |].
  intros k0 Hk0. apply Hdisj. rewrite hasKey_cons, Hk0. apply orb_true_r.
Qed.

(** Among keys in creation order, spreading an object over one whose keys
    it lists first, in the same order, gives the object itself. *)
Lemma fold_put_prefix (d o : Fields) :
  keysPrefix d o = true ->
  uniqueKeys o = true ->
  fold_left extend o d = o.
Proof.
  intros Hp Hu. destruct (keysPrefix_split d o Hp) as (s1 & extra & -> & Hkeys).
  destruct (uniqueKeys_app s1 extra Hu) as (Hu1 & Hu2 & Hdisj).
  rewrite fold_left_app, (fold_put_same_keys s1 d Hkeys Hu1).
  now apply fold_put_fresh.
Qed.

Lemma uniqueKeys_put (k : string) (v : json) (o : Fields) :
  uniqueKeys o = true -> uniqueKeys (put k v o) = true.
Proof.
  induction o as [|[k0 v0] o IH]; intros H; [reflexivity|].
  cbn in H. apply andb_true_iff in H as [Hfresh Hu].
  cbn [put]. destruct (String.eqb k0 k) eqn:E.
  - apply String.eqb_eq in E. subst k0. cbn. now rewrite Hfresh, Hu.
  - cbn [uniqueKeys]. rewrite (IH Hu), andb_true_r.
    unfold hasKey in *. rewrite get_put, String.eqb_sym, E. exact Hfresh.
Qed.

Lemma uniqueKeys_fold_put (src o : Fields) :
  uniqueKeys o = true -> uniqueKeys (fold_left extend src o) = true.
Proof.
  revert o. induction src as [|[k v] src IH]; intros o H; [exact H|].
  cbn [fold_left fst snd]. apply IH. now apply uniqueKeys_put.
Qed.

Lemma keysPrefix_refl (d : Fields) : keysPrefix d d = true.
Proof.
  induction d as [|[k v] d IH]; [reflexivity|]. cbn. now rewrite String.eqb_refl, IH.
Qed.

Lemma keysPrefix_put (k : string) (v : json) (d o : Fields) :
  keysPrefix d o = true -> keysPrefix d (put k v o) = true.
Proof.
  revert d. induction o as [|[k0 v0] o IH]; intros [|[kd vd] d] H; try reflexivity;
    try discriminate.
  cbn in H. apply andb_true_iff in H as [Hk Hrest].
  cbn [put]. destruct (String.eqb k0 k) eqn:E.
  - apply String.eqb_eq in E. subst k0. cbn. now rewrite Hk, Hrest.
  - cbn. now rewrite Hk, (IH d Hrest).
Qed.

Lemma keysPrefix_fold_put (src d o : Fields) :
  keysPrefix d o = true -> keysPrefix d (fold_left extend src o) = true.
Proof.
  revert o. induction src as [|[k v] src IH]; intros o H; [exact H|].
  cbn [fold_left fst snd]. apply IH. now apply keysPrefix_put.
Qed.

(** *** Array indices first *)

Lemma isName_index (k : string) (n : N) : arrayIndex k = Some n -> isName k = false.
Proof. unfold isName. now intros ->. Qed.

Lemma isName_none (k : string) : isName k = true -> arrayIndex k = None.
Proof. unfold isName. destruct (arrayIndex k); [discriminate | reflexivity]. Qed.

(** Assigning under a key that is no array index, or under a key the
    object has, keeps every key where it is. *)
Lemma set_name (k : string) (v : json) (o : Fields) :
  isName k = true -> set k v o = put k v o.
Proof. intros H. unfold set. now rewrite (isName_none k H). Qed.

Lemma set_same (k : string) (v : json) (o : Fields) :
  get k o = Some v -> set k v o = o.
Proof.
  intros H. unfold set, hasKey. rewrite H.
  destruct (arrayIndex k); now apply put_same.
Qed.

Lemma namesOnly_cons (k : string) (v : json) (o : Fields) :
  namesOnly ((k, v) :: o) = isName k && namesOnly o.
Proof. reflexivity. Qed.

Lemma indexPart_cons (k : string) (v : json) (o : Fields) :
  indexPart ((k, v) :: o) = if isName k then indexPart o else (k, v) :: indexPart o.
Proof. unfold indexPart. cbn [filter fst]. now destruct (isName k). Qed.

Lemma namedPart_cons (k : string) (v : json) (o : Fields) :
  namedPart ((k, v) :: o) = if isName k then (k, v) :: namedPart o else namedPart o.
Proof. reflexivity. Qed.

Lemma namesOnly_put (k : string) (v : json) (o : Fields) :
  isName k = true -> namesOnly o = true -> namesOnly (put k v o) = true.
Proof.
  intros Hk. induction o as [|[k0 v0] o IH]; intros H.
  - cbn. now rewrite Hk.
  - rewrite namesOnly_cons in H. apply andb_true_iff in H as [H0 H1].
    cbn [put]. destruct (String.eqb k0 k); rewrite namesOnly_cons.
    + now rewrite Hk, H1.
    + now rewrite H0, (IH H1).
Qed.

Lemma namesOnly_fold_put (src o : Fields) :
  namesOnly src = true -> namesOnly o = true ->
  namesOnly (fold_left extend src o) = true.
Proof.
  revert o. induction src as [|[k v] src IH]; intros o Hs Ho; [exact Ho|].
  rewrite namesOnly_cons in Hs. apply andb_true_iff in Hs as [Hk Hs].
  cbn [fold_left fst snd]. apply IH; [exact Hs|]. now apply namesOnly_put.
Qed.

Lemma namesOnly_ordered (b : N) (o : Fields) :
  namesOnly o = true -> orderedFrom b o = true.
Proof.
  destruct o as [|[k v] o]; [reflexivity|]. rewrite namesOnly_cons. intros H.
  apply andb_true_iff in H as [Hk H]. cbn [orderedFrom]. now rewrite (isName_none k Hk).
Qed.

Lemma namesOnly_indexPart (o : Fields) : namesOnly o = true -> indexPart o = [].
Proof.
  induction o as [|[k v] o IH]; [reflexivity|]. rewrite namesOnly_cons. intros H.
  apply andb_true_iff in H as [Hk H]. rewrite indexPart_cons, Hk. now apply IH.
Qed.

Lemma namesOnly_namedPart (o : Fields) : namesOnly o = true -> namedPart o = o.
Proof.
  induction o as [|[k v] o IH]; [reflexivity|]. rewrite namesOnly_cons. intros H.
  apply andb_true_iff in H as [Hk H]. rewrite namedPart_cons, Hk. now rewrite (IH H).
Qed.

Lemma namesOnly_namedPart_of (o : Fields) : namesOnly (namedPart o) = true.
Proof.
  induction o as [|[k v] o IH]; [reflexivity|]. rewrite namedPart_cons.
  destruct (isName k) eqn:E; [|exact IH]. now rewrite namesOnly_cons, E, IH.
Qed.

Lemma hasKey_namesOnly (k : string) (n : N) (o : Fields) :
  arrayIndex k = Some n -> namesOnly o = true -> hasKey k o = false.
Proof.
  intros Hk. induction o as [|[k0 v0] o IH]; [reflexivity|]. rewrite namesOnly_cons.
  intros H. apply andb_true_iff in H as [H0 H]. rewrite hasKey_cons, (IH H), orb_false_r.
  destruct (String.eqb k0 k) eqn:E; [|reflexivity].
  apply String.eqb_eq in E. subst k0. rewrite (isName_index k n Hk) in H0. discriminate.
Qed.

Lemma indicesBelow_cons (b : N) (k : string) (v : json) (o : Fields) :
  indicesBelow b ((k, v) :: o)
  = match arrayIndex k with Some n => (n <? b)%N | None => false end && indicesBelow b o.
Proof. reflexivity. Qed.

Lemma hasKey_below_name (k : string) (b : N) (pre : Fields) :
  isName k = true -> indicesBelow b pre = true -> hasKey k pre = false.
Proof.
  intros Hk. induction pre as [|[k0 v0] pre IH]; [reflexivity|].
  rewrite indicesBelow_cons. intros H.
  apply andb_true_iff in H as [H0 H]. rewrite hasKey_cons, (IH H), orb_false_r.
  destruct (String.eqb k0 k) eqn:E; [|reflexivity].
  apply String.eqb_eq in E. subst k0. rewrite (isName_none k Hk) in H0. discriminate.
Qed.

Lemma hasKey_below_index (k : string) (n b : N) (pre : Fields) :
  arrayIndex k = Some n -> (b <= n)%N -> indicesBelow b pre = true -> hasKey k pre = false.
Proof.
  intros Hk Hb. induction pre as [|[k0 v0] pre IH]; [reflexivity|].
  rewrite indicesBelow_cons. intros H.
  apply andb_true_iff in H as [H0 H]. rewrite hasKey_cons, (IH H), orb_false_r.
  destruct (String.eqb k0 k) eqn:E; [|reflexivity].
  apply String.eqb_eq in E. subst k0. rewrite Hk in H0. apply N.ltb_lt in H0. lia.
Qed.

Lemma indicesBelow_weaken (b b' : N) (pre : Fields) :
  (b <= b')%N -> indicesBelow b pre = true -> indicesBelow b' pre = true.
Proof.
  intros Hb. induction pre as [|[k0 v0] pre IH]; [reflexivity|].
  rewrite !indicesBelow_cons. intros H.
  apply andb_true_iff in H as [H0 H]. rewrite (IH H), andb_true_r.
  destruct (arrayIndex k0) as [n0|]; [|discriminate].
  apply N.ltb_lt in H0. apply N.ltb_lt. lia.
Qed.

Lemma indicesBelow_snoc (k : string) (v : json) (n b : N) (pre : Fields) :
  arrayIndex k = Some n -> (n < b)%N -> indicesBelow n pre = true ->
  indicesBelow b (pre ++ [(k, v)])%list = true.
Proof.
  intros Hk Hb H. apply (indicesBelow_weaken n b) in H; [|lia].
  unfold indicesBelow in *. rewrite forallb_app, H. cbn [forallb fst].
  rewrite Hk, (proj2 (N.ltb_lt n b) Hb). reflexivity.
Qed.

(** A new array index larger than the indices present goes right after
    them. *)
Lemma insertIndex_below (k : string) (v : json) (n : N) (pre d : Fields) :
  indicesBelow n pre = true -> namesOnly d = true ->
  insertIndex n k v (pre ++ d)%list = (pre ++ (k, v) :: d)%list.
Proof.
  intros Hpre Hd. induction pre as [|[k0 v0] pre IH].
  - destruct d as [|[k1 v1] d]; [reflexivity|]. rewrite namesOnly_cons in Hd.
    apply andb_true_iff in Hd as [H1 _]. cbn. now rewrite (isName_none k1 H1).
  - rewrite indicesBelow_cons in Hpre. apply andb_true_iff in Hpre as [H0 Hpre].
    cbn [app insertIndex]. destruct (arrayIndex k0) as [n0|]; [|discriminate].
    rewrite H0. f_equal. exact (IH Hpre).
Qed.

(** The spread of an object of the runtime over named properties: the
    array indices of the source come first, as the source lists them, and
    the other keys are merged in creation order. *)
Lemma fold_ordered (o : Fields) :
  forall (b : N) (pre d : Fields),
    orderedFrom b o = true ->
    indicesBelow b pre = true ->
    namesOnly d = true ->
    fold_left assign o (pre ++ d)%list
    = (pre ++ indexPart o ++ fold_left extend (namedPart o) d)%list.
Proof.
  induction o as [|[k v] o IH]; intros b pre d Ho Hpre Hd.
  - reflexivity.
  - cbn [orderedFrom] in Ho. cbn [fold_left fst snd].
    rewrite indexPart_cons, namedPart_cons.
    destruct (arrayIndex k) as [n|] eqn:Hk.
    + apply andb_true_iff in Ho as [Hb Ho]. apply N.leb_le in Hb.
      assert (Hfresh : hasKey k (pre ++ d)%list = false).
      { rewrite hasKey_app, (hasKey_below_index k n b pre Hk Hb Hpre),
          (hasKey_namesOnly k n d Hk Hd). reflexivity. }
      assert (Hset : set k v (pre ++ d)%list = ((pre ++ [(k, v)]) ++ d)%list).
      { unfold set. rewrite Hk, Hfresh.
        rewrite (insertIndex_below k v n pre d
                   (indicesBelow_weaken b n pre Hb Hpre) Hd).
        now rewrite <- app_assoc. }
      rewrite Hset, (isName_index k n Hk).
      rewrite (IH (N.succ n) (pre ++ [(k, v)])%list d Ho).
      * now rewrite <- app_assoc.
      * apply (indicesBelow_snoc k v n); [exact Hk | lia |].
        exact (indicesBelow_weaken b n pre Hb Hpre).
      * exact Hd.
    + assert (Hname : isName k = true) by (unfold isName; now rewrite Hk).
      assert (Hset : set k v (pre ++ d)%list = (pre ++ put k v d)%list).
      { rewrite (set_name k v _ Hname).
        exact (put_app_miss k v pre d (hasKey_below_name k b pre Hname Hpre)). }
      rewrite Hset, Hname.
      exact (IH b pre (put k v d) (namesOnly_ordered b o Ho) Hpre
               (namesOnly_put k v d Hname Hd)).
Qed.

Lemma fold_merge (o d : Fields) :
  ordered o = true -> namesOnly d = true ->
  fold_left assign o d = (indexPart o ++ fold_left extend (namedPart o) d)%list.
Proof.
  intros Ho Hd. exact (fold_ordered o 0%N [] d Ho eq_refl Hd).
Qed.

Lemma ordered_split (o : Fields) (b : N) :
  orderedFrom b o = true -> o = (indexPart o ++ namedPart o)%list.
Proof.
  revert b. induction o as [|[k v] o IH]; intros b H; [reflexivity|].
  cbn [orderedFrom] in H. rewrite indexPart_cons, namedPart_cons.
  destruct (arrayIndex k) as [n|] eqn:Hk.
  - apply andb_true_iff in H as [_ H]. rewrite (isName_index k n Hk).
    cbn. f_equal. exact (IH _ H).
  - assert (Hname : isName k = true) by (unfold isName; now rewrite Hk).
    rewrite Hname.
    now rewrite (namesOnly_indexPart o H), (namesOnly_namedPart o H).
Qed.

Lemma hasKey_filter (f : string * json -> bool) (k : string) (o : Fields) :
  hasKey k o = false -> hasKey k (filter f o) = false.
Proof.
  induction o as [|[k0 v0] o IH]; [reflexivity|]. rewrite hasKey_cons. intros H.
  apply orb_false_iff in H as [H0 H]. cbn [filter].
  destruct (f (k0, v0)); [rewrite hasKey_cons, H0|]; now apply IH.
Qed.

Lemma uniqueKeys_filter (f : string * json -> bool) (o : Fields) :
  uniqueKeys o = true -> uniqueKeys (filter f o) = true.
Proof.
  induction o as [|[k v] o IH]; [reflexivity|]. cbn [uniqueKeys filter]. intros H.
  apply andb_true_iff in H as [Hfresh H]. apply negb_true_iff in Hfresh.
  destruct (f (k, v)); [|now apply IH].
  cbn [uniqueKeys]. now rewrite (hasKey_filter f k o Hfresh), (IH H).
Qed.

(** Spreading an object of the runtime over named properties that it
    lists first among its own named properties, in the same order, gives
    the object itself. *)
Lemma fold_set_prefix (d o : Fields) :
  namesOnly d = true ->
  ordered o = true ->
  uniqueKeys o = true ->
  keysPrefix d (namedPart o) = true ->
  fold_left assign o d = o.
Proof.
  intros Hd Ho Hu Hp. rewrite (fold_merge o d Ho Hd).
  rewrite (fold_put_prefix d (namedPart o) Hp (uniqueKeys_filter _ o Hu)).
  symmetry. exact (ordered_split o 0%N Ho).
Qed.

(** [{ ...o }] is a copy of [o]. *)
Lemma spread_copy (o : Fields) :
  uniqueKeys o = true -> ordered o = true -> fold_left assign o [] = o.
Proof. intros Hu Ho. now apply fold_set_prefix. Qed.

(** *** Assignment keeps an object of the runtime one *)

Lemma namesOnly_hasKey (k : string) (o : Fields) :
  namesOnly o = true -> hasKey k o = true -> isName k = true.
Proof.
  intros Ho Hk. destruct (arrayIndex k) as [n|] eqn:E.
  - rewrite (hasKey_namesOnly k n o E Ho) in Hk. discriminate.
  - unfold isName. now rewrite E.
Qed.

Lemma ordered_put (k : string) (v : json) (o : Fields) (b : N) :
  isName k = true \/ hasKey k o = true ->
  orderedFrom b o = true -> orderedFrom b (put k v o) = true.
Proof.
  revert b. induction o as [|[k0 v0] o IH]; intros b Hk Ho.
  - destruct Hk as [Hk|Hk]; [|discriminate]. cbn. now rewrite (isName_none k Hk).
  - cbn [put]. destruct (String.eqb k0 k) eqn:E.
    + apply String.eqb_eq in E. subst k0. exact Ho.
    + rewrite hasKey_cons, E in Hk. cbn [orb] in Hk.
      cbn [orderedFrom] in *. destruct (arrayIndex k0) as [n0|].
      * apply andb_true_iff in Ho as [Hb Ho]. rewrite Hb. exact (IH _ Hk Ho).
      * apply namesOnly_put; [|exact Ho].
        destruct Hk as [Hk|Hk]; [exact Hk|]. exact (namesOnly_hasKey k o Ho Hk).
Qed.

Lemma ordered_insertIndex (k : string) (v : json) (n : N) (o : Fields) (b : N) :
  arrayIndex k = Some n -> hasKey k o = false -> (b <= n)%N ->
  orderedFrom b o = true -> orderedFrom b (insertIndex n k v o) = true.
Proof.
  intros Hk. revert b. induction o as [|[k0 v0] o IH]; intros b Hfresh Hb Ho.
  - cbn. rewrite Hk. now rewrite (proj2 (N.leb_le b n) Hb).
  - rewrite hasKey_cons in Hfresh. apply orb_false_iff in Hfresh as [Hne Hfresh].
    cbn [insertIndex]. cbn [orderedFrom] in Ho.
    destruct (arrayIndex k0) as [n0|] eqn:E0; [destruct (n0 <? n)%N eqn:Hlt|].
    + apply andb_true_iff in Ho as [Hb0 Ho]. cbn [orderedFrom]. rewrite E0, Hb0.
      apply N.ltb_lt in Hlt. apply IH; [exact Hfresh | lia | exact Ho].
    + apply andb_true_iff in Ho as [Hb0 Ho]. apply N.ltb_ge in Hlt.
      assert (Hneq : n <> n0).
      { intros <-. rewrite (arrayIndex_inj k0 k n E0 Hk), String.eqb_refl in Hne.
        discriminate. }
      cbn [orderedFrom]. rewrite Hk, E0, Ho, (proj2 (N.leb_le b n) Hb).
      rewrite (proj2 (N.leb_le (N.succ n) n0)) by lia. reflexivity.
    + cbn [orderedFrom]. rewrite Hk, E0, Ho, (proj2 (N.leb_le b n) Hb). reflexivity.
Qed.

Lemma ordered_set (k : string) (v : json) (o : Fields) :
  ordered o = true -> ordered (set k v o) = true.
Proof.
  intros Ho. unfold set. destruct (arrayIndex k) as [n|] eqn:Hk;
    [destruct (hasKey k o) eqn:Hh|].
  - apply ordered_put; [now right | exact Ho].
  - apply ordered_insertIndex; [exact Hk | exact Hh | lia | exact Ho].
  - apply ordered_put; [|exact Ho]. left. unfold isName. now rewrite Hk.
Qed.

Lemma uniqueKeys_insertIndex (k : string) (v : json) (n : N) (o : Fields) :
  arrayIndex k = Some n -> hasKey k o = false ->
  uniqueKeys o = true -> uniqueKeys (insertIndex n k v o) = true.
Proof.
  intros Hk. induction o as [|[k0 v0] o IH]; intros Hfresh Hu; [reflexivity|].
  pose proof Hfresh as Hfresh'.
  rewrite hasKey_cons in Hfresh. apply orb_false_iff in Hfresh as [Hne Hfresh].
  pose proof Hu as Hu'. cbn [uniqueKeys] in Hu. apply andb_true_iff in Hu as [H0 Hu].
  cbn [insertIndex].
  destruct (arrayIndex k0) as [n0|]; [destruct (n0 <? n)%N|].
  - cbn [uniqueKeys]. rewrite (IH Hfresh Hu), andb_true_r.
    unfold hasKey in *. rewrite (get_insertIndex k0 k n v o Hk), String.eqb_sym, Hne.
    exact H0.
  - cbn [uniqueKeys]. now rewrite Hfresh', H0, Hu.
  - cbn [uniqueKeys]. now rewrite Hfresh', H0, Hu.
Qed.

(** Assignment keeps an object of the runtime one: no key twice, array
    indices first and ascending. *)
Lemma uniqueKeys_set (k : string) (v : json) (o : Fields) :
  uniqueKeys o = true -> uniqueKeys (set k v o) = true.
Proof.
  intros Hu. unfold set. destruct (arrayIndex k) as [n|] eqn:Hk;
    [destruct (hasKey k o) eqn:Hh|].
  - now apply uniqueKeys_put.
  - now apply uniqueKeys_insertIndex.
  - now apply uniqueKeys_put.
Qed.

(** *** The shape of a merge over named defaults *)

Lemma hasKey_indexPart_name (k : string) (o : Fields) :
  isName k = true -> hasKey k (indexPart o) = false.
Proof.
  intros Hk. induction o as [|[k0 v0] o IH]; [reflexivity|].
  rewrite indexPart_cons. destruct (isName k0) eqn:E0; [exact IH|].
  rewrite hasKey_cons, IH, orb_false_r.
  destruct (String.eqb k0 k) eqn:E; [|reflexivity].
  apply String.eqb_eq in E. subst k0. congruence.
Qed.

Lemma hasKey_indexPart_names (k : string) (o t : Fields) :
  hasKey k (indexPart o) = true -> namesOnly t = true -> hasKey k t = false.
Proof.
  intros Hk Ht. destruct (arrayIndex k) as [n|] eqn:E.
  - exact (hasKey_namesOnly k n t E Ht).
  - rewrite hasKey_indexPart_name in Hk; [discriminate|]. unfold isName. now rewrite E.
Qed.

Lemma namedPart_app (a b : Fields) :
  namedPart (a ++ b)%list = (namedPart a ++ namedPart b)%list.
Proof. apply filter_app. Qed.

Lemma namedPart_indexPart (o : Fields) : namedPart (indexPart o) = [].
Proof.
  induction o as [|[k v] o IH]; [reflexivity|].
  rewrite indexPart_cons. destruct (isName k) eqn:E; [exact IH|].
  now rewrite namedPart_cons, E.
Qed.

Lemma namedPart_app_names (o t : Fields) :
  namesOnly t = true -> namedPart (indexPart o ++ t)%list = t.
Proof.
  intros Ht. now rewrite namedPart_app, namedPart_indexPart, (namesOnly_namedPart t Ht).
Qed.

Lemma ordered_app_names (o t : Fields) (b : N) :
  orderedFrom b o = true -> namesOnly t = true ->
  orderedFrom b (indexPart o ++ t)%list = true.
Proof.
  intros Ho Ht. revert b Ho. induction o as [|[k v] o IH]; intros b Ho.
  - now apply namesOnly_ordered.
  - cbn [orderedFrom] in Ho. rewrite indexPart_cons.
    destruct (arrayIndex k) as [n|] eqn:Hk.
    + apply andb_true_iff in Ho as [Hb Ho]. rewrite (isName_index k n Hk).
      change (((k, v) :: indexPart o) ++ t)%list with ((k, v) :: (indexPart o ++ t))%list.
      cbn [orderedFrom]. rewrite Hk, Hb. exact (IH _ Ho).
    + assert (Hname : isName k = true) by (unfold isName; now rewrite Hk).
      rewrite Hname, (namesOnly_indexPart o Ho). now apply namesOnly_ordered.
Qed.

(** The merge of an object of the runtime over named defaults is an object
    of the runtime again, and among its named properties those of the
    defaults come first, in the order of the defaults; so it stays when a
    property that is no array index is assigned afterwards. *)
Lemma merged_shape (o d : Fields) (k : string) (v : json) :
  ordered o = true -> uniqueKeys o = true ->
  namesOnly d = true -> uniqueKeys d = true ->
  isName k = true ->
  let merged := fold_left assign o d in
  (uniqueKeys merged = true /\ ordered merged = true /\
   keysPrefix d (namedPart merged) = true) /\
  (uniqueKeys (set k v merged) = true /\ ordered (set k v merged) = true /\
   keysPrefix d (namedPart (set k v merged)) = true).
Proof.
  intros Ho Hu Hd Hud Hk merged.
  set (t := fold_left extend (namedPart o) d).
  assert (Hm : merged = (indexPart o ++ t)%list) by (apply fold_merge; assumption).
  assert (Ht : namesOnly t = true).
  { apply namesOnly_fold_put; [apply namesOnly_namedPart_of | exact Hd]. }
  assert (Hut : uniqueKeys t = true) by (apply uniqueKeys_fold_put; exact Hud).
  assert (Hpt : keysPrefix d t = true) by (apply keysPrefix_fold_put, keysPrefix_refl).
  assert (Hshape : forall t', namesOnly t' = true -> uniqueKeys t' = true ->
            keysPrefix d t' = true ->
            uniqueKeys (indexPart o ++ t')%list = true /\
            ordered (indexPart o ++ t')%list = true /\
            keysPrefix d (namedPart (indexPart o ++ t')%list) = true).
  { intros t' Hn' Hu' Hp'. split; [|split].
    - apply uniqueKeys_app_intro; [now apply uniqueKeys_filter | exact Hu' |].
      intros k0 Hk0. exact (hasKey_indexPart_names k0 o t' Hk0 Hn').
    - now apply ordered_app_names.
    - now rewrite namedPart_app_names. }
  split.
  - rewrite Hm. now apply Hshape.
  - rewrite (set_name k v merged Hk), Hm.
    rewrite (put_app_miss k v (indexPart o) t (hasKey_indexPart_name k o Hk)).
    apply Hshape.
    + now apply namesOnly_put.
    + now apply uniqueKeys_put.
    + now apply keysPrefix_put.
Qed.

End JsonProperties.

(** ** SettingsStore *)

Section SettingsProperties.

Import Json Settings.

Variable DEFAULT_SETTINGS : json.
Variable filePath : string.

Local Abbreviation migrate := (Settings.migrate DEFAULT_SETTINGS).
Local Abbreviation loadWithMigration_resume :=
  (Settings.loadWithMigration_resume DEFAULT_SETTINGS filePath).
Local Abbreviation save := (Store.save validate stringifyPretty filePath).

Lemma validate_object (fs p : Fields) :
  get dpsKey fs = Some (JObj p) ->
  validate (JObj fs) = fieldChecks fs p.
Proof.
  intros Hp. unfold validate, fieldChecks. cbn [field fieldOf]. rewrite Hp.
  cbn [field fieldOf].
  repeat match goal with
         | |- context [isType ?t (get ?k ?o)] => generalize (isType t (get k o)); intro
         | |- context [negative (get ?k ?o)] => generalize (negative (get k o)); intro
         end.
  cbn.
  repeat match goal with
         | b : bool |- _ => destruct b
         end; reflexivity.
Qed.

(** Valid settings are an object whose playback settings are an object. *)
Lemma validate_shape (data : json) :
  validate data = true ->
  exists fs p, data = JObj fs /\ get dpsKey fs = Some (JObj p).
Proof.
  intros H. destruct data as [|b|n|s|l|fs].
  1-5: unfold validate in H; cbn in H; rewrite ?orb_true_r in H; cbn in H; discriminate.
  exists fs. unfold validate in H. cbn [field] in H.
  repeat match type of H with
         | (if ?c then false else _) = true => destruct c eqn:?; [discriminate|]
         end.
  destruct (get dpsKey fs) as [[|b|n|s|l|p]|] eqn:Hp.
  1-5,7: repeat match goal with
                | E : _ || _ = false |- _ =>
                  cbn [truthy isType typeOf negb orb fieldOf field] in E;
                  rewrite ?orb_true_r in E; try discriminate E; clear E
                end.
  now exists p.
Qed.

Lemma merged_defined (t : TypeOf) (x d : option json) :
  isType t x = true ->
  t <> TUndefined ->
  match x with Some v => Some v | None => d end = x.
Proof.
  destruct x; [reflexivity|]. destruct t; cbn; congruence.
Qed.

Local Abbreviation assign := (fun (o : Fields) (kv : string * json) => set (fst kv) (snd kv) o).

(** The object literal of [loadWithMigration], for settings that are an
    object and defaults that are an object of the runtime. *)
Lemma migrate_object (fs : Fields) :
  wellFormed DEFAULT_SETTINGS = true ->
  migrate (JObj fs) =
    Resolved
      (JObj (set dpsKey
               (JObj (fold_left assign (ownProps (get dpsKey fs))
                                (ownProps (field dpsKey DEFAULT_SETTINGS))))
               (fold_left assign fs (ownProps (Some DEFAULT_SETTINGS))))).
Proof.
  intros Hwf. unfold wellFormed in Hwf. apply andb_true_iff in Hwf as [Hd Hdp].
  apply andb_true_iff in Hd as [Hd Hod]. apply andb_true_iff in Hdp as [Hdp Hodp].
  unfold Settings.migrate, getDefaultValue, spread.
  change (field dpsKey (JObj fs)) with (get dpsKey fs).
  rewrite (spread_copy _ Hd Hod).
  change (ownProps (Some (JObj (ownProps (Some DEFAULT_SETTINGS)))))
    with (ownProps (Some DEFAULT_SETTINGS)).
  rewrite (spread_copy _ Hd Hod), (spread_copy _ Hdp Hodp).
  reflexivity.
Qed.

(** The two levels of a well-formed value whose playback settings are the
    object [p]. *)
Lemma wellFormed_object (fs p : Fields) :
  get dpsKey fs = Some (JObj p) ->
  wellFormed (JObj fs) = true ->
  (uniqueKeys fs = true /\ ordered fs = true) /\ (uniqueKeys p = true /\ ordered p = true).
Proof.
  intros Hp Hwf. unfold wellFormed in Hwf. cbn [ownProps field] in Hwf.
  rewrite Hp in Hwf. cbn [ownProps] in Hwf.
  apply andb_true_iff in Hwf as [H1 H2].
  apply andb_true_iff in H1 as [? ?]. apply andb_true_iff in H2 as [? ?]. auto.
Qed.

Lemma fieldChecks_transfer (fs p m pm : Fields) :
  (forall k t, k <> dpsKey -> isType t (get k fs) = true -> t <> TUndefined ->
     get k m = get k fs) ->
  (forall k t, isType t (get k p) = true -> t <> TUndefined -> get k pm = get k p) ->
  fieldChecks fs p = true ->
  fieldChecks m pm = true.
Proof.
  intros Hg Hgp Hchk. unfold fieldChecks in *.
  repeat match goal with
         | H : _ && _ = true |- _ => apply andb_true_iff in H; destruct H
         end.
  rewrite (Hg "dataFolderPath" TString), (Hg "autoDownload" TBoolean),
    (Hg "enableNotifications" TBoolean), (Hg "maxCacheEpisodes" TNumber),
    (Hg "feedUpdateInterval" TNumber), (Hgp "volume" TNumber),
    (Hgp "playbackSpeed" TNumber), (Hgp "skipIntroSeconds" TNumber);
    try assumption; try discriminate.
  repeat match goal with
         | H : ?b = true |- context [?b] => rewrite H
         end.
  reflexivity.
Qed.

(** C9 (as amended).  Let [settings] be what [load] produced: a value that
    passes [validate] and is an object of the runtime (no key twice, keys
    that are array indices first and ascending, the other keys after
    them), and let the defaults be such an object too.  Then
    [loadWithMigration] returns an object [m] such that
    (1) every top-level field other than the playback settings has the
        value found in [settings] when [settings] defines it and the default
        value otherwise, and the playback settings are merged in the same
        way, field by field, over the default playback settings;
    (2) [m] is handed to [save] (debounced) exactly when the serializations
        of [settings] and [m] differ: when they are equal the store is left
        untouched, and when they differ the cache holds [m], the store is
        dirty and the debounce timer is armed;
    (3) when no field of the defaults is named by an array index and
        [settings], among its keys that are no array index, lists the
        fields of the defaults first and in the order of the defaults (at
        the top level and in the playback settings), [m] is [settings]
        itself and the store is left untouched: nothing is written. *)
Theorem loadWithMigration_merges (settings : json) (st : Store.Store json) :
  validate settings = true ->
  wellFormed settings = true ->
  wellFormed DEFAULT_SETTINGS = true ->
  exists m pm,
    snd (loadWithMigration_resume settings st) = Resolved (JObj m) /\
    (forall k, k <> dpsKey ->
       get k m = match field k settings with
                 | Some v => Some v
                 | None => get k (ownProps (Some DEFAULT_SETTINGS))
                 end) /\
    get dpsKey m = Some (JObj pm) /\
    (forall k,
       get k pm = match fieldOf k (field dpsKey settings) with
                  | Some v => Some v
                  | None => get k (ownProps (field dpsKey DEFAULT_SETTINGS))
                  end) /\
    (stringify settings = stringify (JObj m) ->
       fst (loadWithMigration_resume settings st) = st) /\
    (stringify settings <> stringify (JObj m) ->
       fst (loadWithMigration_resume settings st) = fst (save (JObj m) false st) /\
       Store.cache (fst (loadWithMigration_resume settings st)) = Some (JObj m) /\
       Store.hasPendingChanges (fst (loadWithMigration_resume settings st)) = true /\
       Store.saveDebounceTimer (fst (loadWithMigration_resume settings st))
         = Some (Store.now st + Store.SAVE_DEBOUNCE_MS) /\
       Store.ioLog (fst (loadWithMigration_resume settings st)) = Store.ioLog st) /\
    (plainKeys DEFAULT_SETTINGS = true ->
     inDefaultOrder DEFAULT_SETTINGS settings = true ->
       JObj m = settings /\ fst (loadWithMigration_resume settings st) = st).
Proof.
  intros Hvalid Hwf HwfD.
  destruct (validate_shape settings Hvalid) as (fs & p & -> & Hp).
  destruct (wellFormed_object fs p Hp Hwf) as [[Hufs Hofs] [Hup Hop]].
  set (pm := fold_left assign p (ownProps (field dpsKey DEFAULT_SETTINGS))).
  set (top := fold_left assign fs (ownProps (Some DEFAULT_SETTINGS))).
  set (m := set dpsKey (JObj pm) top).
  assert (Hmig : migrate (JObj fs) = Resolved (JObj m)).
  { rewrite (migrate_object fs HwfD), Hp. reflexivity. }
  assert (Htop : forall k, k <> dpsKey ->
            get k m = match get k fs with
                      | Some v => Some v
                      | None => get k (ownProps (Some DEFAULT_SETTINGS))
                      end).
  { intros k Hk. unfold m. rewrite get_set.
    destruct (String.eqb dpsKey k) eqn:E.
    - apply String.eqb_eq in E. congruence.
    - unfold top. now apply get_fold_set. }
  assert (Hdps : get dpsKey m = Some (JObj pm)).
  { unfold m. now rewrite get_set, String.eqb_refl. }
  assert (Hpm : forall k,
            get k pm = match get k p with
                       | Some v => Some v
                       | None => get k (ownProps (field dpsKey DEFAULT_SETTINGS))
                       end).
  { intros k. unfold pm. now apply get_fold_set. }
  assert (Hvm : validate (JObj m) = true).
  { rewrite (validate_object m pm Hdps). rewrite (validate_object fs p Hp) in Hvalid.
    apply (fieldChecks_transfer fs p m pm); [| |exact Hvalid].
    - intros k t Hk Ht Hdef. rewrite (Htop k Hk). now apply (merged_defined t).
    - intros k t Ht Hdef. rewrite Hpm. now apply (merged_defined t). }
  assert (Hsave : save (JObj m) false st =
            (Store.setTimer (Some (Store.now st + Store.SAVE_DEBOUNCE_MS))
               (Store.setDirty true (Store.setCache (Some (JObj m)) (Store.now st) st)),
             Store.RDone)).
  { unfold Store.save, Store.scheduleDebouncedSave. now rewrite Hvm. }
  exists m, pm.
  unfold Settings.loadWithMigration_resume. rewrite Hmig, Hsave.
  split; [|split; [|split; [|split; [|split; [|split]]]]].
  - destruct (negb _); reflexivity.
  - exact Htop.
  - exact Hdps.
  - intros k. cbn [field fieldOf]. rewrite Hp. cbn [fieldOf field]. apply Hpm.
  - intros Heq. rewrite Heq, String.eqb_refl. reflexivity.
  - intros Hneq. apply String.eqb_neq in Hneq. rewrite Hneq. cbn [negb fst].
    repeat split; reflexivity.
  - intros Hplain Horder. unfold plainKeys in Hplain.
    apply andb_true_iff in Hplain as [HnD HnDp].
    unfold inDefaultOrder in Horder.
    change (ownProps (Some (JObj fs))) with fs in Horder.
    change (field dpsKey (JObj fs)) with (get dpsKey fs) in Horder.
    rewrite Hp in Horder. change (ownProps (Some (JObj p))) with p in Horder.
    apply andb_true_iff in Horder as [Hord Hordp].
    assert (Hsame : JObj m = JObj fs).
    { unfold m, pm, top.
      rewrite (fold_set_prefix _ _ HnDp Hop Hup Hordp),
        (fold_set_prefix _ _ HnD Hofs Hufs Hord).
      now rewrite (set_same _ _ _ Hp). }
    split; [exact Hsame|]. rewrite Hsame, String.eqb_refl. reflexivity.
Qed.

End SettingsProperties.

(** ** The properties on concrete inputs *)

Section ConcreteRuns.

Import Json Examples.

Local Abbreviation validate := Settings.validate.
Local Abbreviation DEFAULTS := Settings.DEFAULT_SETTINGS.
Local Abbreviation load := (Store.load defaults settingsPath).
Local Abbreviation save := (Store.save validate stringifyPretty settingsPath).
Local Abbreviation resume := (Settings.loadWithMigration_resume DEFAULTS settingsPath).
Local Abbreviation runOps :=
  (Durability.runOps json validate defaults parse stringifyPretty settingsPath).
Local Abbreviation undisturbed :=
  (Durability.undisturbed json validate defaults parse stringifyPretty settingsPath).

(** C1 on the settings store: a second [load] joins load number 0. *)
Lemma load_deduplication_witness :
  Store.loadPromise loading = Some (Store.mkLoadTask 0 5000 defaults Store.AwaitExists) /\
  load loading = (loading, Store.RLoadPromise 0).
Proof.
  split; [reflexivity|].
  exact (proj1 (load_deduplication json validate defaults parse stringifyPretty settingsPath
                  loading _ eq_refl)).
Defined.

(** C2 on the settings store: three saves 300 ms and 999 ms apart, then a
    full second of silence, give one write, of the third payload. *)
Lemma debounce_coalescing_witness :
  Forall (fun xg : json * Z => validate (fst xg) = true /\ snd xg < Store.SAVE_DEBOUNCE_MS)
         [(defaults, 300); (reorderedSettings, 999)] /\
  validate customSettings = true /\
  Store.SAVE_DEBOUNCE_MS <= 1000 /\
  Store.ioLog
    (run [Store.Advance 1000]
       (run (Store.savesWithinWindow [(defaults, 300); (reorderedSettings, 999)]
               ++ [Store.CallSave customSettings false])%list idle))
  = [Store.AdapterWrite settingsPath (stringifyPretty customSettings)].
Proof.
  assert (H1 : Forall (fun xg : json * Z =>
                         validate (fst xg) = true /\ snd xg < Store.SAVE_DEBOUNCE_MS)
                      [(defaults, 300); (reorderedSettings, 999)]).
  { repeat constructor. }
  assert (H2 : validate customSettings = true) by reflexivity.
  assert (H3 : Store.SAVE_DEBOUNCE_MS <= 1000) by (unfold Store.SAVE_DEBOUNCE_MS; lia).
  split; [exact H1|]. split; [exact H2|]. split; [exact H3|].
  destruct (debounce_coalescing json validate defaults parse stringifyPretty settingsPath
              idle _ customSettings 1000 H1 H2 H3) as (_ & _ & Hlog & _).
  exact Hlog.
Defined.

(** C2 as stated fails, in two ways.
    (1) Not every payload is accepted: [save] validates first, so a
        debounced save of settings that do not pass [validate] (here a
        negative cache size) throws and schedules nothing; after the window
        no write has occurred.
    (2) Not from every store: here the write of an earlier immediate save
        is still in flight when the burst begins and completes while the
        debounce timer is pending.  Its completion clears the dirty flag,
        so the timer callback finds nothing to write: once the window has
        elapsed no write of the last payload has been issued, the payload
        is in the cache only, and even [flush] writes nothing. *)
Lemma debounce_coalescing_counterexample :
  (validate refusedSettings = false /\
   Store.ioLog (run [Store.CallSave refusedSettings false; Store.Advance 1000] idle) = []) /\
  let s0 := run [Store.CallSave defaults true] idle in
  let s := run (Store.savesWithinWindow [(reorderedSettings, 300)]
                  ++ [Store.CallSave customSettings false;
                      Store.WriteResolves 0 true;
                      Store.Advance 1000])%list s0 in
  validate reorderedSettings = true /\
  validate customSettings = true /\
  Store.pendingWrites s0 = [Store.mkWriteTask 0 Store.FromFlush] /\
  Store.ioLog s0 = [Store.AdapterWrite settingsPath (stringifyPretty defaults)] /\
  Store.ioLog s = Store.ioLog s0 /\
  Store.cache s = Some customSettings /\
  Store.hasPendingChanges s = false /\
  Store.ioLog (run [Store.CallFlush] s) = Store.ioLog s0.
Proof. vm_compute. repeat split; reflexivity. Qed.

(** C3 on the settings store: an immediate save, then a load 1500 ms later
    while the write is still pending. *)
Lemma cached_load_hits_no_disk_witness :
  Store.loadPromise idle = None /\
  validate defaults = true /\
  1500 < Store.CACHE_TTL_MS /\
  load (run [Store.CallSave defaults true; Store.Advance 1500] idle)
  = (run [Store.CallSave defaults true; Store.Advance 1500] idle, Store.RValue defaults).
Proof.
  assert (H : 1500 < Store.CACHE_TTL_MS) by (unfold Store.CACHE_TTL_MS; lia).
  split; [reflexivity|]. split; [reflexivity|]. split; [exact H|].
  exact (proj1 (proj2 (cached_load_hits_no_disk json validate defaults parse stringifyPretty
                         settingsPath idle eq_refl)
                  defaults true 1500 eq_refl H)).
Defined.

(** C4 on the settings store: [null] is not a settings object. *)
Lemma save_rejects_invalid_payload_witness :
  validate JNull = false /\
  save JNull true idle
  = (idle, Store.RThrows (mkStorageError "Data validation failed" settingsPath)).
Proof.
  split; [reflexivity|].
  exact (proj1 (save_rejects_invalid_payload json validate stringifyPretty settingsPath
                  idle JNull true eq_refl)).
Defined.

(** C5 on the settings store: the settings file does not exist. *)
Lemma load_masks_missing_or_corrupt_file_witness :
  Store.loadPromise idle = None /\
  (Store.cache idle = None \/
   Store.CACHE_TTL_MS <= Store.now idle - Store.cacheTimestamp idle) /\
  answers [Store.CallLoad; Store.ExistsResolves (Some false); Store.LoadSettles] idle
  = [Store.RLoadPromise 0; Store.RNone; Store.RLoadSettled 0 (Resolved defaults)].
Proof.
  split; [reflexivity|]. split; [left; reflexivity|].
  exact (proj1 (proj1 (load_masks_missing_or_corrupt_file json validate defaults parse
                         stringifyPretty settingsPath idle eq_refl (or_introl eq_refl)))).
Defined.



(** A debounced save that arrives while the write of an immediate save is
    still in flight: the completion of that write clears the flag, the
    debounce callback then finds nothing to do, and the later payload stays
    in memory only.  The amended C2 and C10 leave this overlap out. *)
Example save_overlapping_a_write :
  let s := run [Store.CallSave defaults true; Store.CallSave customSettings false;
                Store.WriteResolves 0 true; Store.Advance 1000] idle in
  Store.cache s = Some customSettings /\
  Store.hasPendingChanges s = false /\
  Store.ioLog s = [Store.AdapterWrite settingsPath (stringifyPretty defaults)].
Proof. vm_compute. repeat split; reflexivity. Qed.

(** C9 (as amended) on settings saved before skipOutroSeconds existed. *)
Lemma loadWithMigration_merges_witness :
  validate partialSettings = true /\
  Settings.wellFormed partialSettings = true /\
  Settings.wellFormed DEFAULTS = true /\
  exists m, snd (resume partialSettings idle) = Resolved (JObj m).
Proof.
  split; [reflexivity|]. split; [reflexivity|]. split; [reflexivity|].
  destruct (loadWithMigration_merges DEFAULTS settingsPath partialSettings idle
              eq_refl eq_refl eq_refl) as (m & pm & H & _).
  exists m. exact H.
Defined.

(** Settings with a property named by an array index: the runtime lists
    it first, the merged object lists it first as well, the two
    serializations agree and nothing is saved.  Without such a property
    written ahead of its turn, the same key is moved to the front. *)
Example settings_with_an_array_index :
  validate numberedSettings = true /\
  Settings.wellFormed numberedSettings = true /\
  resume numberedSettings idle = (idle, Resolved numberedSettings) /\
  set "7" (JStr "seven") (ownProps (Some defaults))
  = ("7", JStr "seven") :: ownProps (Some defaults) /\
  set "07" (JStr "seven") (ownProps (Some defaults))
  = (ownProps (Some defaults) ++ [("07", JStr "seven")])%list.
Proof. vm_compute. repeat split; reflexivity. Qed.

(** C9 as stated fails: valid settings that define every field of the
    defaults, in another order, are saved again; once the debounce delay has
    passed the file is rewritten. *)
Lemma loadWithMigration_counterexample :
  validate reorderedSettings = true /\
  Settings.hasAllFields DEFAULTS reorderedSettings = true /\
  Store.hasPendingChanges (fst (resume reorderedSettings idle)) = true /\
  Store.ioLog (run [Store.Advance 1000] (fst (resume reorderedSettings idle)))
  = [Store.AdapterWrite settingsPath
       (stringifyPretty
          (JObj [("dataFolderPath", JStr "custom/path");
                 (Settings.dpsKey, JObj [("volume", JNum 1);
                                         ("playbackSpeed", JNum 2);
                                         ("skipIntroSeconds", JNum 10);
                                         ("skipOutroSeconds", JNum 5)]);
                 ("autoDownload", JBool true);
                 ("maxCacheEpisodes", JNum 50);
                 ("feedUpdateInterval", JNum 60);
                 ("enableNotifications", JBool true)]))].
Proof. vm_compute. repeat split; reflexivity. Qed.

(** C7 (as amended) on a plain RSS document. *)
Lemma detectFeedType_cascade_witness :
  Feed.sniffsRss rssDocument = true /\ detect rssDocument = Feed.RSS.
Proof.
  split; [reflexivity|].
  exact (proj1 (detectFeedType_cascade validateRss validateAtom rssDocument) eq_refl).
Defined.

(** C7 as stated fails: for an Atom document that quotes an rss tag inside
    CDATA both sniffing tests match, the schema checks say Atom, and the
    answer is RSS: validation is never consulted. *)
Lemma detectFeedType_counterexample :
  Feed.sniffsRss atomQuotingRss = true /\
  Feed.sniffsAtom atomQuotingRss = true /\
  Feed.typeByValidation validateRss validateAtom atomQuotingRss = Feed.ATOM /\
  detect atomQuotingRss = Feed.RSS /\
  detect atomQuotingRss <> Feed.typeByValidation validateRss validateAtom atomQuotingRss.
Proof. vm_compute. repeat split; try reflexivity. discriminate. Qed.

(** C8 fails on the code.  The claim is what the code sets out to do: the
    [catch] of [fetchFeedXML] rethrows the error NOT_MODIFIED before any
    fallback.  But the 304 becomes that error inside the function that is
    retried, so it is retried like a failure.  Here the tier-1 transport
    answers 304 to the first attempt and the connection breaks: the two
    retries fail, the two other transports are tried and fail, and the
    caller gets a NetworkError in place of the not-modified signal, after
    five requests. *)
Lemma not_modified_lost_after_retry :
  Feed.requestUrl interrupted 0 = Resolved (Feed.mkResponse 304 EmptyString None None) /\
  Feed.fetchFeedXML interrupted feedUrl 30000 Feed.defaultUserAgent (Some "W/abc") None
  = (Rejected (Feed.NetworkError "Failed to fetch feed" feedUrl
                 (Some (Feed.Error "getaddrinfo ENOTFOUND example.com"))),
     [Feed.ViaRequestUrl feedUrl
        (Feed.requestHeaders Feed.defaultUserAgent (Some "W/abc") None);
      Feed.ViaRequestUrl feedUrl
        (Feed.requestHeaders Feed.defaultUserAgent (Some "W/abc") None);
      Feed.ViaRequestUrl feedUrl
        (Feed.requestHeaders Feed.defaultUserAgent (Some "W/abc") None);
      Feed.ViaFetch feedUrl;
      Feed.ViaHttps feedUrl Feed.defaultUserAgent]) /\
  fst (Feed.fetchFeedXML interrupted feedUrl 30000 Feed.defaultUserAgent (Some "W/abc") None)
  <> Rejected (Feed.Error Feed.NOT_MODIFIED).
Proof.
  split; [reflexivity|]. split; [vm_compute; reflexivity|].
  vm_compute. discriminate.
Qed.

(** The error policy on a server that answers 304 to every conditional
    request: the signal propagates. *)
Lemma fetchFeedXML_always_not_modified :
  (forall i, exists r, Feed.requestUrl unchanged i = Resolved r /\ Feed.status r = 304) /\
  fst (Feed.fetchFeedXML unchanged feedUrl 30000 Feed.defaultUserAgent (Some "W/abc") None)
  = Rejected (Feed.Error Feed.NOT_MODIFIED).
Proof.
  assert (H : forall i : nat,
            exists r, Feed.requestUrl unchanged i = Resolved r /\ Feed.status r = 304).
  { intros i. exists (Feed.mkResponse 304 EmptyString None None). split; reflexivity. }
  split; [exact H|].
  exact (proj1 (proj1 (proj2 (fetchFeedXML_error_policy unchanged feedUrl 30000
                                Feed.defaultUserAgent (Some "W/abc") None)) H)).
Defined.

(** C6 (as amended) on a cached RSS document. *)
Lemma fetchFeed_cache_hit_witness :
  Feed.orDefault bool (Feed.useCache noOptions) true = true /\
  Feed.getCacheEntry (cacheOf rssDocument) 2000 feedUrl
  = Some (Feed.mkFeedCacheEntry rssDocument 1000 3600000 None None) /\
  fetchFeed (Some (cacheOf rssDocument)) offline 2000 noOptions
  = Feed.mkFetchResult string (Resolved "rss feed") [] (Some (cacheOf rssDocument)).
Proof.
  split; [reflexivity|]. split; [reflexivity|].
  refine (proj1 (fetchFeed_cache_hit validateRss validateAtom string parseRss parseAtom
                   (cacheOf rssDocument) Feed.Stored offline 2000 feedUrl noOptions
                   (Feed.mkFeedCacheEntry rssDocument 1000 3600000 None None)
                   eq_refl eq_refl) "rss feed" _ eq_refl).
  vm_compute. discriminate.
Defined.

(** C6 as stated fails: the cache holds a non-expired entry whose text the
    RSS parser reads, [useCache] is on, and still [fetchFeed] goes to the
    network: offline, it makes five requests and fails instead of returning
    the parse of the cached text. *)
Lemma fetchFeed_cache_hit_counterexample :
  Feed.getCacheEntry (cacheOf bareChannel) 2000 feedUrl
  = Some (Feed.mkFeedCacheEntry bareChannel 1000 3600000 None None) /\
  Feed.parseDetected validateRss validateAtom string parseRss parseAtom bareChannel feedUrl
  = Resolved "rss feed" /\
  Feed.outcome string (fetchFeed (Some (cacheOf bareChannel)) offline 2000 noOptions)
  = Rejected (Feed.NetworkError "Failed to fetch feed" feedUrl
                (Some (Feed.Error "getaddrinfo ENOTFOUND example.com"))) /\
  List.length (Feed.requests string (fetchFeed (Some (cacheOf bareChannel)) offline 2000 noOptions))
  = 5%nat.
Proof. vm_compute. repeat split; reflexivity. Qed.

End ConcreteRuns.

(** ** SingleFileStore: clear, delete and the data that passes through *)

Section StoreOpsProperties.

Variable T : Type.
Variable validate : T -> bool.
Variable getDefaultValue : T.
Variable JSON_parse : string -> option T.
Variable JSON_stringify : T -> string.
Variable filePath : string.

Import Store.

Local Abbreviation Store := (Store.Store T).
Local Abbreviation Event := (Store.Event T).
Local Abbreviation load := (Store.load getDefaultValue filePath).
Local Abbreviation save := (Store.save validate JSON_stringify filePath).
Local Abbreviation flush := (Store.flush JSON_stringify filePath).
Local Abbreviation advance := (Store.advance JSON_stringify filePath).
Local Abbreviation writeResolves := (Store.writeResolves filePath).
Local Abbreviation step := (Store.step validate getDefaultValue JSON_parse JSON_stringify filePath).
Local Abbreviation exec := (Store.exec validate getDefaultValue JSON_parse JSON_stringify filePath).
Local Abbreviation replies := (Store.replies validate getDefaultValue JSON_parse JSON_stringify filePath).
Local Abbreviation clear := (StoreOps.clear T validate getDefaultValue JSON_stringify filePath).
Local Abbreviation delete := (StoreOps.delete T filePath).
Local Abbreviation delete_removeResolves := (StoreOps.delete_removeResolves T filePath).
Local Abbreviation onlyValidData :=
  (StoreOps.onlyValidData T validate getDefaultValue JSON_stringify filePath).
Local Abbreviation validReply := (StoreOps.validReply T validate getDefaultValue).

(** X1.  [clear()] with a valid default value: the default is written at
    once, whatever timer was pending is cancelled, and when the write
    succeeds the cache is dropped, so the store is clean and the next
    [load] goes to disk; when the write fails the StorageError of
    [writeJson] comes out and the cache keeps the default, still dirty.
    With a default value that fails [validate], [clear()] throws before
    touching anything. *)
Theorem clear_writes_default_then_drops_cache (s : Store) :
  (validate getDefaultValue = true ->
     snd (clear true s) = Resolved tt /\
     ioLog (fst (clear true s))
       = AdapterWrite filePath (JSON_stringify getDefaultValue) :: ioLog s /\
     cache (fst (clear true s)) = None /\
     isDirty (fst (clear true s)) = false /\
     saveDebounceTimer (fst (clear true s)) = None /\
     (loadPromise s = None ->
        ioLog (fst (load (fst (clear true s))))
          = AdapterExists filePath :: ioLog (fst (clear true s)))) /\
  (validate getDefaultValue = true ->
     snd (clear false s)
       = Rejected (mkStorageError ("Failed to write file " ++ filePath) filePath) /\
     cache (fst (clear false s)) = Some getDefaultValue /\
     isDirty (fst (clear false s)) = true) /\
  (validate getDefaultValue = false ->
     forall ok, clear ok s
       = (s, Rejected (mkStorageError "Data validation failed" filePath))).
Proof.
  destruct s as [c ts dirty timer lp t n pw log].
  split; [|split]; intros Hv; unfold StoreOps.clear; unfold_ops; rewrite Hv; unfold_ops;
    cbn [Store.findWrite Store.removeWrite Store.wid]; rewrite ?Nat.eqb_refl; unfold_ops.
  - repeat split; try reflexivity. intros ->. reflexivity.
  - repeat split; reflexivity.
  - intros ok. reflexivity.
Qed.

(** A store that is not dirty issues no write, and stays clean, until
    [save] is called. *)
Lemma clean_step (e : Event) (s : Store) :
  isDirty s = false ->
  StoreOps.notSave T e = true ->
  isDirty (fst (step e s)) = false /\
  diskWrites (fst (step e s)) = diskWrites s.
Proof.
  intros Hd He. destruct s as [c ts dirty timer lp t n pw log].
  cbn in Hd. subst dirty.
  destruct e; try discriminate; unfold_ops;
    repeat (break_match; unfold_ops); split; reflexivity.
Qed.

Lemma clean_schedule (es : list Event) (s : Store) :
  isDirty s = false ->
  forallb (StoreOps.notSave T) es = true ->
  isDirty (exec es s) = false /\
  diskWrites (exec es s) = diskWrites s.
Proof.
  revert s. induction es as [|e es IH]; intros s Hd Hes.
  - split; [exact Hd | reflexivity].
  - cbn in Hes. apply andb_true_iff in Hes as [He Hes].
    destruct (clean_step e s Hd He) as [Hd1 Hw1].
    destruct (IH _ Hd1 Hes) as [Hd2 Hw2].
    unfold Store.exec in *. cbn [Store.run].
    destruct (step e s) as [s1 r1]. cbn [fst] in *.
    destruct (Store.run _ _ _ _ _ es s1) as [s2 rs]. cbn [fst] in *.
    split; congruence.
Qed.

(** X2.  [delete()] discards a pending save: as soon as it is called the
    debounce timer is cancelled and the dirty flag cleared, so along every
    schedule without a new [save] (timer ticks, [flush], loads, write
    completions) no write is issued.  When the existence check says the
    file is absent, or fails, nothing is removed and the call completes
    with the cache dropped; when [adapter.remove] fails, the StorageError
    of [deleteFile] comes out and the cache is kept. *)
Theorem delete_discards_pending_save (s : Store) :
  saveDebounceTimer (delete s) = None /\
  hasPendingChanges (delete s) = false /\
  (forall es, forallb (StoreOps.notSave T) es = true ->
     diskWrites (exec es (delete s)) = diskWrites s /\
     hasPendingChanges (exec es (delete s)) = false) /\
  (forall r s1, r <> Some true ->
     StoreOps.delete_existsResolves T r s1 = (invalidateCache s1, StoreOps.DeleteDone)) /\
  (forall s1,
     delete_removeResolves false s1
     = (s1, StoreOps.DeleteThrows
              (mkStorageError ("Failed to delete file " ++ filePath) filePath))).
Proof.
  split; [reflexivity|]. split; [reflexivity|]. split; [|split].
  - intros es Hes.
    destruct (clean_schedule es (delete s) eq_refl Hes) as [Hd Hw].
    split; [|exact Hd]. rewrite Hw. destruct s. reflexivity.
  - intros [[|]|] s1 Hr; try reflexivity. congruence.
  - reflexivity.
Qed.


(** X4.  A debounced write that fails is swallowed and not retried: the
    timer callback issues the write of the cached value; when the adapter
    rejects it nothing is reported, the store stays dirty with no timer
    armed, so no amount of waiting writes again; the next [flush] issues
    the write of the same value. *)
Theorem failed_debounced_write_waits_for_flush (s : Store) (c : T) (deadline d : Z) :
  isDirty s = true ->
  cache s = Some c ->
  saveDebounceTimer s = Some deadline ->
  deadline <= now s + d ->
  let s1 := advance d s in
  let s2 := fst (writeResolves (nextId s) false s1) in
  ioLog s1 = AdapterWrite filePath (JSON_stringify c) :: ioLog s /\
  snd (writeResolves (nextId s) false s1) = RNone /\
  hasPendingChanges s2 = true /\
  saveDebounceTimer s2 = None /\
  (forall d', ioLog (advance d' s2) = ioLog s1) /\
  ioLog (fst (flush s2)) = AdapterWrite filePath (JSON_stringify c) :: ioLog s1.
Proof.
  intros Hd Hc Ht Hdue. destruct s as [c0 ts dirty timer lp t n pw log].
  cbn in Hd, Hc, Ht, Hdue. subst dirty c0 timer.
  apply Z.leb_le in Hdue. unfold_ops. rewrite Hdue. unfold_ops.
  cbn [Store.findWrite Store.removeWrite Store.wid Store.kind]. rewrite Nat.eqb_refl.
  unfold_ops. cbn [Store.kind]. repeat split; reflexivity.
Qed.

(** One step keeps the data valid and answers with valid data. *)
Lemma valid_step (e : Event) (s : Store) :
  onlyValidData s ->
  onlyValidData (fst (step e s)) /\ validReply (snd (step e s)).
Proof.
  intros (Hc & Hl & Hlog). destruct s as [c ts dirty timer lp t n pw log].
  unfold StoreOps.onlyValidData, StoreOps.validReply, StoreOps.validOutcome in *.
  cbn [cache loadPromise ioLog] in Hc, Hl, Hlog.
  assert (Hw : forall x, validate x = true ->
            Forall (StoreOps.validWrite T validate JSON_stringify filePath)
                   (AdapterWrite filePath (JSON_stringify x) :: log)).
  { intros x Hx. constructor; [|exact Hlog]. split; [reflexivity|]. now exists x. }
  assert (Hr : forall c0, Forall (StoreOps.validWrite T validate JSON_stringify filePath)
                            (c0 :: log) ->
               StoreOps.validWrite T validate JSON_stringify filePath c0)
    by (intros c0 H0; now inversion H0).
  destruct e; unfold Store.readResolves, Store.safeJsonParse; unfold_ops;
    repeat (break_match; unfold_ops);
    repeat match goal with
           | H : Some _ = Some _ |- _ => injection H as H; subst
           | H : negb _ = _ |- _ => first [apply negb_true_iff in H | apply negb_false_iff in H]
           end;
    repeat split; auto; try discriminate;
    try (constructor; [exact I | assumption]);
    try (apply Hw; assumption).
Qed.

(** X5.  Whatever the schedule, starting from a fresh store: the cache
    only ever holds data that passed [validate], every write handed to the
    adapter goes to the file of the store and carries the serialization of
    data that passed [validate], a [load] served from the cache answers
    validated data, and a [load] served from disk answers validated data
    or the default value.  (Values are immutable here: a caller that
    mutates an object after handing it to [save] is outside the model.) *)
Theorem store_handles_only_valid_data (es : list Event) (t0 : Z) :
  onlyValidData (exec es (initial t0)) /\
  Forall validReply (replies es (initial t0)).
Proof.
  assert (Hgen : forall s, onlyValidData s ->
            onlyValidData (exec es s) /\ Forall validReply (replies es s)).
  { induction es as [|e es' IH]; intros s Hs.
    - split; [exact Hs | constructor].
    - destruct (valid_step e s Hs) as [Hs1 Hr1].
      destruct (IH _ Hs1) as [Hs2 Hrs].
      unfold Store.exec, Store.replies in *. cbn [Store.run].
      destruct (step e s) as [s1 r1]. cbn [fst snd] in *.
      destruct (Store.run _ _ _ _ _ es' s1) as [s2 rs]. cbn [fst snd] in *.
      split; [exact Hs2 | now constructor]. }
  apply Hgen. repeat split; constructor.
Qed.

End StoreOpsProperties.

(** ** MultiFileStore *)

Section FilesProperties.

Import Files.

Variable dirPath : string.
Variable normalizePath : string -> string.

Local Abbreviation getItemFilePath := (Files.getItemFilePath dirPath normalizePath).
Local Abbreviation listItemIds := (Files.listItemIds dirPath).
Local Abbreviation deleteItem := (Files.deleteItem dirPath normalizePath).
Local Abbreviation clear := (Files.clear dirPath).

Lemma split_nonempty (sep : ascii) (s : string) : split sep s <> [].
Proof.
  destruct s as [|c s]; cbn; [discriminate|].
  destruct (Ascii.eqb c sep); [discriminate|].
  destruct (split sep s); discriminate.
Qed.

Lemma includes_cons_false (needle : string) (c : ascii) (s : string) :
  Feed.includes needle (String c s) = false ->
  String.prefix needle (String c s) = false /\ Feed.includes needle s = false.
Proof.
  cbn [Feed.includes]. destruct (String.prefix needle (String c s)); [discriminate|].
  auto.
Qed.

Lemma no_slash_head (c : ascii) (s : string) :
  Feed.includes "/" (String c s) = false ->
  Ascii.eqb c slash = false /\ Feed.includes "/" s = false.
Proof.
  intros H. apply includes_cons_false in H as [Hp Hs]. split; [|exact Hs].
  cbn in Hp. destruct (ascii_dec "/" c) as [<-|Hne].
  - destruct s; discriminate.
  - apply Ascii.eqb_neq. intros ->. now apply Hne.
Qed.

(** A name without slash followed by the extension is one segment. *)
Lemma split_plain_name (name : string) :
  Feed.includes "/" name = false ->
  split slash (name ++ ".json") = [name ++ ".json"].
Proof.
  induction name as [|c r IH]; intros H; [reflexivity|].
  apply no_slash_head in H as [Hc Hr].
  cbn [append split]. rewrite Hc, (IH Hr). reflexivity.
Qed.

Lemma last_split_app (a b d : string) :
  List.last (split slash (a ++ String slash b)) d = List.last (split slash b) d.
Proof.
  induction a as [|c a IH].
  - cbn [append split]. rewrite Ascii.eqb_refl.
    destruct (split slash b) eqn:E; [now apply split_nonempty in E | reflexivity].
  - cbn [append split]. destruct (Ascii.eqb c slash).
    + destruct (split slash (a ++ String slash b)) eqn:E;
        [now apply split_nonempty in E | exact IH].
    + destruct (split slash (a ++ String slash b)) as [|h t] eqn:E;
        [now apply split_nonempty in E |].
      destruct t as [|h2 t].
      * exfalso. clear IH. revert h E. induction a as [|c2 a IHa]; intros h E.
        -- cbn [append split] in E. rewrite Ascii.eqb_refl in E.
           destruct (split slash b) eqn:Eb; [now apply split_nonempty in Eb | discriminate].
        -- cbn [append split] in E. destruct (Ascii.eqb c2 slash).
           ++ destruct (split slash (a ++ String slash b)) eqn:Ea;
                [now apply split_nonempty in Ea | discriminate].
           ++ destruct (split slash (a ++ String slash b)) as [|h3 [|h4 t3]] eqn:Ea;
                [now apply split_nonempty in Ea | now apply (IHa h3) | discriminate].
      * exact IH.
Qed.

Lemma endsWith_app (suffix x : string) : endsWith suffix (x ++ suffix) = true.
Proof.
  induction x as [|c x IH].
  - cbn [append]. destruct suffix; cbn [endsWith]; now rewrite String.eqb_refl.
  - cbn [append endsWith]. destruct (String.eqb (String c (x ++ suffix)) suffix);
      [reflexivity | exact IH].
Qed.

Lemma prefix_nil (s : string) : String.prefix EmptyString s = true.
Proof. now destruct s. Qed.

Lemma prefix_nil_r (a : ascii) (s : string) : String.prefix (String a s) EmptyString = false.
Proof. reflexivity. Qed.

Lemma prefix_cons (a b : ascii) (s1 s2 : string) :
  String.prefix (String a s1) (String b s2) = Ascii.eqb a b && String.prefix s1 s2.
Proof.
  cbn [String.prefix]. destruct (ascii_dec a b) as [->|H].
  - now rewrite Ascii.eqb_refl.
  - apply Ascii.eqb_neq in H. now rewrite H.
Qed.

(** The extension cannot start inside a name that does not contain it:
    the dot occurs in the extension once, at its head. *)
Lemma extension_not_earlier (c : ascii) (r : string) :
  String.prefix ".json" (String c r) = false ->
  String.prefix ".json" (String c r ++ ".json") = false.
Proof.
  intros H.
  destruct r as [|c2 [|c3 [|c4 [|c5 r]]]]; cbn [append] in *;
    rewrite ?prefix_cons, ?prefix_nil, ?prefix_nil_r in *;
    repeat match goal with
           | |- context [Ascii.eqb ?a ?b] =>
             destruct (Ascii.eqb_spec a b); [subst|]; cbn [andb] in *
           | H : context [Ascii.eqb ?a ?b] |- _ =>
             destruct (Ascii.eqb_spec a b); [subst|]; cbn [andb] in *
           end;
    try reflexivity; try discriminate; try congruence.
Qed.

Lemma replaceFirst_extension (id : string) :
  Feed.includes ".json" id = false ->
  replaceFirst ".json" EmptyString (id ++ ".json") = id.
Proof.
  induction id as [|c r IH]; intros H; [reflexivity|].
  apply includes_cons_false in H as [Hp Hr].
  change (replaceFirst ".json" EmptyString (String c r ++ ".json"))
    with (if String.prefix ".json" (String c r ++ ".json")
          then EmptyString ++ drop (String.length ".json") (String c r ++ ".json")
          else String c (replaceFirst ".json" EmptyString (r ++ ".json"))).
  rewrite (extension_not_earlier c r Hp), (IH Hr). reflexivity.
Qed.

Lemma itemIdOf_file (dir id : string) :
  plainId id = true ->
  itemIdOf (dir ++ "/" ++ id ++ ".json") = id /\
  endsWith ".json" (dir ++ "/" ++ id ++ ".json") = true.
Proof.
  intros H. unfold plainId in H. apply andb_true_iff in H as [Hs He].
  apply negb_true_iff in Hs, He. split.
  - unfold itemIdOf.
    change (dir ++ "/" ++ id ++ ".json") with (dir ++ String slash (id ++ ".json")).
    rewrite last_split_app, (split_plain_name id Hs). cbn [List.last].
    now apply replaceFirst_extension.
  - change (dir ++ "/" ++ id ++ ".json") with (dir ++ String slash (id ++ ".json")).
    replace (dir ++ String slash (id ++ ".json"))
      with ((dir ++ String slash id) ++ ".json").
    + apply endsWith_app.
    + clear. induction dir as [|c d IH]; cbn [append]; [reflexivity | now rewrite IH].
Qed.

(** X6.  [listItemIds] gives back the identifiers the files were saved
    under: when the directory lists exactly the files [getItemFilePath]
    names for [ids], each identifier free of slashes and of the text .json
    and each path left as it is by [normalizePath], the answer is [ids], in
    the order of the listing.  A directory that does not exist lists no
    identifiers and is not an error. *)
Theorem listItemIds_inverts_getItemFilePath (a : Adapter) (ids : list string) :
  Forall (fun id => plainId id = true /\
                    getItemFilePath id = dirPath ++ "/" ++ id ++ ".json") ids ->
  (existsAt a dirPath = Some true ->
   listAt a dirPath = Some (map getItemFilePath ids) ->
   fst (listItemIds a) = Resolved ids) /\
  (existsAt a dirPath = Some false ->
   listItemIds a = (Resolved [], [Exists dirPath])).
Proof.
  intros Hids. split.
  - intros Hex Hlist. unfold Files.listItemIds, listFiles. rewrite Hex, Hlist.
    cbn [fst]. f_equal. clear Hlist.
    induction Hids as [|id ids [Hplain Hpath] _ IH]; [reflexivity|].
    cbn [map filter]. rewrite Hpath.
    destruct (itemIdOf_file dirPath id Hplain) as [Hid Hend].
    rewrite Hend. cbn [map]. rewrite Hid. f_equal. exact IH.
  - intros Hex. unfold Files.listItemIds, listFiles. now rewrite Hex.
Qed.

Lemma deleteAll_all_removed (a : Adapter) (files : list string) :
  forallb (removeAt a) files = true ->
  deleteAll a files = (Resolved tt, map Remove files).
Proof.
  induction files as [|f files IH]; intros H; [reflexivity|].
  cbn in H. apply andb_true_iff in H as [Hf Hrest].
  cbn [deleteAll deleteFile]. rewrite Hf, (IH Hrest). reflexivity.
Qed.

Lemma deleteAll_stops (a : Adapter) (done rest : list string) (f : string) :
  forallb (removeAt a) done = true ->
  removeAt a f = false ->
  deleteAll a (done ++ f :: rest)%list
  = (Rejected (mkStorageError ("Failed to delete file " ++ f) f),
     map Remove (done ++ [f])%list).
Proof.
  induction done as [|g done IH]; intros Hdone Hf.
  - cbn [app deleteAll deleteFile map]. now rewrite Hf.
  - cbn in Hdone. apply andb_true_iff in Hdone as [Hg Hdone].
    change ((g :: done) ++ f :: rest)%list with (g :: (done ++ f :: rest))%list.
    cbn [deleteAll deleteFile]. rewrite Hg, (IH Hdone Hf). reflexivity.
Qed.

(** X7.  [MultiFileStore.clear] removes the files the directory lists, in
    the order of the listing: when every removal succeeds all of them are
    removed and the call succeeds; at the first removal that fails the
    StorageError naming that file comes out and the files after it are
    never touched; a directory that does not exist is left alone. *)
Theorem clear_removes_listed_files (a : Adapter) (files : list string) :
  existsAt a dirPath = Some true ->
  listAt a dirPath = Some files ->
  (forallb (removeAt a) files = true ->
     clear a = (Resolved tt, [Exists dirPath; List dirPath] ++ map Remove files)%list) /\
  (forall done f rest,
     files = (done ++ f :: rest)%list ->
     forallb (removeAt a) done = true ->
     removeAt a f = false ->
     clear a = (Rejected (mkStorageError ("Failed to delete file " ++ f) f),
                [Exists dirPath; List dirPath] ++ map Remove (done ++ [f]))%list).
Proof.
  intros Hex Hlist. unfold Files.clear, listFiles. rewrite Hex, Hlist. split.
  - intros Hall. now rewrite (deleteAll_all_removed a files Hall).
  - intros done f rest -> Hdone Hf. now rewrite (deleteAll_stops a done rest f Hdone Hf).
Qed.

(** X8.  [deleteItem] never fails because of the existence check: when
    [adapter.exists] rejects, or says the file is absent, no removal is
    attempted and the call succeeds; only a removal that fails produces
    an error, the StorageError carrying the path of the item. *)
Theorem deleteItem_error_behaviour (a : Adapter) (id : string) :
  (existsAt a (getItemFilePath id) <> Some true ->
     deleteItem a id = (Resolved tt, [Exists (getItemFilePath id)])) /\
  (existsAt a (getItemFilePath id) = Some true ->
     snd (deleteItem a id) = [Exists (getItemFilePath id); Remove (getItemFilePath id)] /\
     fst (deleteItem a id)
     = if removeAt a (getItemFilePath id) then Resolved tt
       else Rejected (mkStorageError ("Failed to delete file " ++ getItemFilePath id)
                                     (getItemFilePath id))).
Proof.
  unfold Files.deleteItem, fileExists, deleteFile. split.
  - intros H. destruct (existsAt a (getItemFilePath id)) as [[|]|]; try reflexivity.
    congruence.
  - intros ->. split; reflexivity.
Qed.

End FilesProperties.

(** ** SettingsStore: updates and repeated migration *)

Section SettingsOpsProperties.

Import Json Settings.

Variable DEFAULT_SETTINGS : json.
Variable filePath : string.
Variable normalizePath : string -> string.

Local Abbreviation migrate := (Settings.migrate DEFAULT_SETTINGS).
Local Abbreviation loadWithMigration_resume :=
  (Settings.loadWithMigration_resume DEFAULT_SETTINGS filePath).
Local Abbreviation updateSetting_resume := (SettingsOps.updateSetting_resume filePath).
Local Abbreviation accepted := SettingsOps.accepted.
Local Abbreviation assign := (fun (o : Fields) (kv : string * json) => set (fst kv) (snd kv) o).

(** X9.  Migration is a projection.  Let the defaults be an object of the
    runtime none of whose fields is named by an array index.  For settings
    that [load] can produce (valid, an object of the runtime), the object
    [loadWithMigration] builds is valid again, is an object of the runtime
    again, and, among its keys that are no array index, lists the fields
    of the defaults first and in the order of the defaults; migrating it
    once more gives the same object, so a second [loadWithMigration] that
    loads it returns it as it is and leaves the store untouched: nothing is
    saved twice. *)
Theorem loadWithMigration_idempotent (settings : json) (st : Store.Store json) :
  validate settings = true ->
  wellFormed settings = true ->
  wellFormed DEFAULT_SETTINGS = true ->
  plainKeys DEFAULT_SETTINGS = true ->
  exists m,
    migrate settings = Resolved m /\
    validate m = true /\
    wellFormed m = true /\
    inDefaultOrder DEFAULT_SETTINGS m = true /\
    migrate m = Resolved m /\
    loadWithMigration_resume m st = (st, Resolved m).
Proof.
  intros Hvalid Hwf HwfD Hplain.
  destruct (validate_shape settings Hvalid) as (fs & p & -> & Hp).
  pose proof HwfD as HwfD'. unfold wellFormed in HwfD'.
  apply andb_true_iff in HwfD' as [HuD HuDp].
  apply andb_true_iff in HuD as [HuD _]. apply andb_true_iff in HuDp as [HuDp _].
  unfold plainKeys in Hplain. apply andb_true_iff in Hplain as [HnD HnDp].
  destruct (wellFormed_object fs p Hp Hwf) as [[Hufs Hofs] [Hup Hop]].
  set (D := ownProps (Some DEFAULT_SETTINGS)) in *.
  set (Dp := ownProps (field dpsKey DEFAULT_SETTINGS)) in *.
  set (pm := fold_left assign p Dp).
  set (top := fold_left assign fs D).
  set (m := set dpsKey (JObj pm) top).
  assert (Hmig : migrate (JObj fs) = Resolved (JObj m)).
  { rewrite (migrate_object DEFAULT_SETTINGS fs HwfD), Hp. reflexivity. }
  assert (Hdps : get dpsKey m = Some (JObj pm)).
  { unfold m. now rewrite get_set, String.eqb_refl. }
  assert (Htop : forall k, k <> dpsKey ->
            get k m = match get k fs with
                      | Some v => Some v
                      | None => get k D
                      end).
  { intros k Hk. unfold m. rewrite get_set.
    destruct (String.eqb dpsKey k) eqn:E.
    - apply String.eqb_eq in E. congruence.
    - unfold top. now apply get_fold_set. }
  assert (Hpm : forall k,
            get k pm = match get k p with
                       | Some v => Some v
                       | None => get k Dp
                       end).
  { intros k. unfold pm. now apply get_fold_set. }
  assert (Hvm : validate (JObj m) = true).
  { rewrite (validate_object m pm Hdps). rewrite (validate_object fs p Hp) in Hvalid.
    apply (fieldChecks_transfer fs p m pm); [| |exact Hvalid].
    - intros k t Hk Ht Hdef. rewrite (Htop k Hk). now apply (merged_defined t).
    - intros k t Ht Hdef. rewrite Hpm. now apply (merged_defined t). }
  assert (Hname : isName dpsKey = true) by reflexivity.
  destruct (merged_shape fs D dpsKey (JObj pm) Hofs Hufs HnD HuD Hname)
    as [_ (Hum & Hordm & Hom)].
  destruct (merged_shape p Dp dpsKey JNull Hop Hup HnDp HuDp Hname)
    as [(Hupm & Hordpm & Hopm) _].
  fold top in Hum, Hordm, Hom. fold m in Hum, Hordm, Hom.
  fold pm in Hupm, Hordpm, Hopm.
  assert (Hagain : migrate (JObj m) = Resolved (JObj m)).
  { rewrite (migrate_object DEFAULT_SETTINGS m HwfD), Hdps.
    change (ownProps (Some (JObj pm))) with pm.
    fold D Dp.
    rewrite (fold_set_prefix Dp pm HnDp Hordpm Hupm Hopm),
      (fold_set_prefix D m HnD Hordm Hum Hom).
    now rewrite (set_same _ _ _ Hdps). }
  exists (JObj m). split; [exact Hmig|]. split; [exact Hvm|].
  split; [|split; [|split]].
  - unfold wellFormed. cbn [ownProps field]. rewrite Hdps. cbn [ownProps].
    now rewrite Hum, Hupm, Hordm, Hordpm.
  - unfold inDefaultOrder. cbn [field]. rewrite Hdps.
    change (ownProps (Some (JObj m))) with m.
    change (ownProps (Some (JObj pm))) with pm.
    fold D Dp. now rewrite Hom, Hopm.
  - exact Hagain.
  - unfold Settings.loadWithMigration_resume. rewrite Hagain, String.eqb_refl. reflexivity.
Qed.

(** An update whose result passes [validate] goes through. *)
Lemma updateSetting_accepted (key : string) (value : json) (fs : Fields) (isCache : bool)
  (st : Store.Store json) :
  validate (JObj (set key value fs)) = true ->
  accepted key value fs st (updateSetting_resume key value fs isCache st).
Proof.
  intros Hv. unfold SettingsOps.accepted, SettingsOps.updateSetting_resume, Store.save.
  rewrite Hv. destruct st as [c ts dirty timer lp t n pw log].
  destruct isCache; cbn [negb]; unfold_ops.
  all: (repeat split; try reflexivity;
        [now rewrite get_set, String.eqb_refl
        |intros k Hk; rewrite get_set;
         destruct (String.eqb key k) eqn:E; [apply String.eqb_eq in E; congruence | reflexivity]]).
Qed.

(** The checks of [validate] after one top-level property was assigned. *)
Lemma validate_set (key : string) (value : json) (fs : Fields) :
  validate (JObj fs) = true ->
  key <> dpsKey ->
  exists p, get dpsKey fs = Some (JObj p) /\
            fieldChecks fs p = true /\
            validate (JObj (set key value fs)) = fieldChecks (set key value fs) p.
Proof.
  intros Hv Hk. destruct (validate_shape (JObj fs) Hv) as (fs' & p & [= <-] & Hp).
  exists p. split; [exact Hp|]. split.
  - now rewrite <- (validate_object fs p Hp).
  - apply validate_object. rewrite get_set.
    destruct (String.eqb key dpsKey) eqn:E; [apply String.eqb_eq in E; congruence | exact Hp].
Qed.

Ltac eval_key_tests :=
  repeat match goal with
         | |- context [String.eqb ?a ?b] =>
           let r := eval vm_compute in (String.eqb a b) in
           change (String.eqb a b) with r
         end;
  cbv iota.

Ltac settle_field_checks Hchk :=
  unfold fieldChecks in *; rewrite !get_set; eval_key_tests;
  repeat match type of Hchk with
         | _ && _ = true => let H := fresh "Hc" in apply andb_true_iff in Hchk as [Hchk H]
         end;
  repeat match goal with
         | H : _ && _ = true |- _ => let H' := fresh "Hc" in apply andb_true_iff in H as [H H']
         end;
  repeat match goal with
         | H : ?b = true |- context [?b] => rewrite H
         end.

(** X10.  The typed update methods never fail on valid settings: whatever
    the argument (an integer for the two numeric methods), the value stored
    passes [validate], so [save] accepts it; the cache then holds the
    settings with that one property changed, and a debounced save is
    pending.  Negative counts and intervals are stored as 0. *)
Theorem typed_updates_are_accepted (fs : Fields) (isCache : bool) (st : Store.Store json) :
  validate (JObj fs) = true ->
  (forall path,
     accepted "dataFolderPath" (JStr (normalizePath path)) fs st
       (SettingsOps.updateDataFolderPath_resume filePath normalizePath path fs isCache st)) /\
  (forall enabled,
     accepted "autoDownload" (JBool enabled) fs st
       (SettingsOps.updateAutoDownload_resume filePath enabled fs isCache st)) /\
  (forall count,
     accepted "maxCacheEpisodes" (JNum (Z.max 0 count)) fs st
       (SettingsOps.updateMaxCacheEpisodes_resume filePath count fs isCache st) /\
     (count < 0 -> get "maxCacheEpisodes" (set "maxCacheEpisodes" (JNum (Z.max 0 count)) fs)
                   = Some (JNum 0))) /\
  (forall interval,
     accepted "feedUpdateInterval" (JNum (Z.max 0 interval)) fs st
       (SettingsOps.updateFeedUpdateInterval_resume filePath interval fs isCache st)) /\
  (forall enabled,
     accepted "enableNotifications" (JBool enabled) fs st
       (SettingsOps.updateNotifications_resume filePath enabled fs isCache st)).
Proof.
  intros Hv.
  assert (Hnum : forall n, (Z.max 0 n <? 0) = false) by (intros n; apply Z.ltb_ge; lia).
  split; [|split; [|split; [|split]]]; [| |intros count; split| |].
  - intros path. apply updateSetting_accepted.
    destruct (validate_set "dataFolderPath" (JStr (normalizePath path)) fs Hv)
      as (p & Hp & Hchk & ->); [discriminate|].
    settle_field_checks Hchk. reflexivity.
  - intros enabled. apply updateSetting_accepted.
    destruct (validate_set "autoDownload" (JBool enabled) fs Hv)
      as (p & Hp & Hchk & ->); [discriminate|].
    settle_field_checks Hchk. reflexivity.
  - apply updateSetting_accepted.
    destruct (validate_set "maxCacheEpisodes" (JNum (Z.max 0 count)) fs Hv)
      as (p & Hp & Hchk & ->); [discriminate|].
    settle_field_checks Hchk. cbn [isType typeOf negative]. rewrite Hnum. reflexivity.
  - intros Hneg. rewrite get_set, String.eqb_refl. do 2 f_equal. lia.
  - intros interval. apply updateSetting_accepted.
    destruct (validate_set "feedUpdateInterval" (JNum (Z.max 0 interval)) fs Hv)
      as (p & Hp & Hchk & ->); [discriminate|].
    settle_field_checks Hchk. cbn [isType typeOf negative]. rewrite Hnum. reflexivity.
  - intros enabled. apply updateSetting_accepted.
    destruct (validate_set "enableNotifications" (JBool enabled) fs Hv)
      as (p & Hp & Hchk & ->); [discriminate|].
    settle_field_checks Hchk. reflexivity.
Qed.

(** X11.  [updateSetting] assigns before it validates.  When the object
    [load] handed out is the cached one and the new value makes the
    settings invalid, [save] throws 'Data validation failed' and schedules
    nothing, but the cache already holds the rejected settings: a [load]
    within the time to live answers them, and if a save was pending, the
    next [flush], or the debounce timer when it fires, writes them to the
    file.  When the object is not the cached one, the store is left as it
    was. *)
Theorem updateSetting_assigns_before_validating (key : string) (value : json) (fs : Fields)
  (st : Store.Store json) :
  Store.cache st = Some (JObj fs) ->
  validate (JObj (set key value fs)) = false ->
  let rejected := JObj (set key value fs) in
  let r := updateSetting_resume key value fs true st in
  snd r = Store.RThrows (mkStorageError "Data validation failed" filePath) /\
  Store.cache (fst r) = Some rejected /\
  Store.hasPendingChanges (fst r) = Store.hasPendingChanges st /\
  Store.saveDebounceTimer (fst r) = Store.saveDebounceTimer st /\
  Store.ioLog (fst r) = Store.ioLog st /\
  (Store.loadPromise st = None ->
   Store.now st - Store.cacheTimestamp st < Store.CACHE_TTL_MS ->
   Store.load (getDefaultValue DEFAULT_SETTINGS) filePath (fst r) = (fst r, Store.RValue rejected)) /\
  (Store.isDirty st = true ->
   Store.ioLog (fst (Store.flush stringifyPretty filePath (fst r)))
   = Store.AdapterWrite filePath (stringifyPretty rejected) :: Store.ioLog st) /\
  (Store.isDirty st = true ->
   forall deadline d,
     Store.saveDebounceTimer st = Some deadline ->
     deadline <= Store.now st + d ->
     Store.ioLog (Store.advance stringifyPretty filePath d (fst r))
     = Store.AdapterWrite filePath (stringifyPretty rejected) :: Store.ioLog st) /\
  updateSetting_resume key value fs false st
  = (st, Store.RThrows (mkStorageError "Data validation failed" filePath)).
Proof.
  intros Hc Hv rejected r. subst r rejected.
  unfold SettingsOps.updateSetting_resume, Store.save. rewrite Hv.
  destruct st as [c ts dirty timer lp t n pw log]. cbn in Hc. subst c.
  unfold_ops. repeat split.
  - cbn. intros -> Hfresh. apply Z.ltb_lt in Hfresh. unfold_ops. now rewrite Hfresh.
  - cbn. intros ->. reflexivity.
  - cbn. intros -> deadline d -> Hdue. apply Z.leb_le in Hdue. unfold_ops.
    now rewrite Hdue.
Qed.

End SettingsOpsProperties.

(** ** FeedService: the order of requests, the cache round trip and updateFeed *)

Section FeedServiceProperties.

Import Feed.

Variable RSSParser_validateXML : string -> bool.
Variable AtomParser_validateXML : string -> bool.
Variable Parsed : Type.
Variable rssParser_parseFromString : string -> string -> Outcome JsError Parsed.
Variable atomParser_parseFromString : string -> string -> Outcome JsError Parsed.

Local Abbreviation detectFeedType :=
  (Feed.detectFeedType RSSParser_validateXML AtomParser_validateXML).
Local Abbreviation parseDetected :=
  (Feed.parseDetected RSSParser_validateXML AtomParser_validateXML Parsed
     rssParser_parseFromString atomParser_parseFromString).
Local Abbreviation fetchFeed :=
  (Feed.fetchFeed RSSParser_validateXML AtomParser_validateXML Parsed
     rssParser_parseFromString atomParser_parseFromString).

(** What a retried call has done when it returns: the attempts before the
    last one failed, the outcome is that of the last one, and when the
    outcome is a failure every attempt allowed was made. *)
Lemma retryFrom_spec (E A : Type) (remaining i : nat) (attempt : nat -> Outcome E A) :
  let r := retryFrom E A remaining i attempt in
  (i < snd r <= i + remaining + 1)%nat /\
  fst r = attempt (Nat.pred (snd r)) /\
  (forall j, (i <= j)%nat -> (j < Nat.pred (snd r))%nat -> exists e, attempt j = Rejected e) /\
  (forall e, fst r = Rejected e -> snd r = (i + remaining + 1)%nat).
Proof.
  revert i. induction remaining as [|k IH]; intros i; cbn [retryFrom].
  - destruct (attempt i) eqn:Ha; cbn [fst snd Nat.pred];
      (split; [lia|]); (split; [now rewrite Ha|]); (split; [intros j; lia|]);
      intros; lia.
  - destruct (attempt i) eqn:Ha.
    + cbn [fst snd Nat.pred].
      split; [lia|]. split; [now rewrite Ha|]. split; [intros j; lia|].
      intros e He. discriminate.
    + destruct (IH (S i)) as (Hb & Hlast & Hfail & Hall).
      split; [lia|]. split; [exact Hlast|]. split.
      * intros j Hij Hj. destruct (Nat.eq_dec j i) as [->|Hne].
        -- now exists e.
        -- apply Hfail; [lia | exact Hj].
      * intros e0 He0. rewrite (Hall e0 He0). lia.
Qed.

Lemma fetchFeedXML_requests (net : Network) (feedUrl : string) (timeout : Z)
    (userAgent : string) (etag lastModified : option string) :
  snd (fetchFeedXML net feedUrl timeout userAgent etag lastModified) <> [].
Proof.
  unfold fetchFeedXML, retryWithBackoff. cbn [Nat.pred].
  destruct (retryFrom _ _ _ _ _) as [first attempts] eqn:Hretry.
  assert (Hpos : attempts <> 0%nat).
  { change attempts with (snd (first, attempts)). rewrite <- Hretry.
    apply retryFrom_attempts. }
  destruct attempts as [|k]; [congruence|].
  cbn [repeat app].
  repeat (break_match; cbn [snd app]); discriminate.
Qed.

(** X12.  The requests of [fetchFeedXML] come in a fixed order: between
    one and three calls of requestUrl with the same headers, then at most
    one call of fetch, then at most one request of the node client, five
    requests at most.  A fallback is contacted only after all three
    requestUrl attempts have failed, the node client only after fetch has
    failed as well, and an attempt of requestUrl that succeeds ends the
    sequence with its response. *)
Theorem fetchFeedXML_request_order (net : Network) (feedUrl : string) (timeout : Z)
    (userAgent : string) (etag lastModified : option string) :
  let result := fetchFeedXML net feedUrl timeout userAgent etag lastModified in
  let attempt := fun i => requestOnce feedUrl (requestUrl net i) in
  let nodeCall :=
    ViaHttps feedUrl (if String.eqb userAgent EmptyString then "Obsidian/1.0.0"
                      else userAgent) in
  exists (k : nat) (fallbacks : list NetCall),
    snd result
    = (repeat (ViaRequestUrl feedUrl (requestHeaders userAgent etag lastModified)) k
       ++ fallbacks)%list /\
    (1 <= k <= 3)%nat /\
    (forall j, (j < Nat.pred k)%nat -> exists e, attempt j = Rejected e) /\
    (fallbacks = [] \/ fallbacks = [ViaFetch feedUrl]
     \/ fallbacks = [ViaFetch feedUrl; nodeCall]) /\
    (fallbacks <> [] ->
       k = 3%nat /\ forall j, (j < 3)%nat -> exists e, attempt j = Rejected e) /\
    (In nodeCall fallbacks -> exists e, viaFetch (fetch net) = Rejected e) /\
    (forall response, attempt (Nat.pred k) = Resolved response ->
       fallbacks = [] /\
       fst result = Resolved (mkFeedXml (text response) (etagHeader response)
                                        (lastModifiedHeader response))) /\
    (List.length (snd result) <= 5)%nat.
Proof.
  intros result attempt nodeCall. subst result.
  unfold fetchFeedXML, retryWithBackoff. cbn [Nat.pred].
  pose proof (retryFrom_spec JsError Response 2 0 attempt) as Hspec.
  fold attempt.
  destruct (retryFrom JsError Response 2 0 attempt) as [first k] eqn:Hretry.
  cbn [fst snd] in Hspec. destruct Hspec as (Hk & Hlast & Hfail & Hall).
  assert (Hfailed : forall e, first = Rejected e ->
            k = 3%nat /\ forall j, (j < 3)%nat -> exists e', attempt j = Rejected e').
  { intros e He. pose proof (Hall e He) as Hk3. split; [lia|].
    intros j Hj. destruct (Nat.eq_dec j 2) as [->|Hne].
    - exists e. rewrite <- He, Hlast, Hk3. reflexivity.
    - apply Hfail; lia. }
  assert (Hlen : forall c : NetCall, (List.length (repeat c k) <= 3)%nat).
  { intros c. rewrite repeat_length. lia. }
  destruct first as [response|error].
  - exists k, []. rewrite app_nil_r. cbn [fst snd].
    split; [reflexivity|]. split; [lia|]. split; [intros j Hj; apply Hfail; lia|].
    split; [now left|]. split; [congruence|]. split; [intros []|].
    split.
    + intros response' Hr. rewrite <- Hlast in Hr. injection Hr as ->. now split.
    + specialize (Hlen (ViaRequestUrl feedUrl (requestHeaders userAgent etag lastModified))). lia.
  - destruct (Hfailed error eq_refl) as [Hk3 Hthree].
    assert (Hnot : forall response, attempt (Nat.pred k) <> Resolved response).
    { intros response Hr. rewrite <- Hlast in Hr. discriminate. }
    destruct (instanceofError error && String.eqb (messageOf error) NOT_MODIFIED).
    + exists k, []. rewrite app_nil_r. cbn [fst snd].
      split; [reflexivity|]. split; [lia|]. split; [intros j Hj; apply Hfail; lia|].
      split; [now left|]. split; [congruence|]. split; [intros []|].
      split; [intros response Hr; now apply Hnot in Hr|].
      specialize (Hlen (ViaRequestUrl feedUrl (requestHeaders userAgent etag lastModified))). lia.
    + destruct (viaFetch (fetch net)) as [r|fetchErr] eqn:Hfetch.
      * exists k, [ViaFetch feedUrl]. cbn [fst snd].
        split; [reflexivity|]. split; [lia|]. split; [intros j Hj; apply Hfail; lia|].
        split; [right; now left|]. split; [intros _; now split|].
        split; [intros [H|[]]; discriminate|].
        split; [intros response Hr; now apply Hnot in Hr|].
        rewrite length_app, repeat_length. cbn. lia.
      * exists k, [ViaFetch feedUrl; nodeCall].
        assert (Hlog : forall (o : Outcome JsError FeedXml),
                  (snd (o, ((repeat (ViaRequestUrl feedUrl
                                       (requestHeaders userAgent etag lastModified)) k
                             ++ [ViaFetch feedUrl]) ++ [nodeCall])%list))
                  = (repeat (ViaRequestUrl feedUrl
                               (requestHeaders userAgent etag lastModified)) k
                     ++ [ViaFetch feedUrl; nodeCall])%list).
        { intros o. cbn [snd]. now rewrite <- app_assoc. }
        destruct (viaHttps (httpsRequest net)) as [r|nodeErr];
          (split; [apply Hlog|]); (split; [lia|]);
          (split; [intros j Hj; apply Hfail; lia|]);
          (split; [right; now right|]); (split; [intros _; now split|]);
          (split; [intros _; now exists fetchErr|]);
          (split; [intros response Hr; now apply Hnot in Hr|]);
          rewrite Hlog, length_app, repeat_length; cbn; lia.
Qed.

(** The cache write is best effort: whatever [setCacheEntry] does, the
    outcome and the requests of [fetchFeed] are the same. *)
Lemma fetchFeed_whatever_the_write (cacheStore : option FeedCacheStore)
    (write write' : CacheWrite) (net : Network) (now : Z) (feedUrl : string)
    (options : FeedFetchOptions) :
  outcome Parsed (fetchFeed cacheStore write net now feedUrl options)
  = outcome Parsed (fetchFeed cacheStore write' net now feedUrl options) /\
  requests Parsed (fetchFeed cacheStore write net now feedUrl options)
  = requests Parsed (fetchFeed cacheStore write' net now feedUrl options).
Proof.
  unfold Feed.fetchFeed.
  destruct (match cacheStore with
            | Some _ =>
              if orDefault bool (useCache options) true
              then Feed.getCachedFeed _ _ _ _ _ cacheStore now feedUrl else None
            | None => None
            end) as [cached|]; [now split|].
  destruct (fetchFeedXML net feedUrl _ _ _ _) as [[fx|e] log]; [|now split].
  destruct (parseDetected (xml fx) feedUrl); now split.
Qed.

(** X13.  The feed cache is changed only by a fetch that went over the
    network and produced a parsed feed, and the write is best effort:
    whether [setCacheEntry] stores the entry or throws, the outcome and the
    requests of [fetchFeed] are the same, and when it throws the parsed feed
    is returned all the same, the store being left as the failed write left
    it.  When the write succeeds, the store holds the text received, and a
    later [fetchFeed] for the same URL with [useCache] on, made before the
    time to live has passed, returns the very same result without any
    request, whatever the cache write would do, provided the text is
    detected as RSS or Atom.  A text of unknown type, read by the fallback
    of the parsers, is cached all the same but never served: the later call
    goes to the network again. *)
Theorem fetchFeed_cache_round_trip (cs : FeedCacheStore) (write : CacheWrite)
    (net : Network) (now : Z) (feedUrl : string) (options : FeedFetchOptions) :
  let r := fetchFeed (Some cs) write net now feedUrl options in
  let ttlMs := orDefault Z (cacheTTL options) 3600000 in
  (cacheAfter Parsed r <> Some cs ->
     exists p, outcome Parsed r = Resolved p /\ requests Parsed r <> []) /\
  (forall write',
     outcome Parsed r = outcome Parsed (fetchFeed (Some cs) write' net now feedUrl options) /\
     requests Parsed r = requests Parsed (fetchFeed (Some cs) write' net now feedUrl options)) /\
  (forall p, outcome Parsed r = Resolved p -> requests Parsed r <> [] ->
     exists fx,
       parseDetected (xml fx) feedUrl = Resolved p /\
       (forall e after, write = WriteThrows e after -> cacheAfter Parsed r = Some after) /\
       (write = Stored ->
        cacheAfter Parsed r
        = Some (setCacheEntry cs now feedUrl (xml fx) ttlMs
                              (responseEtag fx) (responseLastModified fx)) /\
        forall write' net' now' options',
          orDefault bool (useCache options') true = true ->
          now' <= now + ttlMs ->
          (detectFeedType (xml fx) <> UNKNOWN ->
             fetchFeed (cacheAfter Parsed r) write' net' now' feedUrl options'
             = mkFetchResult Parsed (Resolved p) [] (cacheAfter Parsed r)) /\
          (detectFeedType (xml fx) = UNKNOWN ->
             requests Parsed (fetchFeed (cacheAfter Parsed r) write' net' now' feedUrl options')
             <> []))).
Proof.
  intros r ttlMs.
  assert (Hwrite : forall write',
            outcome Parsed r
            = outcome Parsed (fetchFeed (Some cs) write' net now feedUrl options) /\
            requests Parsed r
            = requests Parsed (fetchFeed (Some cs) write' net now feedUrl options)).
  { intros write'. apply fetchFeed_whatever_the_write. }
  assert (Hcases :
    (exists o, r = mkFetchResult Parsed o [] (Some cs)) \/
    (exists e log, r = mkFetchResult Parsed (Rejected e) log (Some cs)) \/
    (exists fx log result,
       log <> [] /\ parseDetected (xml fx) feedUrl = Resolved result /\
       r = mkFetchResult Parsed (Resolved result) log
             (cacheFeed (Some cs) write now feedUrl (xml fx) ttlMs
                        (responseEtag fx) (responseLastModified fx)))).
  { subst r ttlMs. unfold Feed.fetchFeed.
    destruct (if orDefault bool (useCache options) true
              then Feed.getCachedFeed _ _ _ _ _ (Some cs) now feedUrl else None)
      as [cached|]; [left; now eexists|].
    destruct (fetchFeedXML net feedUrl _ _ _ _) as [[fx|e] log] eqn:Hxml;
      [|right; left; now exists e, log].
    assert (Hlog : log <> []).
    { change log with (snd (@Resolved JsError FeedXml fx, log)). rewrite <- Hxml.
      apply fetchFeedXML_requests. }
    destruct (parseDetected (xml fx) feedUrl) as [result|e] eqn:Hparse;
      [|right; left; now exists e, log].
    right; right. now exists fx, log, result. }
  split; [|split; [exact Hwrite|]]; clear Hwrite; clearbody r;
    destruct Hcases as [[o ->]|[(e & log & ->)|(fx & log & result & Hlog & Hparse & ->)]];
    cbn [cacheAfter outcome requests].
  - congruence.
  - congruence.
  - intros _. now exists result.
  - intros p _ H. congruence.
  - intros p H. discriminate.
  - intros p [= <-] _. exists fx. split; [exact Hparse|]. split.
    { intros e after ->. reflexivity. }
    intros ->. cbn [cacheFeed]. split; [reflexivity|].
    intros write' net' now' options' Huse Hfresh.
    assert (Hentry : getCacheEntry
                       (setCacheEntry cs now feedUrl (xml fx) ttlMs
                          (responseEtag fx) (responseLastModified fx)) now' feedUrl
                     = Some (mkFeedCacheEntry (xml fx) now ttlMs
                               (responseEtag fx) (responseLastModified fx))).
    { unfold getCacheEntry, setCacheEntry. cbn [lookupEntry]. rewrite String.eqb_refl.
      unfold isExpired. cbn [cachedAt ttl].
      destruct (Z.ltb_spec (now + ttlMs) now'); [lia | reflexivity]. }
    split.
    + intros Hknown. unfold Feed.fetchFeed, Feed.getCachedFeed. rewrite Huse, Hentry.
      cbn [data]. unfold Feed.parseDetected in Hparse.
      destruct (detectFeedType (xml fx)); try congruence; now rewrite Hparse.
    + intros Hunknown. unfold Feed.fetchFeed, Feed.getCachedFeed. rewrite Huse, Hentry.
      cbn [data]. rewrite Hunknown.
      destruct (fetchFeedXML net' feedUrl _ _ _ _) as [[fx'|e'] log'] eqn:Hxml'.
      * assert (Hlog' : log' <> []).
        { change log' with (snd (@Resolved JsError FeedXml fx', log')). rewrite <- Hxml'.
          apply fetchFeedXML_requests. }
        destruct (Feed.parseDetected _ _ _ _ _ (xml fx') feedUrl); exact Hlog'.
      * change log' with (snd (@Rejected JsError FeedXml e', log')). rewrite <- Hxml'.
        apply fetchFeedXML_requests.
Qed.

End FeedServiceProperties.

Section FeedUpdateProperties.

Import Feed FeedUpdate.

Variable RSSParser_validateXML : string -> bool.
Variable AtomParser_validateXML : string -> bool.
Variable Podcast : Type.
Variable Episode : Type.
Variable feedUrlOf : Podcast -> string.
Variable episodesOf : Podcast -> option (list Episode).
Variable idOf : Episode -> string.
Variable rssParser_parseFromString : string -> string -> Outcome JsError (Parsed Podcast Episode).
Variable atomParser_parseFromString : string -> string -> Outcome JsError (Parsed Podcast Episode).

Local Abbreviation updateFeed :=
  (FeedUpdate.updateFeed RSSParser_validateXML AtomParser_validateXML Podcast Episode
     feedUrlOf episodesOf idOf rssParser_parseFromString atomParser_parseFromString).
Local Abbreviation existingEpisodeIds :=
  (FeedUpdate.existingEpisodeIds Podcast Episode episodesOf idOf).
Local Abbreviation fetchFeed :=
  (Feed.fetchFeed RSSParser_validateXML AtomParser_validateXML (Parsed Podcast Episode)
     rssParser_parseFromString atomParser_parseFromString).

Lemma has_In (ids : list string) (id : string) : has ids id = true <-> In id ids.
Proof.
  unfold has. rewrite existsb_exists. split.
  - intros (x & Hx & He). apply String.eqb_eq in He. now subst x.
  - intros H. exists id. split; [exact H | apply String.eqb_refl].
Qed.

(** With [useCache: false] the outcome and the requests do not depend on
    the cache store. *)
Lemma fresh_fetch_ignores_cache (cs cs' : option FeedCacheStore) (write write' : CacheWrite)
    (net : Network) (now now' : Z) (feedUrl : string) :
  outcome _ (fetchFeed cs write net now feedUrl freshFetch)
  = outcome _ (fetchFeed cs' write' net now' feedUrl freshFetch) /\
  requests _ (fetchFeed cs write net now feedUrl freshFetch)
  = requests _ (fetchFeed cs' write' net now' feedUrl freshFetch) /\
  requests _ (fetchFeed cs write net now feedUrl freshFetch)
  = snd (fetchFeedXML net feedUrl 30000 defaultUserAgent None None).
Proof.
  unfold Feed.fetchFeed, freshFetch.
  cbn [useCache cacheTTL timeout userAgent optEtag optLastModified orDefault].
  assert (Hc : forall c : option FeedCacheStore,
            match c with
            | Some _ => @None (Parsed Podcast Episode)
            | None => None
            end = None) by (now intros []).
  rewrite (Hc cs), (Hc cs').
  destruct (fetchFeedXML net feedUrl 30000 defaultUserAgent None None) as [[fx|e] log];
    [|repeat split].
  destruct (Feed.parseDetected _ _ _ _ _ (xml fx) feedUrl); repeat split.
Qed.

(** The requests of a fetch without conditional headers carry none. *)
Lemma unconditional_requests (net : Network) (feedUrl : string) (timeout : Z) :
  forallb unconditional (snd (fetchFeedXML net feedUrl timeout defaultUserAgent None None))
  = true.
Proof.
  unfold fetchFeedXML.
  destruct (retryWithBackoff _ _ _ _) as [first attempts].
  assert (Hrep : forallb unconditional
                   (repeat (ViaRequestUrl feedUrl (requestHeaders defaultUserAgent None None))
                           attempts) = true).
  { induction attempts as [|k IH]; [reflexivity|].
    cbn [repeat forallb]. rewrite IH. vm_compute. reflexivity. }
  repeat (break_match; cbn [snd]); rewrite ?forallb_app, ?Hrep; reflexivity.
Qed.

(** X14.  Whatever the cache store does with the write that follows,
    [updateFeed] always goes to the network, with unconditional
    requests: even when the cache holds a fresh entry for the feed at least
    one request is made, and no request carries If-None-Match or
    If-Modified-Since.  When it succeeds, [newEpisodes] are exactly the
    fetched episodes whose id is not among the ids of the episodes the
    podcast had (all of them when the podcast had no episode list); and once
    the podcast has taken over the fetched episodes, an update that receives
    the same answers reports the same episodes and no new one. *)
Theorem updateFeed_reports_unseen_episodes (cacheStore : option FeedCacheStore)
    (write : CacheWrite) (net : Network) (now : Z) (p : Podcast) :
  snd (fst (updateFeed cacheStore write net now p)) <> [] /\
  forallb unconditional (snd (fst (updateFeed cacheStore write net now p))) = true /\
  forall u, fst (fst (updateFeed cacheStore write net now p)) = Resolved u ->
    (forall e, In e (newEpisodes _ _ u) <->
               In e (episodes _ _ u) /\ ~ In (idOf e) (existingEpisodeIds p)) /\
    (episodesOf p = None -> newEpisodes _ _ u = episodes _ _ u) /\
    (forall p' cacheStore' write' now',
       feedUrlOf p' = feedUrlOf p ->
       episodesOf p' = Some (episodes _ _ u) ->
       fst (fst (updateFeed cacheStore' write' net now' p'))
       = Resolved (mkFeedUpdate _ _ (podcast _ _ u) (episodes _ _ u) [])).
Proof.
  unfold FeedUpdate.updateFeed. cbn [fst snd].
  destruct (fresh_fetch_ignores_cache cacheStore cacheStore write write net now now
              (feedUrlOf p)) as (_ & _ & Hreq).
  split; [rewrite Hreq; apply fetchFeedXML_requests|].
  split; [rewrite Hreq; apply unconditional_requests|].
  intros u Hu.
  destruct (outcome _ (fetchFeed cacheStore write net now (feedUrlOf p) freshFetch))
    as [parsed|e] eqn:Hout; [|discriminate].
  injection Hu as <-. cbn [newEpisodes episodes podcast].
  split; [|split].
  - intros e. rewrite filter_In, negb_true_iff, <- not_true_iff_false, has_In. reflexivity.
  - intros Hnone. unfold FeedUpdate.existingEpisodeIds. rewrite Hnone.
    clear. induction (parsedEpisodes _ _ parsed) as [|e es IH]; [reflexivity|].
    unfold has in *. cbn [filter existsb negb] in *. now rewrite IH.
  - intros p' cacheStore' write' now' Hurl Heps.
    destruct (fresh_fetch_ignores_cache cacheStore' cacheStore write' write net now' now
                (feedUrlOf p)) as (Hsame & _).
    rewrite Hurl, Hsame, Hout. do 2 f_equal.
    unfold FeedUpdate.existingEpisodeIds. rewrite Heps.
    assert (Hall : forall es' : list Episode,
              incl es' (parsedEpisodes _ _ parsed) ->
              filter (fun e => negb (has (map idOf (parsedEpisodes _ _ parsed)) (idOf e))) es'
              = []).
    { induction es' as [|e es' IH]; intros Hincl; [reflexivity|].
      cbn [filter].
      assert (He : has (map idOf (parsedEpisodes _ _ parsed)) (idOf e) = true).
      { apply has_In, in_map, Hincl. now left. }
      rewrite He. cbn [negb]. apply IH. intros x Hx. apply Hincl. now right. }
    apply Hall, incl_refl.
Qed.

End FeedUpdateProperties.

(** ** VirtualList *)

Section VirtualListProperties.

Import VirtualList.

Variable T : Type.

Local Abbreviation VirtualList := (VirtualList.VirtualList T).
Local Abbreviation refresh := (VirtualList.refresh T).
Local Abbreviation updateViewport := (VirtualList.updateViewport T).
Local Abbreviation updateItems := (VirtualList.updateItems T).
Local Abbreviation create := (VirtualList.create T).
Local Abbreviation renderedIndices := (VirtualList.renderedIndices T).
Local Abbreviation renderedElements := (VirtualList.renderedElements T).
Local Abbreviation inView := (VirtualList.inView T).
Local Abbreviation length_ := (VirtualList.length_ T).

Lemma indicesFrom_In (i : Z) (n : nat) (j : Z) :
  In j (indicesFrom i n) <-> i <= j < i + Z.of_nat n.
Proof.
  revert i. induction n as [|n IH]; intros i.
  - cbn. lia.
  - cbn [indicesFrom In]. rewrite IH. lia.
Qed.

Lemma indicesFrom_length (i : Z) (n : nat) : List.length (indicesFrom i n) = n.
Proof. revert i. induction n as [|n IH]; intros i; cbn; [reflexivity | now rewrite IH]. Qed.

Lemma loopIndices_In (first last len j : Z) :
  In j (loopIndices first last len) <-> first <= j /\ j <= last /\ j < len.
Proof. unfold loopIndices. rewrite indicesFrom_In. lia. Qed.

(** Rendering into an empty map gives one element per index visited. *)
Lemma render_from_scratch (vl : VirtualList) :
  renderedElements vl = [] ->
  renderedElements (renderVisibleItems T vl)
  = map (fun i => (i, itemAt T (items T vl) i))
        (loopIndices (startIndex (state T vl)) (endIndex (state T vl)) (length_ vl)).
Proof.
  intros Hempty. unfold renderVisibleItems. cbn [VirtualList.renderedElements].
  rewrite Hempty. cbn [filter app]. f_equal.
  induction (loopIndices _ _ _) as [|i l IH]; [reflexivity|].
  unfold hasKey in *. cbn [filter existsb negb] in *. now rewrite IH.
Qed.

(** X15.  [refresh()] renders what is in view.  With a positive item
    height and a non-negative overscan, after [refresh] the elements in
    [renderedElements] are exactly those of the indices from
    [state.startIndex] to [state.endIndex], each showing the item at its
    index; these indices lie inside the list, every item that is in view
    has its element, and no more than
    [ceil(height / itemHeight) + 2 * overscan + 1] elements exist. *)
Theorem refresh_renders_the_viewport (top height : Z) (vl : VirtualList) :
  isDestroyed T vl = false ->
  0 < itemHeight T vl ->
  0 <= overscan T vl ->
  let vl' := refresh top height vl in
  startIndex (state T vl') = computedStart T top vl /\
  endIndex (state T vl') = computedEnd T top height vl /\
  (forall i, In i (renderedIndices vl') <->
             startIndex (state T vl') <= i <= endIndex (state T vl')) /\
  (forall i x, In (i, x) (renderedElements vl') ->
               0 <= i < length_ vl /\ x = nth_error (items T vl) (Z.to_nat i)) /\
  (forall i, inView top height vl i -> In i (renderedIndices vl')) /\
  Z.of_nat (List.length (renderedElements vl'))
  <= Z.max 0 (visibleCount T height vl + 2 * overscan T vl + 1).
Proof.
  intros Halive Hh Ho vl'.
  assert (Hstart : 0 <= computedStart T top vl) by (unfold computedStart; lia).
  assert (Hend : computedEnd T top height vl <= length_ vl - 1)
    by (unfold computedEnd; lia).
  assert (Hvl' : vl' =
    mkVirtualList T (items T vl) (itemHeight T vl) (overscan T vl)
      (mkState top height (computedStart T top vl) (computedEnd T top height vl))
      (map (fun i => (i, itemAt T (items T vl) i))
           (loopIndices (computedStart T top vl) (computedEnd T top height vl) (length_ vl)))
      false
      ((computedStart T top vl, computedEnd T top height vl) :: rangeChanges T vl)).
  { subst vl'. unfold VirtualList.refresh. rewrite Halive.
    unfold VirtualList.updateViewport.
    change (computedStart T top (mkVirtualList T _ _ _ _ _ _ _))
      with (computedStart T top vl).
    change (computedEnd T top height (mkVirtualList T _ _ _ _ _ _ _))
      with (computedEnd T top height vl).
    cbn [VirtualList.state VirtualList.startIndex VirtualList.endIndex].
    replace (computedStart T top vl =? -1) with false by (symmetry; apply Z.eqb_neq; lia).
    cbn [negb orb].
    rewrite render_from_scratch by reflexivity.
    unfold renderVisibleItems.
    cbn [VirtualList.items VirtualList.itemHeight VirtualList.overscan VirtualList.state
         VirtualList.isDestroyed VirtualList.rangeChanges VirtualList.startIndex
         VirtualList.endIndex].
    reflexivity. }
  clearbody vl'. subst vl'.
  unfold VirtualList.renderedIndices.
  cbn [VirtualList.state VirtualList.startIndex VirtualList.endIndex
       VirtualList.renderedElements].
  split; [reflexivity|]. split; [reflexivity|].
  assert (Hkeys : forall i,
            In i (map fst (map (fun i => (i, itemAt T (items T vl) i))
                               (loopIndices (computedStart T top vl)
                                            (computedEnd T top height vl) (length_ vl))))
            <-> computedStart T top vl <= i <= computedEnd T top height vl).
  { intros i. rewrite map_map. cbn [fst]. rewrite map_id, loopIndices_In. lia. }
  split; [exact Hkeys|]. split; [|split].
  - intros i x Hin. apply in_map_iff in Hin as (j & [= <- <-] & Hj).
    apply loopIndices_In in Hj. split; [lia|].
    unfold itemAt. destruct (Z.ltb_spec j 0); [lia | reflexivity].
  - intros i (Hi & Hbelow & Habove). apply Hkeys.
    unfold computedStart, computedEnd, visibleStartIndex, visibleCount.
    fold (length_ vl).
    pose proof (Z.div_mod top (itemHeight T vl) ltac:(lia)) as Hq.
    pose proof (Z.mod_pos_bound top (itemHeight T vl) Hh) as Hr.
    pose proof (Z.div_mod (- height) (itemHeight T vl) ltac:(lia)) as Hq2.
    pose proof (Z.mod_pos_bound (- height) (itemHeight T vl) Hh) as Hr2.
    set (q := top / itemHeight T vl) in *.
    set (c := (- height) / itemHeight T vl) in *.
    split.
    + assert (q <= i) by nia. lia.
    + assert (i <= q - c) by nia. lia.
  - rewrite length_map. unfold loopIndices. rewrite indicesFrom_length.
    unfold computedStart, computedEnd, visibleStartIndex, visibleCount. lia.
Qed.

(** After [updateViewport] the state holds the range just computed. *)
Lemma updateViewport_state (top height : Z) (vl : VirtualList) :
  startIndex (state T (updateViewport top height vl)) = computedStart T top vl /\
  endIndex (state T (updateViewport top height vl)) = computedEnd T top height vl /\
  items T (updateViewport top height vl) = items T vl /\
  itemHeight T (updateViewport top height vl) = itemHeight T vl /\
  overscan T (updateViewport top height vl) = overscan T vl /\
  isDestroyed T (updateViewport top height vl) = isDestroyed T vl.
Proof.
  unfold VirtualList.updateViewport.
  destruct (Z.eqb_spec (computedStart T top vl) (startIndex (state T vl))) as [Hs|Hs];
    destruct (Z.eqb_spec (computedEnd T top height vl) (endIndex (state T vl))) as [He|He];
    cbn [negb orb]; unfold renderVisibleItems; cbn; repeat split; congruence.
Qed.

(** X16.  [updateItems] clears the rendered elements and relies on
    [updateViewport] to render the new ones, which happens only when the
    range of indices changes.  So whenever the new list gives the range the
    state already holds, nothing is rendered: the list is left blank, and
    [onVisibleRangeChange] is not called.  This is the case when the items
    are replaced by a list of the same length at the same scroll position;
    and a list created with exactly one item starts blank, because the
    state starts at the range from 0 to 0. *)
Theorem updateItems_blank_when_range_unchanged (top height : Z) (vl : VirtualList)
    (items' : list T) :
  isDestroyed T vl = false ->
  (let vl1 := mkVirtualList T items' (itemHeight T vl) (overscan T vl) (state T vl) []
                            false (rangeChanges T vl) in
   computedStart T top vl1 = startIndex (state T vl) ->
   computedEnd T top height vl1 = endIndex (state T vl) ->
   renderedElements (updateItems items' top height vl) = [] /\
   rangeChanges T (updateItems items' top height vl) = rangeChanges T vl) /\
  (List.length items' = List.length (items T vl) ->
   renderedElements (updateItems items' top height (updateViewport top height vl)) = []) /\
  (forall (x : T) (h o : Z),
     0 < h -> 0 <= o -> 0 <= height ->
     renderedElements (create [x] h o 0 height) = []).
Proof.
  intros Halive. split; [|split].
  - intros vl1 Hs He. unfold VirtualList.updateItems. rewrite Halive.
    unfold VirtualList.updateViewport. fold vl1.
    change (state T vl1) with (state T vl).
    rewrite Hs, He, !Z.eqb_refl. cbn [negb orb]. split; reflexivity.
  - intros Hlen.
    destruct (updateViewport_state top height vl) as (Hs & He & Hi & Hh & Ho & Hd).
    unfold VirtualList.updateItems. rewrite Hd, Halive.
    unfold VirtualList.updateViewport at 1.
    set (vl1 := mkVirtualList T items' _ _ _ _ _ _).
    assert (Hs1 : computedStart T top vl1 = computedStart T top vl).
    { unfold computedStart, visibleStartIndex. subst vl1. cbn. now rewrite Hh, Ho. }
    assert (He1 : computedEnd T top height vl1 = computedEnd T top height vl).
    { unfold computedEnd, visibleStartIndex, visibleCount, VirtualList.length_.
      subst vl1. cbn. now rewrite Hh, Ho, Hlen. }
    change (state T vl1) with (state T (updateViewport top height vl)).
    rewrite Hs1, He1, Hs, He, !Z.eqb_refl. reflexivity.
  - intros x h o Hh Ho Hheight. unfold VirtualList.create, VirtualList.updateViewport.
    assert (Hs : computedStart T 0
                   (mkVirtualList T [x] h o (mkState 0 0 0 0) [] false []) = 0).
    { unfold computedStart, visibleStartIndex. cbn. lia. }
    assert (He : computedEnd T 0 height
                   (mkVirtualList T [x] h o (mkState 0 0 0 0) [] false []) = 0).
    { unfold computedEnd, visibleStartIndex, visibleCount, VirtualList.length_. cbn.
      assert (0 <= - (- height / h)).
      { pose proof (Z.div_mod (- height) h ltac:(lia)).
        pose proof (Z.mod_pos_bound (- height) h Hh). nia. }
      lia. }
    rewrite Hs, He. reflexivity.
Qed.

End VirtualListProperties.

(** ** Time utilities *)

Section TimeUtilsProperties.

Import TimeUtils.

(** The days between two times, as [formatRelativeTime] counts them. *)
Lemma nested_days (d : Z) : d / 1000 / 60 / 60 / 24 = d / DAY_MS.
Proof. unfold DAY_MS. rewrite !Z.div_div by lia. reflexivity. Qed.

(** X17.  [formatRelativeTime] counts whole units, and two ranges of ages
    fall between its units: a date less than a minute old, or in the
    future, is 'just now'; a date 28 or 29 days old is '0 month ago' (four
    weeks have passed, a month of 30 days has not), and a date 360 to 364
    days old is '0 year ago' (twelve months of 30 days have passed, a year
    of 365 days has not).  For every other age the count printed is at
    least 1. *)
Theorem formatRelativeTime_counts (now date : Z) :
  (now - date < 60000 -> formatRelativeTime now date = "just now") /\
  (28 * DAY_MS <= now - date < 30 * DAY_MS ->
     formatRelativeTime now date = "0 month ago") /\
  (360 * DAY_MS <= now - date < 365 * DAY_MS ->
     formatRelativeTime now date = "0 year ago") /\
  (60000 <= now - date ->
   ~ (28 * DAY_MS <= now - date < 30 * DAY_MS) ->
   ~ (360 * DAY_MS <= now - date < 365 * DAY_MS) ->
   exists n unit, 1 <= n /\ formatRelativeTime now date = ago n unit).
Proof.
  unfold formatRelativeTime. rewrite nested_days.
  set (d := now - date). unfold DAY_MS.
  assert (Hmin : d / 1000 / 60 = d / 60000) by (rewrite Z.div_div by lia; reflexivity).
  assert (Hhour : d / 1000 / 60 / 60 = d / 3600000)
    by (rewrite !Z.div_div by lia; reflexivity).
  rewrite Hhour, Hmin.
  split; [|split; [|split]].
  - intros H. destruct (Z.ltb_spec (d / 1000) 60) as [_|Hge]; [reflexivity|].
    exfalso. Z.div_mod_to_equations. lia.
  - intros H.
    assert (Hdays : d / 86400000 = 28 \/ d / 86400000 = 29)
      by (Z.div_mod_to_equations; lia).
    destruct (Z.ltb_spec (d / 1000) 60); [exfalso; Z.div_mod_to_equations; lia|].
    destruct (Z.ltb_spec (d / 60000) 60); [exfalso; Z.div_mod_to_equations; lia|].
    destruct (Z.ltb_spec (d / 3600000) 24); [exfalso; Z.div_mod_to_equations; lia|].
    destruct Hdays as [-> | ->]; reflexivity.
  - intros H.
    assert (Hdays : 360 <= d / 86400000 < 365) by (Z.div_mod_to_equations; lia).
    destruct (Z.ltb_spec (d / 1000) 60); [exfalso; Z.div_mod_to_equations; lia|].
    destruct (Z.ltb_spec (d / 60000) 60); [exfalso; Z.div_mod_to_equations; lia|].
    destruct (Z.ltb_spec (d / 3600000) 24); [exfalso; Z.div_mod_to_equations; lia|].
    destruct (Z.ltb_spec (d / 86400000) 7); [lia|].
    destruct (Z.ltb_spec (d / 86400000 / 7) 4); [exfalso; Z.div_mod_to_equations; lia|].
    destruct (Z.ltb_spec (d / 86400000 / 30) 12); [exfalso; Z.div_mod_to_equations; lia|].
    replace (d / 86400000 / 365) with 0 by (Z.div_mod_to_equations; lia).
    reflexivity.
  - intros Hold Hmonth Hyear.
    destruct (Z.ltb_spec (d / 1000) 60); [exfalso; Z.div_mod_to_equations; lia|].
    destruct (Z.ltb_spec (d / 60000) 60).
    { exists (d / 60000), "minute". split; [Z.div_mod_to_equations; lia | reflexivity]. }
    destruct (Z.ltb_spec (d / 3600000) 24).
    { exists (d / 3600000), "hour". split; [Z.div_mod_to_equations; lia | reflexivity]. }
    destruct (Z.ltb_spec (d / 86400000) 7).
    { exists (d / 86400000), "day". split; [Z.div_mod_to_equations; lia | reflexivity]. }
    destruct (Z.ltb_spec (d / 86400000 / 7) 4).
    { exists (d / 86400000 / 7), "week". split; [Z.div_mod_to_equations; lia | reflexivity]. }
    destruct (Z.ltb_spec (d / 86400000 / 30) 12).
    { exists (d / 86400000 / 30), "month".
      split; [Z.div_mod_to_equations; lia | reflexivity]. }
    exists (d / 86400000 / 365), "year". split; [Z.div_mod_to_equations; lia | reflexivity].
Qed.

End TimeUtilsProperties.


Section TimeRoundTrip.

Import TimeUtils.

Lemma digit_plain (c : ascii) :
  isDigit c = true ->
  isStrWhiteSpaceChar c = false /\ Ascii.eqb c "-" = false /\ Ascii.eqb c "+" = false /\
  Ascii.eqb c ":" = false.
Proof.
  destruct c as [[] [] [] [] [] [] [] []]; intros H; try discriminate H;
    repeat split; reflexivity.
Qed.

Lemma digits_app (a b : string) : digits (a ++ b) = digits a && digits b.
Proof.
  induction a as [|c a IH]; [reflexivity|]. cbn [append digits]. now rewrite IH, andb_assoc.
Qed.

Lemma digits_of_uint (d : Decimal.uint) : digits (NilEmpty.string_of_uint d) = true.
Proof. induction d; cbn [NilEmpty.string_of_uint digits]; try rewrite IHd; reflexivity. Qed.

Lemma parseDigits_acc (d : Decimal.uint) (acc : positive) :
  parseDigits (Z.pos acc) true (NilEmpty.string_of_uint d)
  = Some (Z.pos (Pos.of_uint_acc d acc)).
Proof.
  revert acc. induction d; intros acc; cbn [NilEmpty.string_of_uint Pos.of_uint_acc];
    [reflexivity|..];
    cbn [parseDigits];
    match goal with
    | |- context [digitValue ?c] =>
      let v := eval vm_compute in (digitValue c) in change (digitValue c) with v
    end;
    cbv iota; rewrite <- IHd; f_equal; lia.
Qed.

Lemma parseDigits_zero (d : Decimal.uint) :
  parseDigits 0 true (NilEmpty.string_of_uint d) = Some (Z.of_N (Pos.of_uint d)).
Proof.
  induction d; cbn [NilEmpty.string_of_uint Pos.of_uint]; [reflexivity|..];
    cbn [parseDigits];
    match goal with
    | |- context [digitValue ?c] =>
      let v := eval vm_compute in (digitValue c) in change (digitValue c) with v
    end;
    cbv iota; [exact IHd|..];
    match goal with
    | |- parseDigits ?a true _ = _ =>
      let p := eval vm_compute in (Z.to_pos a) in
      change a with (Z.pos p); rewrite parseDigits_acc; reflexivity
    end.
Qed.

(** The first character is a digit: whether a digit was seen before does
    not matter. *)
Lemma parseDigits_seen (acc : Z) (c : ascii) (s : string) :
  isDigit c = true ->
  parseDigits acc false (String c s) = parseDigits acc true (String c s).
Proof. unfold isDigit. cbn [parseDigits]. destruct (digitValue c); [reflexivity | discriminate]. Qed.

(** The decimal numeral of a natural number: digits, at least one, and
    read back as the number. *)
Lemma numeral (n : Z) :
  0 <= n ->
  digits (Json.numberToString n) = true /\
  Json.numberToString n <> EmptyString /\
  parseDigits 0 true (Json.numberToString n) = Some n.
Proof.
  intros Hn. unfold Json.numberToString. destruct n as [|p|p]; [now repeat split | | lia].
  cbn [Z.to_int NilZero.string_of_int]. unfold NilZero.string_of_uint.
  pose proof (Unsigned.to_uint_nonnil p) as Hnil.
  assert (Hs : match Pos.to_uint p with
               | Decimal.Nil => "0"
               | _ => NilEmpty.string_of_uint (Pos.to_uint p)
               end = NilEmpty.string_of_uint (Pos.to_uint p)).
  { destruct (Pos.to_uint p); [congruence | reflexivity..]. }
  rewrite Hs. split; [apply digits_of_uint|]. split.
  - destruct (Pos.to_uint p); [congruence | discriminate..].
  - rewrite parseDigits_zero, DecimalPos.Unsigned.of_to. reflexivity.
Qed.

Lemma parseDigits_leading_zeros (k : nat) (s : string) :
  parseDigits 0 true (string_of_list_ascii (repeat "0"%char k) ++ s) = parseDigits 0 true s.
Proof. induction k as [|k IH]; [reflexivity|]. cbn [repeat string_of_list_ascii append]. exact IH. Qed.

(** A field of a formatted time, padded or not, is read back by
    [parseInt]. *)
Lemma field_parsed (width : nat) (n : Z) :
  0 <= n ->
  digits (padStart width "0" (Json.numberToString n)) = true /\
  parseInt10 (padStart width "0" (Json.numberToString n)) = Some n.
Proof.
  intros Hn. destruct (numeral n Hn) as (Hd & Hne & Hparse).
  unfold padStart.
  set (zeros := string_of_list_ascii (repeat "0"%char (width - String.length (Json.numberToString n)))).
  assert (Hz : digits zeros = true).
  { subst zeros. induction (width - _)%nat as [|k IH]; [reflexivity | exact IH]. }
  assert (Hall : digits (zeros ++ Json.numberToString n) = true)
    by (now rewrite digits_app, Hz, Hd).
  split; [exact Hall|].
  assert (Hval : parseDigits 0 true (zeros ++ Json.numberToString n) = Some n).
  { subst zeros. now rewrite parseDigits_leading_zeros. }
  destruct (zeros ++ Json.numberToString n) as [|c r] eqn:E.
  - exfalso. destruct zeros; [cbn in E; congruence | discriminate].
  - cbn [digits] in Hall. apply andb_true_iff in Hall as [Hc _].
    destruct (digit_plain c Hc) as (Hw & Hminus & Hplus & _).
    unfold parseInt10. cbn [skipWhiteSpace]. rewrite Hw, Hminus, Hplus.
    rewrite (parseDigits_seen 0 c r Hc). exact Hval.
Qed.

Lemma split_digits (s : string) :
  digits s = true -> Files.split ":" s = [s].
Proof.
  induction s as [|c s IH]; intros H; [reflexivity|].
  cbn [digits] in H. apply andb_true_iff in H as [Hc Hs].
  destruct (digit_plain c Hc) as (_ & _ & _ & Hcolon).
  cbn [Files.split]. rewrite Hcolon, (IH Hs). reflexivity.
Qed.

Lemma split_field (s rest : string) :
  digits s = true ->
  Files.split ":" (s ++ ":" ++ rest) = s :: Files.split ":" rest.
Proof.
  induction s as [|c s IH]; intros H.
  - reflexivity.
  - cbn [digits] in H. apply andb_true_iff in H as [Hc Hs].
    destruct (digit_plain c Hc) as (_ & _ & _ & Hcolon).
    cbn [append Files.split]. rewrite Hcolon.
    change (s ++ String ":" rest) with (s ++ ":" ++ rest). rewrite (IH Hs). reflexivity.
Qed.

(** The fields of a formatted time, read back and summed up. *)
(** The integer arithmetic of the round trip; the statements below keep to
    the range on which it is the arithmetic of the source. *)
Lemma formatTime_read_back (seconds : Z) (alwaysShowHours : bool) :
  0 <= seconds ->
  parseTimeString (formatTime seconds alwaysShowHours) = Some seconds.
Proof.
  intros Hs. unfold formatTime.
  destruct (Z.ltb_spec seconds 0) as [Hneg|_]; [lia|].
  assert (Hh : 0 <= seconds / 3600) by (apply Z.div_pos; lia).
  assert (Hm : 0 <= seconds mod 3600 / 60) by (Z.div_mod_to_equations; lia).
  assert (Hsec : 0 <= seconds mod 60) by (Z.div_mod_to_equations; lia).
  assert (Hsum : seconds / 3600 * 3600 + seconds mod 3600 / 60 * 60 + seconds mod 60
                 = seconds) by (Z.div_mod_to_equations; lia).
  destruct (field_parsed 0 (seconds / 3600) Hh) as [Hdh Hph].
  destruct (field_parsed 2 (seconds mod 3600 / 60) Hm) as [Hdm2 Hpm2].
  destruct (field_parsed 0 (seconds mod 3600 / 60) Hm) as [Hdm Hpm].
  destruct (field_parsed 2 (seconds mod 60) Hsec) as [Hds Hps].
  change (padStart 0 "0" (Json.numberToString (seconds / 3600)))
    with (Json.numberToString (seconds / 3600)) in *.
  change (padStart 0 "0" (Json.numberToString (seconds mod 3600 / 60)))
    with (Json.numberToString (seconds mod 3600 / 60)) in *.
  unfold parseTimeString.
  destruct (Z.ltb_spec 0 (seconds / 3600)) as [Hpos|Hzero]; cbn [orb].
  - rewrite (split_field _ _ Hdh), (split_field _ _ Hdm2), (split_digits _ Hds).
    cbn [map]. rewrite Hph, Hpm2, Hps. cbn. now rewrite Hsum.
  - assert (Hzero' : seconds / 3600 = 0) by lia.
    destruct alwaysShowHours.
    + rewrite (split_field _ _ Hdh), (split_field _ _ Hdm), (split_digits _ Hds).
      cbn [map]. rewrite Hph, Hpm, Hps. cbn. now rewrite Hsum.
    + rewrite (split_field _ _ Hdm), (split_digits _ Hds).
      cbn [map]. rewrite Hpm, Hps. cbn. f_equal. lia.
Qed.

(** X18.  A formatted time is parsed back to the number of seconds it was
    made from: for every whole number of seconds from 0 to
    [Number.MAX_SAFE_INTEGER] (2^53 - 1, the range on which the doubles of
    the source compute exactly), with or without the hours always shown,
    [parseTimeString(formatTime(s))] is [s]; in particular it is never
    [null].  A negative whole number of seconds down to
    [-Number.MAX_SAFE_INTEGER] is formatted as 0:00 and comes back as 0. *)
Theorem parseTimeString_inverts_formatTime (seconds : Z) (alwaysShowHours : bool) :
  (0 <= seconds <= MAX_SAFE_INTEGER ->
   parseTimeString (formatTime seconds alwaysShowHours) = Some seconds) /\
  (- MAX_SAFE_INTEGER <= seconds < 0 ->
   formatTime seconds alwaysShowHours = "0:00" /\
   parseTimeString (formatTime seconds alwaysShowHours) = Some 0).
Proof.
  split.
  - intros [Hs _]. now apply formatTime_read_back.
  - intros [_ Hneg]. unfold formatTime.
    destruct (Z.ltb_spec seconds 0) as [_|Hge]; [split; reflexivity | lia].
Qed.

(** X22.  The playback position written into a note can be read back: for
    every whole number of seconds from 0 to [Number.MAX_SAFE_INTEGER]
    (2^53 - 1, the range on which the doubles of the source compute
    exactly), the text [AddNoteModal.formatTime] produces is the one
    [timeUtils.formatTime] produces, and [parseTimeString] turns it back
    into the number of seconds. *)
Theorem modal_position_round_trip (seconds : Z) :
  0 <= seconds <= MAX_SAFE_INTEGER ->
  AddNoteModal.formatTime seconds = formatTime seconds false /\
  parseTimeString (AddNoteModal.formatTime seconds) = Some seconds.
Proof.
  intros [Hs _].
  assert (Hsame : AddNoteModal.formatTime seconds = formatTime seconds false).
  { unfold AddNoteModal.formatTime, formatTime.
    destruct (Z.ltb_spec seconds 0) as [Hneg|_]; [lia|].
    rewrite !Z.rem_mod_nonneg by lia.
    destruct (0 <? seconds / 3600); reflexivity. }
  split; [exact Hsame|]. rewrite Hsame. now apply formatTime_read_back.
Qed.

End TimeRoundTrip.

(** ** SingleFileStore: saves that overlap other operations *)

Section StoreRaceProperties.

Variable T : Type.
Variable validate : T -> bool.
Variable getDefaultValue : T.
Variable JSON_parse : string -> option T.
Variable JSON_stringify : T -> string.
Variable filePath : string.

Import Store.

Local Abbreviation Store := (Store.Store T).
Local Abbreviation Event := (Store.Event T).
Local Abbreviation save := (Store.save validate JSON_stringify filePath).
Local Abbreviation flush := (Store.flush JSON_stringify filePath).
Local Abbreviation advance := (Store.advance JSON_stringify filePath).
Local Abbreviation writeResolves := (Store.writeResolves filePath).
Local Abbreviation exec := (Store.exec validate getDefaultValue JSON_parse JSON_stringify filePath).

(** X19.  A save that arrives while a write is in flight can be lost.
    After [save(x, true)] has handed [x] to the adapter, [save(y)] puts [y]
    in the cache and sets the dirty flag again; when the write of [x] then
    completes, its continuation clears the flag.  From there on
    [hasPendingChanges()] answers false although the file holds [x] and the
    cache [y], and along every schedule without a new [save] (timer ticks,
    [flush], loads) no write is issued: [y] never reaches the file. *)
Theorem save_during_write_is_lost (s : Store) (x y : T) :
  validate x = true ->
  validate y = true ->
  let s1 := fst (save x true s) in
  let s2 := fst (save y false s1) in
  let s3 := fst (writeResolves (nextId s) true s2) in
  snd (save x true s) = RWritePromise (nextId s) /\
  ioLog s3 = AdapterWrite filePath (JSON_stringify x) :: ioLog s /\
  cache s3 = Some y /\
  hasPendingChanges s3 = false /\
  forall es, forallb (StoreOps.notSave T) es = true ->
    diskWrites (exec es s3) = diskWrites s3 /\
    hasPendingChanges (exec es s3) = false.
Proof.
  intros Hx Hy s1 s2 s3.
  assert (H3 : s3 = mkStore (Some y) (now s) false (Some (now s + SAVE_DEBOUNCE_MS))
                            (loadPromise s) (now s) (S (nextId s)) (pendingWrites s)
                            (AdapterWrite filePath (JSON_stringify x) :: ioLog s)).
  { subst s3 s2 s1. destruct s as [c ts dirty timer lp t n pw log].
    unfold_ops. rewrite Hx. unfold_ops. rewrite Hy. unfold_ops.
    cbn [Store.findWrite Store.removeWrite Store.wid]. rewrite Nat.eqb_refl.
    unfold_ops. reflexivity. }
  split.
  { destruct s as [c ts dirty timer lp t n pw log]. unfold_ops. rewrite Hx. reflexivity. }
  rewrite H3. cbn [ioLog cache hasPendingChanges isDirty].
  split; [reflexivity|]. split; [reflexivity|]. split; [reflexivity|].
  intros es Hes.
  destruct (clean_schedule T validate getDefaultValue JSON_parse JSON_stringify filePath es
              _ (eq_refl : isDirty (mkStore (Some y) (now s) false
                                      (Some (now s + SAVE_DEBOUNCE_MS)) (loadPromise s)
                                      (now s) (S (nextId s)) (pendingWrites s)
                                      (AdapterWrite filePath (JSON_stringify x) :: ioLog s))
                             = false) Hes) as [Hd Hw].
  split; [exact Hw | exact Hd].
Qed.

(** X20.  A load in flight overwrites a save.  When [save(x)] is called
    while a load is reading the file, the cache holds [x] only until the
    read completes: [performLoad] then puts the data read into the cache,
    and the dirty flag set by the save stays.  What the debounce timer (or a
    [flush]) writes afterwards is the old content of the file, not [x],
    and a [load] answers the old data. *)
Theorem load_in_flight_overwrites_save (s : Store) (x old : T) (content : string) :
  loadPromise s = None ->
  (cache s = None \/ CACHE_TTL_MS <= now s - cacheTimestamp s) ->
  validate x = true ->
  JSON_parse content = Some old ->
  validate old = true ->
  let s' := exec [CallLoad; CallSave x false; ExistsResolves (Some true);
                  ReadResolves (Some content)] s in
  cache s' = Some old /\
  hasPendingChanges s' = true /\
  ioLog s' = AdapterRead filePath :: AdapterExists filePath :: ioLog s /\
  (forall d, SAVE_DEBOUNCE_MS <= d ->
     ioLog (advance d s') = AdapterWrite filePath (JSON_stringify old) :: ioLog s') /\
  ioLog (fst (flush s')) = AdapterWrite filePath (JSON_stringify old) :: ioLog s'.
Proof.
  intros Hlp Hstale Hx Hparse Hold s'.
  assert (H' : s' = mkStore (Some old) (now s) true (Some (now s + SAVE_DEBOUNCE_MS))
                            (Some (mkLoadTask (nextId s) (now s) getDefaultValue
                                              (Settled (Resolved old))))
                            (now s) (S (nextId s)) (pendingWrites s)
                            (AdapterRead filePath :: AdapterExists filePath :: ioLog s)).
  { subst s'. destruct s as [c ts dirty timer lp t n pw log].
    cbn [loadPromise cache now cacheTimestamp] in Hlp, Hstale. subst lp.
    unfold Store.exec. cbn [Store.run].
    assert (Hload : Store.step validate getDefaultValue JSON_parse JSON_stringify filePath
                      CallLoad (mkStore c ts dirty timer None t n pw log)
                    = (mkStore c ts dirty timer
                               (Some (mkLoadTask n t getDefaultValue AwaitExists))
                               t (S n) pw (AdapterExists filePath :: log),
                       RLoadPromise n)).
    { unfold_ops. destruct Hstale as [->|Hold']; [reflexivity|].
      destruct c as [c0|]; [|reflexivity].
      replace (t - ts <? CACHE_TTL_MS) with false by (symmetry; apply Z.ltb_ge; exact Hold').
      reflexivity. }
    rewrite Hload. unfold_ops. rewrite Hx. unfold_ops.
    unfold Store.readResolves, Store.safeJsonParse. unfold_ops. rewrite Hparse.
    unfold_ops. rewrite Hold. unfold_ops. reflexivity. }
  clearbody s'. subst s'. destruct s as [c ts dirty timer lp t n pw log].
  cbn [cache hasPendingChanges isDirty ioLog now nextId loadPromise pendingWrites].
  split; [reflexivity|]. split; [reflexivity|]. split; [reflexivity|]. split.
  - intros d Hd. unfold_ops.
    replace (t + SAVE_DEBOUNCE_MS <=? t + d) with true
      by (symmetry; apply Z.leb_le; lia).
    reflexivity.
  - reflexivity.
Qed.

End StoreRaceProperties.

(** ** Daily notes *)

Section DailyNoteProperties.

Import DailyNote.

Variable trim : string -> string.

Local Abbreviation headerToFind := (DailyNote.headerToFind trim).
Local Abbreviation insertAfterHeader := (DailyNote.insertAfterHeader trim).

Lemma append_assoc (a b c : string) : (a ++ b) ++ c = a ++ b ++ c.
Proof. induction a as [|x a IH]; cbn [append]; [reflexivity | now rewrite IH]. Qed.

Lemma append_nil_r (a : string) : a ++ EmptyString = a.
Proof. induction a as [|x a IH]; cbn [append]; [reflexivity | now rewrite IH]. Qed.

Lemma join_cons (x : string) (l : list string) :
  l <> [] -> Json.join LF (x :: l) = x ++ LF ++ Json.join LF l.
Proof. destruct l; [congruence | reflexivity]. Qed.

(** Joining the lines of a text gives the text back. *)
Lemma join_split (s : string) : Json.join LF (Files.split newline s) = s.
Proof.
  induction s as [|c s IH]; [reflexivity|].
  cbn [Files.split]. destruct (Ascii.eqb_spec c newline) as [->|Hne].
  - rewrite join_cons by apply split_nonempty. rewrite IH. reflexivity.
  - destruct (Files.split newline s) as [|h t] eqn:E; [now apply split_nonempty in E|].
    destruct t as [|h2 t].
    + cbn [Json.join] in *. now rewrite IH.
    + rewrite join_cons by discriminate. rewrite join_cons in IH by discriminate.
      cbn [append]. now rewrite IH.
Qed.

Lemma join_app (xs ys : list string) :
  xs <> [] -> ys <> [] ->
  Json.join LF (xs ++ ys)%list = Json.join LF xs ++ LF ++ Json.join LF ys.
Proof.
  intros Hx Hy. induction xs as [|x xs IH]; [congruence|].
  destruct xs as [|x2 xs].
  - cbn [app]. now rewrite join_cons.
  - change ((x :: x2 :: xs) ++ ys)%list with (x :: ((x2 :: xs) ++ ys))%list.
    rewrite join_cons by discriminate. rewrite IH by discriminate.
    rewrite (join_cons x (x2 :: xs)) by discriminate.
    now rewrite !append_assoc.
Qed.

Lemma findIndex_spec (p : string -> bool) (lines : list string) (i : nat) :
  findIndex p lines = Some i ->
  (i < List.length lines)%nat /\
  p (nth i lines EmptyString) = true /\
  forall j, (j < i)%nat -> p (nth j lines EmptyString) = false.
Proof.
  revert i. induction lines as [|x l IH]; intros i H; [discriminate|].
  cbn [findIndex] in H. destruct (p x) eqn:Hx.
  - injection H as <-. cbn. split; [lia|]. split; [exact Hx|]. intros j Hj. lia.
  - destruct (findIndex p l) as [k|]; [|discriminate]. injection H as <-.
    destruct (IH k eq_refl) as (Hlen & Hk & Hbefore).
    split; [cbn; lia|]. split; [exact Hk|].
    intros [|j] Hj; [exact Hx|]. apply Hbefore. lia.
Qed.

(** X21.  Inserting a log entry never loses or reorders a byte of the
    note: the new text is the old one with one block inserted.  When a line
    of the note, trimmed, is the header, the block is an empty line followed
    by the entry, placed directly below the first such line, in front of
    whatever followed it.  Otherwise the header is created with the entry
    below it: at the end of the note, or in front of it when the insert
    position is top and the note does not contain the header text at
    all. *)
Theorem insertAfterHeader_keeps_the_note (dailyNoteHeader dailyNoteInsertPosition : option string)
    (content logEntry : string) :
  let header := headerToFind dailyNoteHeader in
  let lines := Files.split newline content in
  let isHeader := fun line => String.eqb (trim line) header in
  let result := insertAfterHeader dailyNoteHeader dailyNoteInsertPosition content logEntry in
  (exists before block after,
     content = before ++ after /\ result = before ++ block ++ after) /\
  (forall i,
     Feed.includes header content = true ->
     findIndex isHeader lines = Some i ->
     trim (nth i lines EmptyString) = header /\
     (forall j, (j < i)%nat -> trim (nth j lines EmptyString) <> header) /\
     exists after,
       content = Json.join LF (firstn (S i) lines) ++ after /\
       result = Json.join LF (firstn (S i) lines) ++ LF ++ LF ++ logEntry ++ after /\
       (after = EmptyString \/ String.prefix LF after = true)) /\
  (Feed.includes header content = true ->
   findIndex isHeader lines = None ->
   result = content ++ LF ++ LF ++ header ++ LF ++ LF ++ logEntry) /\
  (Feed.includes header content = false ->
   result = if DailyNote.insertsAtTop dailyNoteInsertPosition
            then header ++ LF ++ LF ++ logEntry ++ LF ++ LF ++ content
            else content ++ (if Files.endsWith LF content then EmptyString else LF) ++ LF
                         ++ header ++ LF ++ LF ++ logEntry).
Proof.
  intros header lines isHeader result.
  assert (Hline : forall i,
            Feed.includes header content = true ->
            findIndex isHeader lines = Some i ->
            trim (nth i lines EmptyString) = header /\
            (forall j, (j < i)%nat -> trim (nth j lines EmptyString) <> header) /\
            exists after,
              content = Json.join LF (firstn (S i) lines) ++ after /\
              result = Json.join LF (firstn (S i) lines) ++ LF ++ LF ++ logEntry ++ after /\
              (after = EmptyString \/ String.prefix LF after = true)).
  { intros i Hinc Hfind.
    destruct (findIndex_spec isHeader lines i Hfind) as (Hlen & Hi & Hbefore).
    split; [now apply String.eqb_eq in Hi|]. split.
    { intros j Hj. apply String.eqb_neq. now apply Hbefore. }
    assert (Hres : result = Json.join LF (firstn (S i) lines ++ [EmptyString; logEntry]
                                          ++ skipn (S i) lines)%list).
    { subst result. unfold DailyNote.insertAfterHeader. fold header. rewrite Hinc.
      fold lines. fold isHeader. now rewrite Hfind. }
    assert (Htake : firstn (S i) lines <> []).
    { destruct lines; [cbn in Hlen; lia | discriminate]. }
    assert (Hcontent : content = Json.join LF (firstn (S i) lines ++ skipn (S i) lines)%list).
    { rewrite firstn_skipn. subst lines. now rewrite join_split. }
    destruct (skipn (S i) lines) as [|r rest] eqn:Hrest.
    - exists EmptyString. rewrite app_nil_r in Hcontent. rewrite app_nil_r in Hres.
      split; [now rewrite append_nil_r|]. split; [|now left].
      rewrite Hres, join_app by (exact Htake || discriminate).
      cbn [Json.join]. now rewrite append_nil_r.
    - exists (LF ++ Json.join LF (r :: rest)).
      split; [|split; [|right; unfold LF; cbn [append]; rewrite prefix_cons, Ascii.eqb_refl, prefix_nil;
                        reflexivity]].
      + rewrite Hcontent. apply join_app; [exact Htake | discriminate].
      + rewrite Hres, join_app by (exact Htake || discriminate).
        change ([EmptyString; logEntry] ++ r :: rest)%list
          with (EmptyString :: logEntry :: r :: rest).
        rewrite (join_cons EmptyString) by discriminate.
        rewrite (join_cons logEntry) by discriminate.
        reflexivity. }
  assert (Hnone : Feed.includes header content = true ->
                  findIndex isHeader lines = None ->
                  result = content ++ LF ++ LF ++ header ++ LF ++ LF ++ logEntry).
  { intros Hinc Hfind. subst result. unfold DailyNote.insertAfterHeader. fold header.
    rewrite Hinc. fold lines. fold isHeader. now rewrite Hfind. }
  assert (Habsent : Feed.includes header content = false ->
            result = if DailyNote.insertsAtTop dailyNoteInsertPosition
                     then header ++ LF ++ LF ++ logEntry ++ LF ++ LF ++ content
                     else content ++ (if Files.endsWith LF content then EmptyString else LF)
                                  ++ LF ++ header ++ LF ++ LF ++ logEntry).
  { intros Hinc. subst result. unfold DailyNote.insertAfterHeader. fold header.
    now rewrite Hinc. }
  split; [|split; [exact Hline | split; [exact Hnone | exact Habsent]]].
  destruct (Feed.includes header content) eqn:Hinc.
  - destruct (findIndex isHeader lines) as [i|] eqn:Hfind.
    + destruct (Hline i eq_refl eq_refl) as (_ & _ & after & Hc & Hr & _).
      exists (Json.join LF (firstn (S i) lines)), (LF ++ LF ++ logEntry), after.
      split; [exact Hc|]. rewrite Hr. now rewrite !append_assoc.
    + exists content, (LF ++ LF ++ header ++ LF ++ LF ++ logEntry), EmptyString.
      split; [now rewrite append_nil_r|]. rewrite (Hnone eq_refl eq_refl).
      now rewrite !append_assoc, append_nil_r.
  - rewrite (Habsent eq_refl). destruct (DailyNote.insertsAtTop dailyNoteInsertPosition).
    + exists EmptyString, (header ++ LF ++ LF ++ logEntry ++ LF ++ LF), content.
      split; [reflexivity|]. cbn [append]. now rewrite !append_assoc.
    + exists content,
        ((if Files.endsWith LF content then EmptyString else LF) ++ LF
         ++ header ++ LF ++ LF ++ logEntry), EmptyString.
      split; [now rewrite append_nil_r|]. now rewrite !append_assoc, append_nil_r.
Qed.

End DailyNoteProperties.

(** ** The further properties on concrete inputs *)

Section ConcreteStores.

Import Json Examples Scenarios.

Local Abbreviation validate := Settings.validate.
Local Abbreviation clear := (StoreOps.clear json validate defaults stringifyPretty settingsPath).
Local Abbreviation delete := (StoreOps.delete json settingsPath).
Local Abbreviation flush := (Store.flush stringifyPretty settingsPath).
Local Abbreviation advance := (Store.advance stringifyPretty settingsPath).
Local Abbreviation getItemFilePath := (Files.getItemFilePath playlistsDir Obsidian.normalizePath).

(** X1 on the settings store: the defaults are valid, [clear()] writes them
    and leaves the cache empty. *)
Lemma clear_writes_default_then_drops_cache_witness :
  validate defaults = true /\
  snd (clear true idle) = Resolved tt /\
  Store.ioLog (fst (clear true idle))
  = [Store.AdapterWrite settingsPath (stringifyPretty defaults)] /\
  Store.cache (fst (clear true idle)) = None.
Proof.
  split; [reflexivity|].
  destruct (proj1 (clear_writes_default_then_drops_cache json validate defaults stringifyPretty
                     settingsPath idle) eq_refl) as (H1 & H2 & H3 & _).
  split; [exact H1|]. split; [exact H2 | exact H3].
Defined.

(** X2 on the settings store: a debounced save is pending, [delete()] is
    called, and neither the timer nor a [flush] writes afterwards. *)
Lemma delete_discards_pending_save_witness :
  Store.saveDebounceTimer saved = Some 6000 /\
  forallb (StoreOps.notSave json) [Store.Advance 1000; Store.CallFlush] = true /\
  Store.diskWrites (run [Store.Advance 1000; Store.CallFlush] (delete saved)) = [].
Proof.
  split; [reflexivity|]. split; [reflexivity|].
  destruct (delete_discards_pending_save json validate defaults parse stringifyPretty
              settingsPath saved) as (_ & _ & H & _).
  exact (proj1 (H [Store.Advance 1000; Store.CallFlush] eq_refl)).
Defined.


(** X4 on the settings store: the debounced write of the defaults fails;
    an hour later nothing more was written, and [flush] writes them. *)
Lemma failed_debounced_write_waits_for_flush_witness :
  Store.isDirty saved = true /\
  Store.cache saved = Some defaults /\
  Store.saveDebounceTimer saved = Some 6000 /\
  6000 <= Store.now saved + 1000 /\
  Store.hasPendingChanges
    (fst (Store.writeResolves settingsPath (Store.nextId saved) false (advance 1000 saved)))
  = true /\
  Store.ioLog
    (advance 3600000
       (fst (Store.writeResolves settingsPath (Store.nextId saved) false (advance 1000 saved))))
  = Store.ioLog (advance 1000 saved).
Proof.
  assert (Hdue : 6000 <= Store.now saved + 1000) by (vm_compute; discriminate).
  split; [reflexivity|]. split; [reflexivity|]. split; [reflexivity|]. split; [exact Hdue|].
  destruct (failed_debounced_write_waits_for_flush json stringifyPretty settingsPath
              saved defaults 6000 1000 eq_refl eq_refl eq_refl Hdue)
    as (_ & _ & H3 & _ & H5 & _).
  split; [exact H3 | exact (H5 3600000)].
Defined.

(** X6 on the playlist directory. *)
Lemma listItemIds_inverts_getItemFilePath_witness :
  Forall (fun id => Files.plainId id = true /\
                    getItemFilePath id = playlistsDir ++ "/" ++ id ++ ".json") playlistIds /\
  Files.existsAt vault playlistsDir = Some true /\
  Files.listAt vault playlistsDir = Some (map getItemFilePath playlistIds) /\
  fst (Files.listItemIds playlistsDir vault) = Resolved playlistIds.
Proof.
  assert (H : Forall (fun id => Files.plainId id = true /\
                                getItemFilePath id = playlistsDir ++ "/" ++ id ++ ".json")
                     playlistIds).
  { repeat constructor. }
  split; [exact H|]. split; [reflexivity|]. split; [reflexivity|].
  exact (proj1 (listItemIds_inverts_getItemFilePath playlistsDir Obsidian.normalizePath
                  vault playlistIds H) eq_refl eq_refl).
Defined.

(** X7 on the playlist directory: both files are removed, in order. *)
Lemma clear_removes_listed_files_witness :
  Files.existsAt vault playlistsDir = Some true /\
  Files.listAt vault playlistsDir = Some playlistFiles /\
  forallb (Files.removeAt vault) playlistFiles = true /\
  Files.clear playlistsDir vault
  = (Resolved tt,
     [Files.Exists playlistsDir; Files.List playlistsDir;
      Files.Remove "data/playlists/morning.json";
      Files.Remove "data/playlists/road-trip.json"]).
Proof.
  split; [reflexivity|]. split; [reflexivity|]. split; [reflexivity|].
  exact (proj1 (clear_removes_listed_files playlistsDir vault playlistFiles eq_refl eq_refl)
               eq_refl).
Defined.

(** X8 on the playlist directory: deleting a playlist that is not there
    asks for its file and removes nothing. *)
Lemma deleteItem_error_behaviour_witness :
  Files.existsAt vault (getItemFilePath "evening") <> Some true /\
  Files.deleteItem playlistsDir Obsidian.normalizePath vault "evening"
  = (Resolved tt, [Files.Exists "data/playlists/evening.json"]).
Proof.
  assert (H : Files.existsAt vault (getItemFilePath "evening") <> Some true)
    by (vm_compute; discriminate).
  split; [exact H|].
  exact (proj1 (deleteItem_error_behaviour playlistsDir Obsidian.normalizePath vault "evening")
               H).
Defined.


(** X9 on settings saved before skipOutroSeconds existed: the migrated
    settings, loaded again, are returned as they are and nothing is saved. *)
Lemma loadWithMigration_idempotent_witness :
  validate partialSettings = true /\
  Settings.wellFormed partialSettings = true /\
  Settings.wellFormed Settings.DEFAULT_SETTINGS = true /\
  Settings.plainKeys Settings.DEFAULT_SETTINGS = true /\
  exists m,
    Settings.migrate Settings.DEFAULT_SETTINGS partialSettings = Resolved m /\
    Settings.loadWithMigration_resume Settings.DEFAULT_SETTINGS settingsPath m idle
    = (idle, Resolved m).
Proof.
  split; [reflexivity|]. split; [reflexivity|]. split; [reflexivity|].
  split; [reflexivity|].
  destruct (loadWithMigration_idempotent Settings.DEFAULT_SETTINGS settingsPath
              partialSettings idle eq_refl eq_refl eq_refl eq_refl)
    as (m & H1 & _ & _ & _ & _ & H6).
  exists m. split; [exact H1 | exact H6].
Defined.

(** X10 on the default settings: a negative count is stored as 0. *)
Lemma typed_updates_are_accepted_witness :
  validate (JObj defaultFields) = true /\
  Store.cache (fst (SettingsOps.updateMaxCacheEpisodes_resume settingsPath (-3)
                      defaultFields true saved))
  = Some (JObj (set "maxCacheEpisodes" (JNum 0) defaultFields)).
Proof.
  split; [reflexivity|].
  destruct (typed_updates_are_accepted settingsPath Obsidian.normalizePath
              defaultFields true saved eq_refl) as (_ & _ & H & _).
  destruct (H (-3)) as [(_ & Hcache & _) _].
  exact Hcache.
Defined.

(** X11 on the settings store: [updateSetting('maxCacheEpisodes', -5)]
    throws, and the pending save then writes the rejected settings. *)
Lemma updateSetting_assigns_before_validating_witness :
  Store.cache saved = Some (JObj defaultFields) /\
  validate (JObj (set "maxCacheEpisodes" (JNum (-5)) defaultFields)) = false /\
  snd (SettingsOps.updateSetting_resume settingsPath "maxCacheEpisodes" (JNum (-5))
         defaultFields true saved)
  = Store.RThrows (mkStorageError "Data validation failed" settingsPath) /\
  Store.cache (fst (SettingsOps.updateSetting_resume settingsPath "maxCacheEpisodes"
                      (JNum (-5)) defaultFields true saved))
  = Some (JObj (set "maxCacheEpisodes" (JNum (-5)) defaultFields)).
Proof.
  split; [reflexivity|]. split; [reflexivity|].
  destruct (updateSetting_assigns_before_validating Settings.DEFAULT_SETTINGS settingsPath
              "maxCacheEpisodes" (JNum (-5)) defaultFields saved eq_refl eq_refl)
    as (H1 & H2 & _).
  split; [exact H1 | exact H2].
Defined.

(** X12 offline: three calls of requestUrl, then fetch, then the node
    client. *)
Lemma fetchFeedXML_request_order_witness :
  (List.length (snd (Feed.fetchFeedXML offline feedUrl 30000 Feed.defaultUserAgent None None))
   <= 5)%nat.
Proof.
  destruct (fetchFeedXML_request_order offline feedUrl 30000 Feed.defaultUserAgent None None)
    as (k & fallbacks & _ & _ & _ & _ & _ & _ & _ & Hlen).
  exact Hlen.
Defined.

(** X13 on an empty cache: the document fetched at time 1000 is served
    from the cache, offline, an hour later; had the cache write thrown, the
    fetch would have returned the same feed. *)
Lemma fetchFeed_cache_round_trip_witness :
  Feed.outcome string (fetchFeed (Some []) online 1000 noOptions) = Resolved "rss feed" /\
  Feed.requests string (fetchFeed (Some []) online 1000 noOptions) <> [] /\
  fetchFeed (Feed.cacheAfter string (fetchFeed (Some []) online 1000 noOptions))
            offline 3601000 noOptions
  = Feed.mkFetchResult string (Resolved "rss feed") []
      (Feed.cacheAfter string (fetchFeed (Some []) online 1000 noOptions)) /\
  Feed.outcome string
    (Feed.fetchFeed validateRss validateAtom string parseRss parseAtom (Some [])
       (Feed.WriteThrows (Feed.Error "ENOSPC: no space left on device") [])
       online 1000 feedUrl noOptions)
  = Resolved "rss feed".
Proof.
  assert (Hreq : Feed.requests string (fetchFeed (Some []) online 1000 noOptions) <> [])
    by (vm_compute; discriminate).
  split; [reflexivity|]. split; [exact Hreq|].
  destruct (fetchFeed_cache_round_trip validateRss validateAtom string parseRss parseAtom
              [] Feed.Stored online 1000 feedUrl noOptions) as (_ & Hwrite & Hround).
  split.
  - destruct (Hround "rss feed" eq_refl Hreq) as (fx & _ & _ & Hstored).
    destruct (Hstored eq_refl) as [Hcache Hlater].
    assert (Hxml : Feed.xml fx = rssDocument).
    { vm_compute in Hcache. injection Hcache as Hx _ _. symmetry. exact Hx. }
    assert (Hfresh : 3601000 <= 1000 + Feed.orDefault Z (Feed.cacheTTL noOptions) 3600000)
      by (vm_compute; discriminate).
    apply (proj1 (Hlater Feed.Stored offline 3601000 noOptions eq_refl Hfresh)).
    rewrite Hxml. vm_compute. discriminate.
  - exact (eq_trans
             (eq_sym (proj1 (Hwrite (Feed.WriteThrows
                                       (Feed.Error "ENOSPC: no space left on device") []))))
             eq_refl).
Defined.

(** X14 on a subscription that knows two of the three episodes: the
    update goes to the network although the cache is fresh, and reports the
    third. *)
Lemma updateFeed_reports_unseen_episodes_witness :
  snd (fst (updateShow (Some (cacheOf rssDocument)) online 2000 subscribed)) <> [] /\
  fst (fst (updateShow (Some (cacheOf rssDocument)) online 2000 subscribed))
  = Resolved (FeedUpdate.mkFeedUpdate Show string (mkShow feedUrl None)
                ["ep-3"; "ep-2"; "ep-1"] ["ep-3"]) /\
  fst (fst (updateShow None online 9000 (mkShow feedUrl (Some ["ep-3"; "ep-2"; "ep-1"]))))
  = Resolved (FeedUpdate.mkFeedUpdate Show string (mkShow feedUrl None)
                ["ep-3"; "ep-2"; "ep-1"] []).
Proof.
  destruct (updateFeed_reports_unseen_episodes validateRss validateAtom Show string
              showUrl showEpisodes (fun id => id) parseShow parseShow
              (Some (cacheOf rssDocument)) Feed.Stored online 2000 subscribed)
    as (Hreq & _ & Hok).
  split; [exact Hreq|]. split; [reflexivity|].
  destruct (Hok _ eq_refl) as (_ & _ & Hagain).
  exact (Hagain (mkShow feedUrl (Some ["ep-3"; "ep-2"; "ep-1"])) None Feed.Stored 9000
           eq_refl eq_refl).
Defined.


(** X15 on the episode list scrolled down by 1200 pixels: the items 15 to
    35 are rendered. *)
Lemma refresh_renders_the_viewport_witness :
  VirtualList.isDestroyed nat episodeList = false /\
  0 < VirtualList.itemHeight nat episodeList /\
  0 <= VirtualList.overscan nat episodeList /\
  VirtualList.startIndex (VirtualList.state nat (VirtualList.refresh nat 1200 600 episodeList))
  = 15 /\
  VirtualList.endIndex (VirtualList.state nat (VirtualList.refresh nat 1200 600 episodeList))
  = 35 /\
  (forall i, In i (VirtualList.renderedIndices nat (VirtualList.refresh nat 1200 600 episodeList))
             <-> 15 <= i <= 35).
Proof.
  assert (H1 : 0 < VirtualList.itemHeight nat episodeList) by reflexivity.
  assert (H2 : 0 <= VirtualList.overscan nat episodeList) by (vm_compute; discriminate).
  split; [reflexivity|]. split; [exact H1|]. split; [exact H2|].
  destruct (refresh_renders_the_viewport nat 1200 600 episodeList eq_refl H1 H2)
    as (Hs & He & Hin & _).
  split; [exact Hs|]. split; [exact He|]. exact Hin.
Defined.

(** X16 on the episode list: replacing the hundred episodes by another
    hundred leaves the list without a single element. *)
Lemma updateItems_blank_when_range_unchanged_witness :
  VirtualList.isDestroyed nat episodeList = false /\
  List.length (seq 100 100) = List.length (VirtualList.items nat episodeList) /\
  VirtualList.renderedElements nat
    (VirtualList.updateItems nat (seq 100 100) 0 600
       (VirtualList.updateViewport nat 0 600 episodeList)) = [].
Proof.
  split; [reflexivity|]. split; [reflexivity|].
  exact (proj1 (proj2 (updateItems_blank_when_range_unchanged nat 0 600 episodeList
                         (seq 100 100) eq_refl)) eq_refl).
Defined.

(** X17 on a date 29 days old. *)
Lemma formatRelativeTime_counts_witness :
  28 * TimeUtils.DAY_MS <= 1700000000000 - (1700000000000 - 29 * TimeUtils.DAY_MS)
    < 30 * TimeUtils.DAY_MS /\
  TimeUtils.formatRelativeTime 1700000000000 (1700000000000 - 29 * TimeUtils.DAY_MS)
  = "0 month ago".
Proof.
  assert (H : 28 * TimeUtils.DAY_MS
              <= 1700000000000 - (1700000000000 - 29 * TimeUtils.DAY_MS)
              < 30 * TimeUtils.DAY_MS) by (unfold TimeUtils.DAY_MS; lia).
  split; [exact H|].
  exact (proj1 (proj2 (formatRelativeTime_counts 1700000000000
                         (1700000000000 - 29 * TimeUtils.DAY_MS))) H).
Defined.

(** X18 on one hour, one minute and five seconds. *)
Lemma parseTimeString_inverts_formatTime_witness :
  0 <= 3665 <= TimeUtils.MAX_SAFE_INTEGER /\
  TimeUtils.formatTime 3665 false = "1:01:05" /\
  TimeUtils.parseTimeString (TimeUtils.formatTime 3665 false) = Some 3665.
Proof.
  assert (H : 0 <= 3665 <= TimeUtils.MAX_SAFE_INTEGER)
    by (unfold TimeUtils.MAX_SAFE_INTEGER; lia).
  split; [exact H|]. split; [reflexivity|].
  exact (proj1 (parseTimeString_inverts_formatTime 3665 false) H).
Defined.


(** X19 on the settings store: the defaults are being written when custom
    settings are saved; once the write has completed the store looks clean
    and the custom settings exist in memory only. *)
Lemma save_during_write_is_lost_witness :
  validate defaults = true /\
  validate customSettings = true /\
  Store.cache
    (run [Store.CallSave defaults true; Store.CallSave customSettings false;
          Store.WriteResolves 0 true] idle) = Some customSettings /\
  Store.hasPendingChanges
    (run [Store.CallSave defaults true; Store.CallSave customSettings false;
          Store.WriteResolves 0 true] idle) = false.
Proof.
  split; [reflexivity|]. split; [reflexivity|].
  destruct (save_during_write_is_lost json validate defaults parse stringifyPretty settingsPath
              idle defaults customSettings eq_refl eq_refl) as (_ & _ & Hc & Hd & _).
  split; [exact Hc | exact Hd].
Defined.

(** X20 on the settings store: custom settings are saved while the first
    load is reading a file that holds the defaults; a second later the
    defaults are written back. *)
Lemma load_in_flight_overwrites_save_witness :
  Store.loadPromise idle = None /\
  (Store.cache idle = None \/
   Store.CACHE_TTL_MS <= Store.now idle - Store.cacheTimestamp idle) /\
  validate customSettings = true /\
  parse (stringifyPretty defaults) = Some defaults /\
  validate defaults = true /\
  Store.diskWrites
    (run [Store.CallLoad; Store.CallSave customSettings false;
          Store.ExistsResolves (Some true);
          Store.ReadResolves (Some (stringifyPretty defaults));
          Store.Advance 1000] idle)
  = [Store.AdapterWrite settingsPath (stringifyPretty defaults)].
Proof.
  assert (Hstale : Store.cache idle = None \/
                   Store.CACHE_TTL_MS <= Store.now idle - Store.cacheTimestamp idle)
    by (left; reflexivity).
  assert (Hparse : parse (stringifyPretty defaults) = Some defaults) by reflexivity.
  split; [reflexivity|]. split; [exact Hstale|]. split; [reflexivity|].
  split; [exact Hparse|]. split; [reflexivity|].
  destruct (load_in_flight_overwrites_save json validate defaults parse stringifyPretty
              settingsPath idle customSettings defaults (stringifyPretty defaults)
              eq_refl Hstale eq_refl Hparse eq_refl) as (_ & _ & _ & Htimer & _).
  assert (Hdue : Store.SAVE_DEBOUNCE_MS <= 1000) by (vm_compute; discriminate).
  pose proof (Htimer 1000 Hdue) as Hlog.
  change (run [Store.CallLoad; Store.CallSave customSettings false;
               Store.ExistsResolves (Some true);
               Store.ReadResolves (Some (stringifyPretty defaults));
               Store.Advance 1000] idle)
    with (Store.advance stringifyPretty settingsPath 1000
            (Store.exec validate defaults parse stringifyPretty settingsPath
               [Store.CallLoad; Store.CallSave customSettings false;
                Store.ExistsResolves (Some true);
                Store.ReadResolves (Some (stringifyPretty defaults))] idle)).
  unfold Store.diskWrites. rewrite Hlog. reflexivity.
Defined.


(** X21 on a note that has the header on its second line: the new entry
    goes between the header and the entry that was there. *)
Lemma insertAfterHeader_keeps_the_note_witness :
  Feed.includes (DailyNote.headerToFind Feed.trim None) dailyNote = true /\
  DailyNote.findIndex
    (fun line => String.eqb (Feed.trim line) (DailyNote.headerToFind Feed.trim None))
    (Files.split DailyNote.newline dailyNote) = Some 1%nat /\
  exists after,
    dailyNote = ("# Monday" ++ DailyNote.LF ++ DailyNote.DEFAULT_HEADER) ++ after /\
    DailyNote.insertAfterHeader Feed.trim None None dailyNote "- second entry"
    = ("# Monday" ++ DailyNote.LF ++ DailyNote.DEFAULT_HEADER)
      ++ DailyNote.LF ++ DailyNote.LF ++ "- second entry" ++ after.
Proof.
  split; [reflexivity|]. split; [reflexivity|].
  destruct (proj1 (proj2 (insertAfterHeader_keeps_the_note Feed.trim None None dailyNote
                            "- second entry")) 1%nat eq_refl eq_refl)
    as (_ & _ & after & Hc & Hr & _).
  exists after. split; [exact Hc | exact Hr].
Defined.


(** X22 on a position of 59 minutes and 59 seconds. *)
Lemma modal_position_round_trip_witness :
  0 <= 3599 <= TimeUtils.MAX_SAFE_INTEGER /\
  AddNoteModal.formatTime 3599 = "59:59" /\
  TimeUtils.parseTimeString (AddNoteModal.formatTime 3599) = Some 3599.
Proof.
  assert (H : 0 <= 3599 <= TimeUtils.MAX_SAFE_INTEGER)
    by (unfold TimeUtils.MAX_SAFE_INTEGER; lia).
  split; [exact H|]. split; [reflexivity|].
  exact (proj2 (modal_position_round_trip 3599 H)).
Defined.

End ConcreteStores.
